(** * questLine: the Werewolf rules engine and the AI fallback policy

    A shallow embedding of
      - packages/types/src/werewolf.ts        (data model),
      - packages/game-logic/src/werewolf/     (win-conditions, roles, actions,
                                               voting, phases),
      - convex/werewolf/                      (actions, phases, voting mutations),
      - convex/lib/aiDecisions.ts             (fallback decision policy).

    JavaScript numbers that hold rounds, times and settings are the integers
    [Z] they hold, and [round + 1] is rounded the way a double is
    ([js_add]); tallies are counters [nat]; ids are strings; [Date.now()] is
    an explicit argument (one value for the calls inside one function);
    [Math.random()] is an explicit draw from the unit interval. *)

From Stdlib Require Import String Ascii ZArith NArith Arith List Bool Lia Permutation.
Import ListNotations.

Local Open Scope string_scope.
Local Open Scope list_scope.
Local Open Scope nat_scope.

(* ------------------------------------------------------------------ *)
(** ** Data model (packages/types) *)

Definition PlayerId := string.

Inductive GamePhase := setup | night | day | voting | resolution | ended.
Inductive WinCondition := villagers | werewolves | none.
Inductive WerewolfRole := villager | werewolf | seer | doctor | hunter.
Inductive SessionMode := focus_as_night | action_reward | timed_round.
Inductive Difficulty := easy | medium | hard.
Inductive NightActionType := kill | investigate | protect | no_action.

Scheme Equality for GamePhase.
Scheme Equality for WinCondition.
Scheme Equality for WerewolfRole.
Scheme Equality for NightActionType.

Record WerewolfSettings := mkSettings {
  mode_of : SessionMode;
  playerCount : Z;
  werewolfCount : Z;
  includeRoles : list WerewolfRole;
  aiPlayerCount : Z;
  aiDifficulty : Difficulty;
  allowChat : bool;
  revealRolesOnDeath : bool
}.

Record WerewolfPlayer := mkPlayer {
  id : PlayerId;
  name : string;
  isAI : bool;
  role : option WerewolfRole;
  isAlive : bool;
  actionTokens : Z;
  hasActedThisRound : bool;
  hasVotedThisRound : bool
}.

Record NightAction := mkAction {
  playerId : PlayerId;
  a_targetId : option PlayerId;
  actionType : NightActionType;
  a_round : Z;
  a_timestamp : Z
}.

Record Vote := mkVote {
  voterId : PlayerId;
  v_targetId : option PlayerId;
  v_round : Z;
  v_timestamp : Z
}.

Record WerewolfGameState := mkState {
  gameId : string;
  gameName : string;
  hostId : string;
  phase : GamePhase;
  round : Z;
  mode : SessionMode;
  settings : WerewolfSettings;
  players : list WerewolfPlayer;
  nightActions : list NightAction;
  votes : list Vote;
  eliminatedToday : option PlayerId;
  killedTonight : option PlayerId;
  savedTonight : option PlayerId;
  winner : WinCondition;
  createdAt : Z;
  updatedAt : Z
}.

(** Object spreads [{ ...p, field: v }] used by the engine. *)
Definition set_isAlive (b : bool) (p : WerewolfPlayer) : WerewolfPlayer :=
  mkPlayer (id p) (name p) (isAI p) (role p) b (actionTokens p)
           (hasActedThisRound p) (hasVotedThisRound p).

Definition set_hasActed (b : bool) (p : WerewolfPlayer) : WerewolfPlayer :=
  mkPlayer (id p) (name p) (isAI p) (role p) (isAlive p) (actionTokens p)
           b (hasVotedThisRound p).

Definition set_hasVoted (b : bool) (p : WerewolfPlayer) : WerewolfPlayer :=
  mkPlayer (id p) (name p) (isAI p) (role p) (isAlive p) (actionTokens p)
           (hasActedThisRound p) b.

Definition reset_round_flags (p : WerewolfPlayer) : WerewolfPlayer :=
  mkPlayer (id p) (name p) (isAI p) (role p) (isAlive p) (actionTokens p)
           false false.

(** JavaScript truthiness of a string id: the empty string is falsy. *)
(** The double nearest to the integer [x], ties to the even significand: a
    double holds 53 significant bits, so every integer below 2^53 in absolute
    value is kept, and a larger one loses its low bits. *)
Definition round_double (x : Z) : Z :=
  let m := Z.abs x in
  if (m <? 2 ^ 53)%Z then x
  else
    let k := (Z.log2 m - 52)%Z in
    let q := Z.shiftr m k in
    let r := (m - Z.shiftl q k)%Z in
    let half := (2 ^ (k - 1))%Z in
    let q' := if (r <? half)%Z then q
              else if (half <? r)%Z then (q + 1)%Z
              else if Z.even q then q else (q + 1)%Z in
    (Z.sgn x * Z.shiftl q' k)%Z.

(** [x + y] on numbers that hold integers: the sum, rounded to a double. *)
Definition js_add (x y : Z) : Z := round_double (x + y).

Definition truthy (s : string) : bool := negb (s =? "")%string.

Definition truthy_opt (o : option string) : bool :=
  match o with Some s => truthy s | None => false end.

Definition is_role (r : WerewolfRole) (p : WerewolfPlayer) : bool :=
  match role p with
  | Some r' => WerewolfRole_beq r' r
  | None => false
  end.

(* ------------------------------------------------------------------ *)
(** ** win-conditions.ts *)

Definition aliveWerewolves (ps : list WerewolfPlayer) : list WerewolfPlayer :=
  filter (is_role werewolf) (filter isAlive ps).

Definition aliveVillagers (ps : list WerewolfPlayer) : list WerewolfPlayer :=
  filter (fun p => negb (is_role werewolf p)) (filter isAlive ps).

Definition checkWinCondition (ps : list WerewolfPlayer) : WinCondition :=
  if length (aliveVillagers ps) <=? length (aliveWerewolves ps) then werewolves
  else if length (aliveWerewolves ps) =? 0 then villagers
  else none.

(* ------------------------------------------------------------------ *)
(** ** roles.ts: validateRoleConfiguration *)

Record Validation := mkValidation {
  valid : bool;
  errors : list string
}.

Definition push_if (c : bool) (msg : string) (errs : list string) : list string :=
  if c then errs ++ [msg] else errs.

(** [Math.floor(playerCount / 2)] on integers is [Z.div] (floor division). *)
Definition validateRoleConfiguration (s : WerewolfSettings) : Validation :=
  let e0 := [] in
  let e1 := push_if (playerCount s <? 4)%Z "Minimum 4 players required" e0 in
  let e2 := push_if (werewolfCount s <? 1)%Z "At least 1 werewolf required" e1 in
  let e3 := push_if (playerCount s / 2 <=? werewolfCount s)%Z
                    "Werewolves cannot be majority at start" e2 in
  let e4 := push_if (playerCount s <? Z.of_nat (length (includeRoles s)))%Z
                    "Too many special roles for player count" e3 in
  mkValidation (length e4 =? 0) e4.

(* ------------------------------------------------------------------ *)
(** ** Counters keyed by strings

    A [JsRecord] is a counter with numeric values whose keys are kept in the
    order they were created: the [Map<string, number>] of the Convex layer,
    and the numeric own properties of a counter object (see [JsObject]
    below). *)

Definition JsRecord := list (string * nat).

Fixpoint rec_get (k : string) (r : JsRecord) : option nat :=
  match r with
  | [] => None
  | (k', c) :: r' => if (k' =? k)%string then Some c else rec_get k r'
  end.

Fixpoint rec_bump (k : string) (r : JsRecord) : JsRecord :=
  match r with
  | [] => [(k, 1)]
  | (k', c) :: r' =>
      if (k' =? k)%string then (k', c + 1) :: r' else (k', c) :: rec_bump k r'
  end.

(* ------------------------------------------------------------------ *)
(** ** Plain JavaScript objects used as counters

    [Record<PlayerId, number>] built from [{}] by [r[k] = (r[k] ?? 0) + 1].
    The object inherits from [Object.prototype]: reading [r[k]] for a key
    that names one of its members and is no own property yields that member
    (a function, or the prototype itself for [__proto__]), which is not
    nullish, and [member + 1] is a string.  So under such a key the object
    ends up holding a string, and holding nothing under [__proto__], whose
    setter ignores a value that is no object. *)

Inductive JsValue : Type :=
| Num (n : nat)       (* a number *)
| Text (ones : nat)   (* a string: the text of an inherited member followed
                         by [ones] digits 1 *)
| Member.             (* an inherited member of [Object.prototype] itself *)

(** The own properties, in creation order. *)
Definition JsObject := list (string * JsValue).

(** The property names of [Object.prototype]. *)
Definition proto_members : list string :=
  [ "constructor"; "__defineGetter__"; "__defineSetter__"; "hasOwnProperty";
    "__lookupGetter__"; "__lookupSetter__"; "isPrototypeOf";
    "propertyIsEnumerable"; "toString"; "valueOf"; "__proto__";
    "toLocaleString" ].

Definition inherited (k : string) : bool :=
  existsb (fun m => (m =? k)%string) proto_members.

Fixpoint own_get (k : string) (r : JsObject) : option JsValue :=
  match r with
  | [] => None
  | (k', v) :: r' => if (k' =? k)%string then Some v else own_get k r'
  end.

(** [r[k]]; [None] is [undefined]. *)
Definition obj_read (k : string) (r : JsObject) : option JsValue :=
  match own_get k r with
  | Some v => Some v
  | None => if inherited k then Some Member else None
  end.

Fixpoint own_set (k : string) (v : JsValue) (r : JsObject) : JsObject :=
  match r with
  | [] => [(k, v)]
  | (k', c) :: r' =>
      if (k' =? k)%string then (k', v) :: r' else (k', c) :: own_set k v r'
  end.

(** [r[k] = v] for a value [v] that is no object. *)
Definition obj_assign (k : string) (v : JsValue) (r : JsObject) : JsObject :=
  if (k =? "__proto__")%string then r else own_set k v r.

(** [v + 1] *)
Definition plus_one (v : JsValue) : JsValue :=
  match v with
  | Num n => Num (n + 1)
  | Text n => Text (n + 1)
  | Member => Text 1
  end.

(** [v ?? 0] *)
Definition or_zero (o : option JsValue) : JsValue :=
  match o with Some v => v | None => Num 0 end.

(** [r[k] = (r[k] ?? 0) + 1] *)
Definition obj_bump (k : string) (r : JsObject) : JsObject :=
  obj_assign k (plus_one (or_zero (obj_read k r))) r.

(** [Object.entries] enumerates the own properties: array-index keys
    (canonical decimal strings below 2^32 - 1) first, in ascending numeric
    order, then all other keys in creation order. *)

Definition digit_val (c : ascii) : option N :=
  let n := N_of_ascii c in
  if ((48 <=? n) && (n <=? 57))%N then Some (n - 48)%N else None.

Fixpoint parse_digits (s : string) (acc : N) : option N :=
  match s with
  | EmptyString => Some acc
  | String c s' =>
      match digit_val c with
      | Some d => parse_digits s' (10 * acc + d)%N
      | None => None
      end
  end.

Definition arrayIndex (s : string) : option N :=
  match s with
  | EmptyString => None
  | String c s' =>
      if (N_of_ascii c =? 48)%N then
        match s' with EmptyString => Some 0%N | _ => None end
      else
        match parse_digits s 0%N with
        | Some n => if (n <? 4294967295)%N then Some n else None
        | None => None
        end
  end.

Fixpoint insert_index {V} (e : N * (string * V)) (l : list (N * (string * V)))
  : list (N * (string * V)) :=
  match l with
  | [] => [e]
  | e' :: l' => if (fst e <=? fst e')%N then e :: l else e' :: insert_index e l'
  end.

Fixpoint index_keys {V} (r : list (string * V)) : list (N * (string * V)) :=
  match r with
  | [] => []
  | e :: r' =>
      match arrayIndex (fst e) with
      | Some n => insert_index (n, e) (index_keys r')
      | None => index_keys r'
      end
  end.

Definition is_string_key {V} (e : string * V) : bool :=
  match arrayIndex (fst e) with Some _ => false | None => true end.

Definition objectEntries {V} (r : list (string * V)) : list (string * V) :=
  map snd (index_keys r) ++ filter is_string_key r.

(* ------------------------------------------------------------------ *)
(** ** Results of fallible operations ([throw new Error(msg)]) *)

Inductive Result (A : Type) : Type :=
| Ok (a : A)
| Err (msg : string).
Arguments Ok {A} a.
Arguments Err {A} msg.

Definition bind {A B} (r : Result A) (f : A -> Result B) : Result B :=
  match r with
  | Ok a => f a
  | Err m => Err m
  end.

Notation "x <- c ;; k" := (bind c (fun x => k))
  (at level 61, c at next level, right associativity).

Definition guard (c : bool) (msg : string) : Result unit :=
  if c then Ok tt else Err msg.

Record Check := mkCheck {
  ok : bool;
  reason : option string
}.

Definition accept : Check := mkCheck true None.
Definition reject (msg : string) : Check := mkCheck false (Some msg).

(* ------------------------------------------------------------------ *)
(** ** actions.ts *)

Definition option_string_eqb (a b : option string) : bool :=
  match a, b with
  | Some x, Some y => (x =? y)%string
  | None, None => true
  | _, _ => false
  end.

Definition getNightActionType (r : option WerewolfRole) : NightActionType :=
  match r with
  | Some werewolf => kill
  | Some seer => investigate
  | Some doctor => protect
  | _ => no_action
  end.

Definition canPerformNightAction (player target : WerewolfPlayer)
                                 (state : WerewolfGameState) : Check :=
  if negb (isAlive player) then reject "Dead players cannot act"
  else if negb (isAlive target) then reject "Cannot target dead players"
  else if negb (GamePhase_beq (phase state) night)
       then reject "Night actions only during night phase"
  else if hasActedThisRound player then reject "Already acted this round"
  else if NightActionType_beq (getNightActionType (role player)) no_action
       then reject "This role has no night action"
  else if is_role werewolf player && is_role werewolf target
       then reject "Werewolves cannot kill other werewolves"
  else accept.

Definition submitNightAction (s : WerewolfGameState) (pid tid : PlayerId)
                             (now : Z) : Result WerewolfGameState :=
  match find (fun p => (id p =? pid)%string) (players s) with
  | None => Err "Player not found"
  | Some player =>
      let action := mkAction pid (Some tid) (getNightActionType (role player))
                             (round s) now in
      Ok (mkState (gameId s) (gameName s) (hostId s) (phase s) (round s)
                  (mode s) (settings s)
                  (map (fun p => if (id p =? pid)%string
                                 then set_hasActed true p else p) (players s))
                  (nightActions s ++ [action]) (votes s) (eliminatedToday s)
                  (killedTonight s) (savedTonight s) (winner s) (createdAt s)
                  now)
  end.

Definition countTarget (r : JsObject) (a : NightAction) : JsObject :=
  match a_targetId a with
  | Some t => if truthy t then obj_bump t r else r
  | None => r
  end.

(** The body of the loop [if (count > maxVotes) ...] for a count that is a
    number. *)
Definition majorityStep (st : nat * option PlayerId) (e : string * nat)
  : nat * option PlayerId :=
  if fst st <? snd e then (snd e, Some (fst e)) else st.

(** The same for any stored value: a string is not [>] a number. *)
Definition majorityEntry (st : nat * option PlayerId) (e : string * JsValue)
  : nat * option PlayerId :=
  match snd e with
  | Num c => majorityStep st (fst e, c)
  | _ => st
  end.

Definition getMajorityTarget (actions : list NightAction) : option PlayerId :=
  match actions with
  | [] => None
  | _ =>
      let votes := fold_left countTarget actions [] in
      snd (fold_left majorityEntry (objectEntries votes) (0, None))
  end.

Definition kill_player (t : PlayerId) (p : WerewolfPlayer) : WerewolfPlayer :=
  if (id p =? t)%string then set_isAlive false p else p.

Definition currentRoundActions (s : WerewolfGameState) : list NightAction :=
  filter (fun a => (a_round a =? round s)%Z) (nightActions s).

Definition killTargetOf (s : WerewolfGameState) : option PlayerId :=
  getMajorityTarget
    (filter (fun a => NightActionType_beq (actionType a) kill)
            (currentRoundActions s)).

Definition protectedTargetOf (s : WerewolfGameState) : option PlayerId :=
  match find (fun a => NightActionType_beq (actionType a) protect)
             (currentRoundActions s) with
  | Some a => a_targetId a
  | None => None
  end.

(** The three variables [updatedPlayers], [killedPlayerId], [savedPlayerId]
    after the [if (killTarget)] block. *)
Definition nightOutcome (s : WerewolfGameState)
  : list WerewolfPlayer * option PlayerId * option PlayerId :=
  let killTarget := killTargetOf s in
  let protectedTarget := protectedTargetOf s in
  let killSucceeds :=
    truthy_opt killTarget && negb (option_string_eqb killTarget protectedTarget) in
  match killTarget with
  | Some t =>
      if truthy t then
        if killSucceeds then (map (kill_player t) (players s), Some t, None)
        else if option_string_eqb protectedTarget killTarget
             then (players s, None, Some t)
             else (players s, None, None)
      else (players s, None, None)
  | None => (players s, None, None)
  end.

Definition resolveNightActions (s : WerewolfGameState) (now : Z)
  : WerewolfGameState :=
  let o := nightOutcome s in
  mkState (gameId s) (gameName s) (hostId s) (phase s) (round s) (mode s)
          (settings s) (fst (fst o)) (nightActions s) (votes s)
          (eliminatedToday s) (snd (fst o)) (snd o) (winner s)
          (createdAt s) now.

(* ------------------------------------------------------------------ *)
(** ** voting.ts *)

Definition canVote (voter : WerewolfPlayer) (target : option WerewolfPlayer)
                   (state : WerewolfGameState) : Check :=
  if negb (isAlive voter) then reject "Dead players cannot vote"
  else if negb (GamePhase_beq (phase state) voting)
       then reject "Voting only during voting phase"
  else if hasVotedThisRound voter then reject "Already voted this round"
  else match target with
       | Some t => if negb (isAlive t) then reject "Cannot vote for dead players"
                   else accept
       | None => accept
       end.

Definition submitVote (s : WerewolfGameState) (vid : PlayerId)
                      (tid : option PlayerId) (now : Z) : WerewolfGameState :=
  let vote := mkVote vid tid (round s) now in
  mkState (gameId s) (gameName s) (hostId s) (phase s) (round s) (mode s)
          (settings s)
          (map (fun p => if (id p =? vid)%string then set_hasVoted true p else p)
               (players s))
          (nightActions s) (votes s ++ [vote]) (eliminatedToday s)
          (killedTonight s) (savedTonight s) (winner s) (createdAt s) now.

Record Tally := mkTally {
  results : JsObject;
  abstentions : nat;
  leader : option PlayerId;
  isTie : bool
}.

Definition currentRoundVotes (s : WerewolfGameState) : list Vote :=
  filter (fun v => (v_round v =? round s)%Z) (votes s).

Definition countVote (acc : JsObject * nat) (v : Vote) : JsObject * nat :=
  match v_targetId v with
  | None => (fst acc, snd acc + 1)
  | Some t => (obj_bump t (fst acc), snd acc)
  end.

Record LeaderScan := mkScan {
  maxVotes : nat;
  scan_leader : option PlayerId;
  scan_tie : bool
}.

(** The body of the loop over the entries for a count that is a number. *)
Definition leaderStep (st : LeaderScan) (e : string * nat) : LeaderScan :=
  if maxVotes st <? snd e then mkScan (snd e) (Some (fst e)) false
  else if snd e =? maxVotes st then mkScan (maxVotes st) (scan_leader st) true
  else st.

(** The same for any stored value: a string is neither [>] nor [===] a
    number. *)
Definition leaderEntry (st : LeaderScan) (e : string * JsValue) : LeaderScan :=
  match snd e with
  | Num c => leaderStep st (fst e, c)
  | _ => st
  end.

Definition tallyVotes (s : WerewolfGameState) : Tally :=
  let counted := fold_left countVote (currentRoundVotes s) ([], 0) in
  let scan := fold_left leaderEntry (objectEntries (fst counted))
                        (mkScan 0 None false) in
  mkTally (fst counted) (snd counted) (scan_leader scan) (scan_tie scan).

Definition with_no_elimination (s : WerewolfGameState) (now : Z)
  : WerewolfGameState :=
  mkState (gameId s) (gameName s) (hostId s) (phase s) (round s) (mode s)
          (settings s) (players s) (nightActions s) (votes s) None
          (killedTonight s) (savedTonight s) (winner s) (createdAt s) now.

Definition resolveVoting (s : WerewolfGameState)
                         (hunterRevengeTargetId : option PlayerId) (now : Z)
  : WerewolfGameState :=
  let t := tallyVotes s in
  if isTie t || negb (truthy_opt (leader t)) then with_no_elimination s now
  else
    match leader t with
    | None => with_no_elimination s now
    | Some l =>
        match find (fun p => (id p =? l)%string) (players s) with
        | None => with_no_elimination s now
        | Some eliminatedPlayer =>
            let updatedPlayers := map (kill_player l) (players s) in
            let updatedPlayers' :=
              if is_role hunter eliminatedPlayer
                 && truthy_opt hunterRevengeTargetId
                 && negb (option_string_eqb hunterRevengeTargetId (Some l))
              then
                match hunterRevengeTargetId with
                | Some r =>
                    match find (fun p => (id p =? r)%string && isAlive p)
                               updatedPlayers with
                    | Some _ => map (kill_player r) updatedPlayers
                    | None => updatedPlayers
                    end
                | None => updatedPlayers
                end
              else updatedPlayers in
            mkState (gameId s) (gameName s) (hostId s) (phase s) (round s)
                    (mode s) (settings s) updatedPlayers' (nightActions s)
                    (votes s) (Some l) (killedTonight s) (savedTonight s)
                    (winner s) (createdAt s) now
        end
    end.

(* ------------------------------------------------------------------ *)
(** ** phases.ts *)

Definition getNextPhase (p : GamePhase) : GamePhase :=
  match p with
  | setup => night
  | night => day
  | day => voting
  | voting => resolution
  | resolution => night
  | ended => ended
  end.

Definition has_night_role (p : WerewolfPlayer) : bool :=
  is_role werewolf p || is_role seer p || is_role doctor p.

Definition has_role (p : WerewolfPlayer) : bool :=
  match role p with Some _ => true | None => false end.

Definition canTransitionPhase (s : WerewolfGameState) : Check :=
  let alivePlayers := filter isAlive (players s) in
  match phase s with
  | setup =>
      if negb (forallb has_role (players s)) then reject "Roles not assigned"
      else if length (players s) <? 4 then reject "Need at least 4 players"
      else accept
  | night =>
      let playersWithActions := filter has_night_role alivePlayers in
      if negb (forallb hasActedThisRound playersWithActions)
      then reject "Waiting for night actions"
      else accept
  | day => accept
  | voting =>
      if negb (forallb hasVotedThisRound alivePlayers)
      then reject "Waiting for all votes"
      else accept
  | resolution => accept
  | ended => reject "Game has ended"
  end.

Definition transitionPhase (s : WerewolfGameState) (now : Z)
  : WerewolfGameState :=
  let nextPhase := getNextPhase (phase s) in
  let winCondition := checkWinCondition (players s) in
  if negb (WinCondition_beq winCondition none) then
    mkState (gameId s) (gameName s) (hostId s) ended (round s) (mode s)
            (settings s) (players s) (nightActions s) (votes s)
            (eliminatedToday s) (killedTonight s) (savedTonight s)
            winCondition (createdAt s) now
  else
    let startingNewRound :=
      GamePhase_beq nextPhase night && GamePhase_beq (phase s) resolution in
    let newRound := if startingNewRound then js_add (round s) 1 else round s in
    let updatedPlayers :=
      if startingNewRound then map reset_round_flags (players s) else players s in
    mkState (gameId s) (gameName s) (hostId s) nextPhase newRound (mode s)
            (settings s) updatedPlayers (nightActions s) (votes s)
            None None None (winner s) (createdAt s) now.

(** The two calls of [Date.now()] (in the resolution step and in the
    transition) are the arguments [t1] and [t2]. *)
Definition advanceGameToNextPhase (s : WerewolfGameState)
           (hunterRevengeTargetId : option PlayerId) (t1 t2 : Z)
  : WerewolfGameState :=
  if negb (ok (canTransitionPhase s)) then s
  else
    match phase s with
    | night => transitionPhase (resolveNightActions s t1) t2
    | voting => transitionPhase (resolveVoting s hunterRevengeTargetId t1) t2
    | _ => transitionPhase s t2
    end.

(* ------------------------------------------------------------------ *)
(** ** The Convex mutations (convex/werewolf/{actions,phases,voting}.ts)

    The store is one value: a table is the list of its documents in creation
    order, which is the order an indexed [collect()] returns them in.  Ids of
    games and players are the strings the client passes; documents created by
    [ctx.db.insert] get the next number of a counter.  A mutation is a function
    from the store to a [Result]: [Err] is a thrown error, which aborts the
    transaction, so no store comes back. *)

Module Convex.

Definition Id := string.

Record GameDoc := mkGame {
  g_id : Id;
  g_phase : GamePhase;
  g_round : Z;
  g_winner : option WinCondition;
  g_updatedAt : Z
}.

Record PlayerDoc := mkPlayerDoc {
  p_id : Id;
  p_gameId : Id;
  p_name : string;
  p_role : option WerewolfRole;
  p_isAlive : bool;
  p_hasActedThisRound : bool;
  p_hasVotedThisRound : bool
}.

Record VoteDoc := mkVoteDoc {
  vd_id : nat;
  vd_gameId : Id;
  vd_voterId : Id;
  vd_targetId : option Id;
  vd_round : Z;
  vd_timestamp : Z
}.

Record ActionDoc := mkActionDoc {
  ad_id : nat;
  ad_gameId : Id;
  ad_playerId : Id;
  ad_targetId : option Id;
  ad_actionType : NightActionType;
  ad_round : Z;
  ad_timestamp : Z
}.

Inductive Payload :=
| phase_advanced (from to : GamePhase)
| night_resolved (rnd : Z) (eliminatedPlayerId : option Id).

Record EventDoc := mkEvent {
  e_id : nat;
  e_gameId : Id;
  e_payload : Payload;
  e_round : Z;
  e_createdAt : Z
}.

(** A scheduled call of [internal.aiEngine.onPhaseAdvance]. *)
Record Scheduled := mkScheduled {
  s_gameId : Id;
  s_phase : GamePhase;
  s_round : Z
}.

Record Db := mkDb {
  games : list GameDoc;
  players : list PlayerDoc;
  votes : list VoteDoc;
  actions : list ActionDoc;
  gameEvents : list EventDoc;
  scheduled : list Scheduled;
  nextId : nat
}.

Definition get_game (db : Db) (g : Id) : option GameDoc :=
  find (fun d => (g_id d =? g)%string) (games db).

Definition get_player (db : Db) (p : Id) : option PlayerDoc :=
  find (fun d => (p_id d =? p)%string) (players db).

Definition set_games (db : Db) (gs : list GameDoc) : Db :=
  mkDb gs (players db) (votes db) (actions db) (gameEvents db) (scheduled db)
       (nextId db).

Definition set_players (db : Db) (ps : list PlayerDoc) : Db :=
  mkDb (games db) ps (votes db) (actions db) (gameEvents db) (scheduled db)
       (nextId db).

Definition set_votes (db : Db) (vs : list VoteDoc) : Db :=
  mkDb (games db) (players db) vs (actions db) (gameEvents db) (scheduled db)
       (nextId db).

(** [ctx.db.patch(id, fields)] throws when no document has that id. *)
Definition patch_game (db : Db) (g : Id) (f : GameDoc -> GameDoc) : Result Db :=
  match get_game db g with
  | None => Err "Update on nonexistent document"
  | Some _ =>
      Ok (set_games db (map (fun d => if (g_id d =? g)%string then f d else d)
                            (games db)))
  end.

Definition patch_player (db : Db) (p : Id) (f : PlayerDoc -> PlayerDoc)
  : Result Db :=
  match get_player db p with
  | None => Err "Update on nonexistent document"
  | Some _ =>
      Ok (set_players db (map (fun d => if (p_id d =? p)%string then f d else d)
                              (players db)))
  end.

Definition patch_vote (db : Db) (v : nat) (f : VoteDoc -> VoteDoc) : Result Db :=
  match find (fun d => vd_id d =? v) (votes db) with
  | None => Err "Update on nonexistent document"
  | Some _ =>
      Ok (set_votes db (map (fun d => if vd_id d =? v then f d else d)
                            (votes db)))
  end.

Definition insert_vote (db : Db) (g voter : Id) (target : option Id)
                       (rnd now : Z) : Db * nat :=
  (mkDb (games db) (players db)
        (votes db ++ [mkVoteDoc (nextId db) g voter target rnd now])
        (actions db) (gameEvents db) (scheduled db) (S (nextId db)),
   nextId db).

Definition insert_event (db : Db) (g : Id) (pl : Payload) (rnd now : Z) : Db :=
  mkDb (games db) (players db) (votes db) (actions db)
       (gameEvents db ++ [mkEvent (nextId db) g pl rnd now])
       (scheduled db) (S (nextId db)).

Definition schedule (db : Db) (job : Scheduled) : Db :=
  mkDb (games db) (players db) (votes db) (actions db) (gameEvents db)
       (scheduled db ++ [job]) (nextId db).

(** *** phases.ts *)

Definition orderedPhases : list GamePhase :=
  [setup; night; day; voting; resolution; ended].

Fixpoint indexOf (p : GamePhase) (l : list GamePhase) : option nat :=
  match l with
  | [] => None
  | q :: l' => if GamePhase_beq q p then Some 0
               else option_map S (indexOf p l')
  end.

Definition getNextPhase (currentPhase : GamePhase) : GamePhase :=
  match indexOf currentPhase orderedPhases with
  | None => currentPhase
  | Some index =>
      if index =? length orderedPhases - 1 then currentPhase
      else nth (index + 1) orderedPhases currentPhase
  end.

Definition set_phase_round (ph : GamePhase) (rnd now : Z) (g : GameDoc)
  : GameDoc :=
  mkGame (g_id g) ph rnd (g_winner g) now.

Definition reset_flags (p : PlayerDoc) : PlayerDoc :=
  mkPlayerDoc (p_id p) (p_gameId p) (p_name p) (p_role p) (p_isAlive p)
              false false.

Definition reset_all (db : Db) (ps : list PlayerDoc) : Result Db :=
  fold_left (fun acc player => d <- acc ;; patch_player d (p_id player) reset_flags)
            ps (Ok db).

Definition advancePhase (db : Db) (gid : Id) (now : Z)
  : Result (Db * (GamePhase * Z)) :=
  match get_game db gid with
  | None => Err "Game not found"
  | Some game =>
      if GamePhase_beq (g_phase game) ended
      then Ok (db, (g_phase game, g_round game))
      else
        let nextPhase := getNextPhase (g_phase game) in
        let rnd := if GamePhase_beq nextPhase night
                   then js_add (g_round game) 1 else g_round game in
        db1 <- patch_game db gid (set_phase_round nextPhase rnd now) ;;
        db2 <- (if GamePhase_beq nextPhase night || GamePhase_beq nextPhase day
                then reset_all db1 (filter (fun p => (p_gameId p =? gid)%string)
                                           (players db1))
                else Ok db1) ;;
        let db3 := insert_event db2 gid
                     (phase_advanced (g_phase game) nextPhase) rnd now in
        let db4 := schedule db3 (mkScheduled gid nextPhase rnd) in
        Ok (db4, (nextPhase, rnd))
  end.

(** *** actions.ts: resolveNightActions *)

Record NightReport := mkNightReport {
  nr_round : Z;
  eliminatedPlayerId : option Id;
  protectedTargets : list Id;
  actionsProcessed : nat
}.

Definition set_add (s : list Id) (x : Id) : list Id :=
  if existsb (fun y => (y =? x)%string) s then s else s ++ [x].

Definition targets_of (l : list ActionDoc) : list Id :=
  flat_map (fun a => match ad_targetId a with Some t => [t] | None => [] end) l.

Definition set_dead (p : PlayerDoc) : PlayerDoc :=
  mkPlayerDoc (p_id p) (p_gameId p) (p_name p) (p_role p) false
              (p_hasActedThisRound p) (p_hasVotedThisRound p).

Definition roundActions (db : Db) (gid : Id) (rnd : Z) : list ActionDoc :=
  filter (fun a => (ad_gameId a =? gid)%string && (ad_round a =? rnd)%Z)
         (actions db).

Definition killCountsOf (acts : list ActionDoc) : JsRecord :=
  fold_left (fun m a => match ad_targetId a with
                        | Some t => if truthy t then rec_bump t m else m
                        | None => m
                        end)
            (filter (fun a => NightActionType_beq (ad_actionType a) kill
                              && truthy_opt (ad_targetId a)) acts)
            [].

Definition protectTargetsOf (acts : list ActionDoc) : list Id :=
  fold_left set_add
            (targets_of (filter (fun a => NightActionType_beq (ad_actionType a) protect
                                          && truthy_opt (ad_targetId a)) acts))
            [].

(** The entries of a [Map] come in insertion order. *)
Definition topKillTarget (acts : list ActionDoc) : option Id :=
  snd (fold_left majorityStep (killCountsOf acts) (0, None)).

Definition resolveNightActions (db : Db) (gid : Id) (now : Z)
  : Result (Db * NightReport) :=
  match get_game db gid with
  | None => Err "Game not found"
  | Some game =>
      let acts := roundActions db gid (g_round game) in
      let protectTargets := protectTargetsOf acts in
      let top := topKillTarget acts in
      let eliminated :=
        match top with
        | Some t => if truthy t && existsb (fun y => (y =? t)%string) protectTargets
                    then None else Some t
        | None => None
        end in
      db1 <- (match eliminated with
              | Some t => if truthy t then patch_player db t set_dead else Ok db
              | None => Ok db
              end) ;;
      let db2 := insert_event db1 gid
                   (night_resolved (g_round game) eliminated) (g_round game) now in
      Ok (db2, mkNightReport (g_round game) eliminated protectTargets
                             (length acts))
  end.

(** *** voting.ts: castVote *)

Definition roundVotes (db : Db) (gid : Id) (rnd : Z) : list VoteDoc :=
  filter (fun v => (vd_gameId v =? gid)%string && (vd_round v =? rnd)%Z)
         (votes db).

Definition set_target (t : option Id) (now : Z) (v : VoteDoc) : VoteDoc :=
  mkVoteDoc (vd_id v) (vd_gameId v) (vd_voterId v) t (vd_round v) now.

Definition mark_voted (p : PlayerDoc) : PlayerDoc :=
  mkPlayerDoc (p_id p) (p_gameId p) (p_name p) (p_role p) (p_isAlive p)
              (p_hasActedThisRound p) true.

Definition castVote (db : Db) (gid voter : Id) (target : option Id) (now : Z)
  : Result (Db * nat) :=
  match get_game db gid with
  | None => Err "Game not found"
  | Some game =>
      _ <- guard (GamePhase_beq (g_phase game) day
                  || GamePhase_beq (g_phase game) voting)
                 "Votes are only allowed in day or voting phase" ;;
      match get_player db voter with
      | None => Err "Voter not in game"
      | Some v =>
          _ <- guard (p_gameId v =? gid)%string "Voter not in game" ;;
          _ <- guard (p_isAlive v) "Eliminated players cannot vote" ;;
          match find (fun d => (vd_voterId d =? voter)%string)
                     (roundVotes db gid (g_round game)) with
          | Some existing =>
              db1 <- patch_vote db (vd_id existing) (set_target target now) ;;
              Ok (db1, vd_id existing)
          | None =>
              let '(db1, voteId) :=
                insert_vote db gid voter target (g_round game) now in
              db2 <- patch_player db1 voter mark_voted ;;
              Ok (db2, voteId)
          end
      end
  end.

End Convex.

(* ------------------------------------------------------------------ *)
(** ** convex/lib/aiDecisions.ts: the fallback decision policy *)

Record ParsedDecision := mkDecision {
  targetId : option string;
  reasoning : string
}.

Record Candidate := mkCandidate {
  c_id : string;
  c_name : string
}.

Record InvestigationResult := mkInvestigationResult {
  ir_playerId : string;
  ir_isWerewolf : bool
}.

Record FallbackOptions := mkOptions {
  difficulty : Difficulty;
  knownWerewolves : option (list string);
  investigationResults : option (list InvestigationResult);
  selfId : option string
}.

(** A value of [Math.random()]: the pair [(k, m)] stands for the number
    [k / (k + m + 1)], so every pair is a point of [0, 1) and every rational
    point of [0, 1) is a pair. *)
Definition Draw := (nat * nat)%type.

(** [Math.floor(r * n)] *)
Definition floor_mul (r : Draw) (n : nat) : nat :=
  (fst r * n) / (fst r + snd r + 1).

(** [r < p / q] *)
Definition draw_lt (r : Draw) (p q : nat) : bool :=
  fst r * q <? p * (fst r + snd r + 1).

(** [x?.length] as a condition: the list is present and not empty. *)
Definition has_length {A} (o : option (list A)) : bool :=
  match o with
  | Some (_ :: _) => true
  | _ => false
  end.

Definition opt_list {A} (o : option (list A)) : list A :=
  match o with Some l => l | None => [] end.

(** [targets[idx].id]: reading [.id] of [undefined] throws. *)
Definition id_at (targets : list Candidate) (idx : nat) : Result string :=
  match nth_error targets idx with
  | Some c => Ok (c_id c)
  | None => Err "TypeError: cannot read properties of undefined"
  end.

Definition selectByDifficulty (targets : list Candidate) (options : FallbackOptions)
                              (r : Draw) : Result ParsedDecision :=
  match difficulty options with
  | easy =>
      let idx := floor_mul r (length targets) in
      t <- id_at targets idx ;;
      Ok (mkDecision (Some t) "Random selection (easy difficulty fallback)")
  | medium =>
      let halfIdx := Nat.max (length targets / 2) 1 in
      let pool := firstn halfIdx targets in
      let idx := floor_mul r (length pool) in
      t <- id_at pool idx ;;
      Ok (mkDecision (Some t) "Semi-strategic selection (medium difficulty fallback)")
  | hard =>
      let uninvestigated :=
        if has_length (investigationResults options) then
          filter (fun t => negb (existsb (fun r => (ir_playerId r =? c_id t)%string)
                                         (opt_list (investigationResults options))))
                 targets
        else [] in
      match uninvestigated with
      | u :: _ =>
          Ok (mkDecision (Some (c_id u))
                "Strategic: targeting uninvestigated player (hard fallback)")
      | [] =>
          t <- id_at targets 0 ;;
          Ok (mkDecision (Some t) "Strategic selection (hard difficulty fallback)")
      end
  end.

Definition selfChance (d : Difficulty) : nat * nat :=
  match d with
  | easy => (3, 10)
  | medium => (2, 10)
  | hard => (1, 10)
  end.

(** The variable [targets]: the candidates without the known allies of a
    werewolf, unless that leaves nobody. *)
Definition targetsOf (role : string) (candidates : list Candidate)
                     (options : FallbackOptions) : list Candidate :=
  if (role =? "werewolf")%string && has_length (knownWerewolves options)
  then
    let filtered :=
      filter (fun c => negb (existsb (fun w => (w =? c_id c)%string)
                                     (opt_list (knownWerewolves options))))
             candidates in
    match filtered with [] => candidates | _ => filtered end
  else candidates.

(** The variable [wolfTarget], when the voting branch finds one. *)
Definition wolfTargetOf (phase : string) (targets : list Candidate)
                        (options : FallbackOptions) : option Candidate :=
  if ((phase =? "voting")%string || (phase =? "day")%string)
     && has_length (investigationResults options)
  then
    match find ir_isWerewolf (opt_list (investigationResults options)) with
    | Some knownWolf =>
        find (fun t => (c_id t =? ir_playerId knownWolf)%string) targets
    | None => None
    end
  else None.

(** [rnd i] is the value of the [i]-th call of [Math.random()]. *)
Definition fallbackDecision (role phase : string) (candidates : list Candidate)
           (options : FallbackOptions) (rnd : nat -> Draw)
  : Result ParsedDecision :=
  match candidates with
  | [] => Ok (mkDecision None "No valid targets available")
  | _ =>
      let targets := targetsOf role candidates options in
      match wolfTargetOf phase targets options with
      | Some w =>
          Ok (mkDecision (Some (c_id w))
                "Targeting a confirmed werewolf from investigation")
      | None =>
          if (role =? "doctor")%string && (phase =? "night")%string
             && truthy_opt (selfId options)
          then
            let '(p, q) := selfChance (difficulty options) in
            if draw_lt (rnd 0) p q
            then Ok (mkDecision (selfId options) "Self-protection for safety")
            else selectByDifficulty targets options (rnd 1)
          else selectByDifficulty targets options (rnd 0)
      end
  end.

(* ------------------------------------------------------------------ *)
(** ** Notions the statements below are phrased in *)

(** The number of living werewolves, and of living players of any other role
    (a player without a role counts as a non-werewolf). *)
Definition aliveWerewolfCount (ps : list WerewolfPlayer) : nat :=
  length (filter (fun p => isAlive p && is_role werewolf p) ps).

Definition aliveOtherCount (ps : list WerewolfPlayer) : nat :=
  length (filter (fun p => isAlive p && negb (is_role werewolf p)) ps).

Definition villager_named (n : string) : WerewolfPlayer :=
  mkPlayer n n false (Some villager) true 0%Z false false.

Definition werewolf_named (n : string) : WerewolfPlayer :=
  mkPlayer n n false (Some werewolf) true 0%Z false false.

Definition settings_of (pc wc : Z) (roles : list WerewolfRole) : WerewolfSettings :=
  mkSettings focus_as_night pc wc roles 0%Z medium true true.

(** The state an advance hands to the table transition: the pending work of the
    phase being left (night actions, votes) has been resolved. *)
Definition afterPendingWork (s : WerewolfGameState)
           (hunterRevengeTargetId : option PlayerId) (t1 : Z) : WerewolfGameState :=
  match phase s with
  | night => resolveNightActions s t1
  | voting => resolveVoting s hunterRevengeTargetId t1
  | _ => s
  end.

(** A recorded winner goes with the final phase, and only with it. *)
Definition winner_iff_ended (s : WerewolfGameState) : Prop :=
  winner s <> none <-> phase s = ended.

(** States reached from [s0] by calls of the advance entry point. *)
Inductive advance_reachable (s0 : WerewolfGameState) : WerewolfGameState -> Prop :=
| reach_start : advance_reachable s0 s0
| reach_advance s rev t1 t2 :
    advance_reachable s0 s ->
    advance_reachable s0 (advanceGameToNextPhase s rev t1 t2).

(** A game of four in its first round, used in the examples. *)
Definition four_players : list WerewolfPlayer :=
  [ mkPlayer "w" "Wolf" false (Some werewolf) true 0%Z true true;
    mkPlayer "a" "Ann" false (Some villager) true 0%Z false true;
    mkPlayer "b" "Bob" false (Some villager) true 0%Z false true;
    mkPlayer "c" "Cy" false (Some villager) true 0%Z false true ].

Definition game_in (ph : GamePhase) (acts : list NightAction) (vs : list Vote)
  : WerewolfGameState :=
  mkState "g1" "game" "w" ph 1%Z focus_as_night (settings_of 4 1 [])
          four_players acts vs None None None none 0%Z 0%Z.

Definition four_docs : list Convex.PlayerDoc :=
  [ Convex.mkPlayerDoc "w" "g1" "Wolf" (Some werewolf) true true true;
    Convex.mkPlayerDoc "a" "g1" "Ann" (Some villager) true false true;
    Convex.mkPlayerDoc "b" "g1" "Bob" (Some villager) true false true;
    Convex.mkPlayerDoc "c" "g1" "Cy" (Some villager) true false true ].

Definition store_in (ph : GamePhase) (vs : list Convex.VoteDoc)
                    (acts : list Convex.ActionDoc) : Convex.Db :=
  Convex.mkDb [Convex.mkGame "g1" ph 1%Z None 0%Z] four_docs vs acts [] [] 10.

(** The count stored under a key, 0 when the key is absent. *)
Definition rec_count (k : string) (r : JsRecord) : nat :=
  match rec_get k r with Some c => c | None => 0 end.

(** A counter in the shape the engine builds: every key once, every stored
    count positive. *)
Definition counter_ok (r : JsRecord) : Prop :=
  NoDup (map fst r) /\ Forall (fun e => 0 < snd e) r.

(** The numeric own properties of a counter object, in the object's order. *)
Definition numeric (r : JsObject) : JsRecord :=
  flat_map (fun e => match snd e with Num n => [(fst e, n)] | _ => [] end) r.

(** A counter object in the shape [r[k] = (r[k] ?? 0) + 1] builds from [{}]:
    a number under a key that names no member of [Object.prototype], a
    string under one that does. *)
Definition obj_ok (r : JsObject) : Prop :=
  Forall (fun e => match snd e with
                   | Num _ => inherited (fst e) = false
                   | Text _ => inherited (fst e) = true
                   | Member => False
                   end) r.

(** The number of this round's votes cast for [t]. *)
Definition votesFor (s : WerewolfGameState) (t : PlayerId) : nat :=
  length (filter (fun v => option_string_eqb (v_targetId v) (Some t))
                 (currentRoundVotes s)).


(** No vote of the current round is aimed at an id that names a member of
    [Object.prototype]. *)
Definition ordinary_targets (s : WerewolfGameState) : Prop :=
  forall v t, In v (currentRoundVotes s) -> v_targetId v = Some t ->
              inherited t = false.

(** The votes for [t] that the tally can count: those for an id that names a
    member of [Object.prototype] never reach a number. *)
Definition tallied (s : WerewolfGameState) (t : PlayerId) : nat :=
  if inherited t then 0 else votesFor s t.

(** The leader scan over a list of entries, and the entries that reach a
    given count. *)
Definition scan_of (es : list (string * nat)) : LeaderScan :=
  fold_left leaderStep es (mkScan 0 None false).

Definition at_max (m : nat) (e : string * nat) : bool := snd e =? m.




(** The roster entry [p] once the players named in [ids] are eliminated. *)
Definition eliminate (ids : list PlayerId) (p : WerewolfPlayer) : WerewolfPlayer :=
  if existsb (fun i => (id p =? i)%string) ids then set_isAlive false p else p.

Definition three_votes : list Vote :=
  [ mkVote "w" (Some "a") 1%Z 1%Z; mkVote "b" (Some "a") 1%Z 2%Z;
    mkVote "a" (Some "b") 1%Z 3%Z; mkVote "c" None 1%Z 4%Z ].


(** A vote under way: the wolf and Ann have voted, Bob and Cy have not. *)
Definition second_voter_game : WerewolfGameState :=
  mkState "g1" "game" "w" voting 1%Z focus_as_night (settings_of 4 1 [])
          [ mkPlayer "w" "Wolf" false (Some werewolf) true 0%Z true true;
            mkPlayer "a" "Ann" false (Some villager) true 0%Z false true;
            mkPlayer "b" "Bob" false (Some villager) true 0%Z false false;
            mkPlayer "c" "Cy" false (Some villager) true 0%Z false false ]
          [] [ mkVote "w" (Some "a") 1%Z 1%Z; mkVote "a" (Some "b") 1%Z 2%Z ]
          None None None none 0%Z 0%Z.

(** A store during [day] in which Bob has not voted yet. *)
Definition bob_to_vote_store : Convex.Db :=
  Convex.mkDb [Convex.mkGame "g1" day 1%Z None 0%Z]
              [ Convex.mkPlayerDoc "w" "g1" "Wolf" (Some werewolf) true true true;
                Convex.mkPlayerDoc "a" "g1" "Ann" (Some villager) true false true;
                Convex.mkPlayerDoc "b" "g1" "Bob" (Some villager) true false false;
                Convex.mkPlayerDoc "c" "g1" "Cy" (Some villager) true false false ]
              [] [] [] [] 10.

(** A night in which the werewolf attacks Ann and Ann is protected. *)
Definition saved_night_actions : list NightAction :=
  [ mkAction "w" (Some "a") kill 1%Z 1%Z; mkAction "c" (Some "a") protect 1%Z 2%Z ].

Definition saved_night_docs : list Convex.ActionDoc :=
  [ Convex.mkActionDoc 1 "g1" "w" (Some "a") kill 1%Z 1%Z;
    Convex.mkActionDoc 2 "g1" "c" (Some "a") protect 1%Z 2%Z ].

(** At most one Vote document per (game, voter, round) in the store. *)
Definition vote_key (v : Convex.VoteDoc) : string * string * Z :=
  (Convex.vd_gameId v, Convex.vd_voterId v, Convex.vd_round v).

Definition unique_votes (db : Convex.Db) : Prop :=
  NoDup (map vote_key (Convex.votes db)).

(** At most one Vote record per voter in the current round of a game state. *)
Definition one_vote_each (s : WerewolfGameState) : Prop :=
  NoDup (map voterId (currentRoundVotes s)).

(** Whoever has a Vote record for the current round has the flag set. *)
Definition voted_flag_set (s : WerewolfGameState) : Prop :=
  forall v p, In v (currentRoundVotes s) -> In p (players s) ->
              id p = voterId v -> hasVotedThisRound p = true.

(** The voters behind the current round's votes for [t], one entry per Vote
    record. *)
Definition votersFor (s : WerewolfGameState) (t : PlayerId) : list PlayerId :=
  map voterId (filter (fun v => option_string_eqb (v_targetId v) (Some t))
                      (currentRoundVotes s)).

(** The draw 0, and a doctor's options with her own id supplied. *)
Definition always_zero : nat -> Draw := fun _ => (0, 0).

Definition doctor_options : FallbackOptions :=
  mkOptions easy None None (Some "doc").

(* ------------------------------------------------------------------ *)
(** ** roles.ts: role distribution and assignment *)

Definition replace_at {A} (i : nat) (x : A) (l : list A) : list A :=
  firstn i l ++ match skipn i l with [] => [] | _ :: t => x :: t end.

(** [[l[i], l[j]] = [l[j], l[i]]]; the loop of [shuffle] calls it with both
    indices inside the array. *)
Definition swap {A} (l : list A) (i j : nat) : list A :=
  match nth_error l i, nth_error l j with
  | Some x, Some y => replace_at j x (replace_at i y l)
  | _, _ => l
  end.

(** The loop [for (i = length - 1; i > 0; i--)]; [calls] counts the calls of
    [Math.random()] made so far. *)
Fixpoint shuffle_from {A} (i calls : nat) (rnd : nat -> Draw) (l : list A)
  : list A :=
  match i with
  | 0 => l
  | S i' => shuffle_from i' (S calls) rnd (swap l i (floor_mul (rnd calls) (i + 1)))
  end.

Definition shuffle {A} (rnd : nat -> Draw) (array : list A) : list A :=
  shuffle_from (length array - 1) 0 rnd array.

Definition is_special (r : WerewolfRole) : bool :=
  negb (WerewolfRole_beq r werewolf) && negb (WerewolfRole_beq r villager).

Definition pushSpecial (pc : Z) (roles : list WerewolfRole) (r : WerewolfRole)
  : list WerewolfRole :=
  if (Z.of_nat (length roles) <? pc)%Z then roles ++ [r] else roles.

(** The roles before the shuffle: the werewolves, the special roles while
    there is room, villagers up to [playerCount]. *)
Definition roleList (s : WerewolfSettings) : list WerewolfRole :=
  let wolves := repeat werewolf (Z.to_nat (werewolfCount s)) in
  let withSpecial :=
    fold_left (pushSpecial (playerCount s)) (filter is_special (includeRoles s))
              wolves in
  withSpecial
    ++ repeat villager (Z.to_nat (playerCount s - Z.of_nat (length withSpecial))).

Definition generateRoleDistribution (s : WerewolfSettings) (rnd : nat -> Draw)
  : list WerewolfRole :=
  shuffle rnd (roleList s).

Definition getInitialTokensForSettings (s : WerewolfSettings) : Z :=
  match mode_of s with
  | action_reward => 0%Z
  | _ => 0%Z
  end.

(** [players.map((player, index) => ({ ...player, role: roles[index] ?? "villager", ... }))] *)
Fixpoint assignFrom (tokens : Z) (ps : list WerewolfPlayer)
                    (roles : list WerewolfRole) : list WerewolfPlayer :=
  match ps with
  | [] => []
  | p :: ps' =>
      mkPlayer (id p) (name p) (isAI p)
               (Some (match roles with r :: _ => r | [] => villager end))
               true tokens false false
      :: assignFrom tokens ps' (tl roles)
  end.

Definition assignRoles (ps : list WerewolfPlayer) (s : WerewolfSettings)
                       (rnd : nat -> Draw) : list WerewolfPlayer :=
  assignFrom (getInitialTokensForSettings s) ps (generateRoleDistribution s rnd).

Definition getPlayersWithRole (ps : list WerewolfPlayer) (r : WerewolfRole)
  : list WerewolfPlayer :=
  filter (fun p => is_role r p && isAlive p) ps.

Definition getAlivePlayers (ps : list WerewolfPlayer) : list WerewolfPlayer :=
  filter isAlive ps.


Definition getRecommendedWerewolfCount (pc : Z) : Z :=
  if (pc <=? 6)%Z then 1%Z
  else if (pc <=? 10)%Z then 2%Z
  else if (pc <=? 15)%Z then 3%Z
  else (pc / 4)%Z.


Definition fresh_player (n : string) : WerewolfPlayer :=
  mkPlayer n n false None false 0%Z true true.

Definition setup_state (ps : list WerewolfPlayer) (s : WerewolfSettings)
  : WerewolfGameState :=
  mkState "g1" "game" "host" setup 0%Z (mode_of s) s ps [] [] None None None
          none 0%Z 0%Z.

(* ------------------------------------------------------------------ *)
(** ** win-conditions.ts: winners and statistics *)

Definition getWinners (w : WinCondition) (ps : list WerewolfPlayer)
  : list WerewolfPlayer :=
  match w with
  | villagers => filter (fun p => negb (is_role werewolf p)) ps
  | werewolves => filter (is_role werewolf) ps
  | none => []
  end.

Record GameStats := mkStats {
  totalPlayers : nat;
  survivors : nat;
  werewolvesEliminated : nat;
  villagersEliminated : nat;
  roundsSurvived : list (string * Z)
}.

Definition getGameStats (ps : list WerewolfPlayer) : GameStats :=
  mkStats (length ps)
          (length (filter isAlive ps))
          (length (filter (fun p => is_role werewolf p && negb (isAlive p)) ps))
          (length (filter (fun p => negb (is_role werewolf p) && negb (isAlive p)) ps))
          [].

(* ------------------------------------------------------------------ *)
(** ** actions.ts: investigation results *)

Record Investigation := mkInvestigation {
  inv_targetId : PlayerId;
  isWerewolf : bool
}.

Definition getInvestigationResult (s : WerewolfGameState) (seerId : PlayerId)
  : option Investigation :=
  match find (fun a => (playerId a =? seerId)%string
                       && NightActionType_beq (actionType a) investigate
                       && (a_round a =? round s)%Z) (nightActions s) with
  | Some a =>
      match a_targetId a with
      | Some t =>
          if truthy t then
            match find (fun p => (id p =? t)%string) (players s) with
            | Some target => Some (mkInvestigation t (is_role werewolf target))
            | None => None
            end
          else None
      | None => None
      end
  | None => None
  end.

(** An id the counting loops can count: not empty, and no name of a member
    of [Object.prototype]. *)
Definition countable (t : string) : bool := truthy t && negb (inherited t).

(** The number of the given actions aimed at [t]. *)
Definition actionsAt (acts : list NightAction) (t : PlayerId) : nat :=
  length (filter (fun a => option_string_eqb (a_targetId a) (Some t)) acts).

(** At most one night action per actor in the current round, and whoever has
    one has the flag set. *)
Definition one_action_each (s : WerewolfGameState) : Prop :=
  NoDup (map playerId (currentRoundActions s)).

Definition acted_flag_set (s : WerewolfGameState) : Prop :=
  forall a p, In a (currentRoundActions s) -> In p (players s) ->
              id p = playerId a -> hasActedThisRound p = true.

Definition seer_named (n : string) : WerewolfPlayer :=
  mkPlayer n n false (Some seer) true 0%Z false false.

Definition night_of (ps : list WerewolfPlayer) (acts : list NightAction)
  : WerewolfGameState :=
  mkState "g1" "game" "host" night 1%Z focus_as_night (settings_of 4 1 [])
          ps acts [] None None None none 0%Z 0%Z.

(* ------------------------------------------------------------------ *)
(** ** Notions for the phase machine's invariants *)

(** [p'] is the roster entry [p] at a later time: same id, name and role, and
    alive only if [p] was. *)
Definition same_player_later (p p' : WerewolfPlayer) : Prop :=
  id p' = id p /\ name p' = name p /\ role p' = role p
  /\ (isAlive p' = true -> isAlive p = true).

Definition roster_later (ps ps' : list WerewolfPlayer) : Prop :=
  Forall2 same_player_later ps ps'.

(** The condition under which the guard lets the current phase be left. *)
Definition guard_condition (s : WerewolfGameState) : Prop :=
  match phase s with
  | setup =>
      (forall p, In p (players s) -> role p <> None) /\ 4 <= length (players s)
  | night =>
      forall p, In p (players s) -> isAlive p = true ->
                has_night_role p = true -> hasActedThisRound p = true
  | day => True
  | voting =>
      forall p, In p (players s) -> isAlive p = true ->
                hasVotedThisRound p = true
  | resolution => True
  | ended => False
  end.

(* ------------------------------------------------------------------ *)
(** ** voting.ts: the vote distribution for display *)

Record VoteRow := mkRow {
  row_player : WerewolfPlayer;
  voteCount : JsValue;
  voters : list WerewolfPlayer
}.

(** [b.voteCount - a.voteCount <= 0]: the comparator puts [b] no earlier
    than [a].  A difference that involves a value that is no number is [NaN],
    which [sort] reads as 0. *)
Definition no_more_votes (b a : VoteRow) : bool :=
  match voteCount b, voteCount a with
  | Num y, Num x => y <=? x
  | _, _ => true
  end.

(** [Array.prototype.sort] is stable; with the comparator
    [(a, b) => b.voteCount - a.voteCount] over numeric counts a row goes in
    front of the rows after it that have no more votes than it has.  (When
    some count is no number the comparator is not consistent and the order
    [sort] returns is left to the implementation; the insertion below is then
    one of the orders allowed.) *)
Fixpoint insert_row (x : VoteRow) (l : list VoteRow) : list VoteRow :=
  match l with
  | [] => [x]
  | y :: l' => if no_more_votes y x then x :: l else y :: insert_row x l'
  end.

Definition sort_rows (l : list VoteRow) : list VoteRow :=
  fold_right insert_row [] l.

Definition votersOf (s : WerewolfGameState) (player : WerewolfPlayer)
  : list WerewolfPlayer :=
  flat_map (fun v => match find (fun p => (id p =? voterId v)%string) (players s) with
                     | Some p => [p]
                     | None => []
                     end)
           (filter (fun v => option_string_eqb (v_targetId v) (Some (id player)))
                   (currentRoundVotes s)).

Definition getVoteDistribution (s : WerewolfGameState) : list VoteRow :=
  let res := results (tallyVotes s) in
  sort_rows
    (map (fun player => mkRow player (or_zero (obj_read (id player) res))
                              (votersOf s player))
         (filter isAlive (players s))).

(** The row shows a number. *)
Definition shows_number (r : VoteRow) : Prop :=
  match voteCount r with Num _ => True | _ => False end.

(** The number a row shows, 0 when it shows no number. *)
Definition shown_count (r : VoteRow) : nat :=
  match voteCount r with Num n => n | _ => 0 end.

(** No living player's id names a member of [Object.prototype]. *)
Definition ordinary_players (s : WerewolfGameState) : Prop :=
  forall p, In p (players s) -> isAlive p = true -> inherited (id p) = false.

(** A vote the tally accounts for: an abstention, or a vote for an id that
    names no member of [Object.prototype]. *)
Definition reaches_tally (v : Vote) : bool :=
  match v_targetId v with
  | Some t => negb (inherited t)
  | None => true
  end.

(** The sum of the counts a counter object stores. *)
Definition rec_total (r : JsRecord) : nat := list_sum (map snd r).

(** A list of numbers in which no entry is larger than an earlier one. *)
Fixpoint descending (l : list nat) : Prop :=
  match l with
  | [] => True
  | x :: l' => (forall y, In y l' -> y <= x) /\ descending l'
  end.

(* ------------------------------------------------------------------ *)
(** ** More of the Convex layer: the night-action mutation and the round
    queries (convex/werewolf/actions.ts, voting.ts) *)

Module ConvexExt.
Import Convex.

Definition set_actions (db : Db) (acts : list ActionDoc) : Db :=
  mkDb (games db) (players db) (votes db) acts (gameEvents db) (scheduled db)
       (nextId db).

Definition patch_action (db : Db) (a : nat) (f : ActionDoc -> ActionDoc)
  : Result Db :=
  match find (fun d => ad_id d =? a) (actions db) with
  | None => Err "Update on nonexistent document"
  | Some _ =>
      Ok (set_actions db (map (fun d => if ad_id d =? a then f d else d)
                              (actions db)))
  end.

Definition insert_action (db : Db) (g actor : Id) (target : option Id)
                         (ty : NightActionType) (rnd now : Z) : Db * nat :=
  (mkDb (games db) (players db) (votes db)
        (actions db ++ [mkActionDoc (nextId db) g actor target ty rnd now])
        (gameEvents db) (scheduled db) (S (nextId db)),
   nextId db).

Definition set_action (t : option Id) (ty : NightActionType) (now : Z)
                      (a : ActionDoc) : ActionDoc :=
  mkActionDoc (ad_id a) (ad_gameId a) (ad_playerId a) t ty (ad_round a) now.

Definition mark_acted (p : PlayerDoc) : PlayerDoc :=
  mkPlayerDoc (p_id p) (p_gameId p) (p_name p) (p_role p) (p_isAlive p)
              true (p_hasVotedThisRound p).

Definition submitNightAction (db : Db) (gid actor : Id) (target : option Id)
                             (ty : NightActionType) (now : Z)
  : Result (Db * nat) :=
  match get_game db gid with
  | None => Err "Game not found"
  | Some game =>
      _ <- guard (GamePhase_beq (g_phase game) night)
                 "Night actions are only allowed during the night phase" ;;
      match get_player db actor with
      | None => Err "Player not found in game"
      | Some p =>
          _ <- guard (p_gameId p =? gid)%string "Player not found in game" ;;
          _ <- guard (p_isAlive p) "Eliminated players cannot act" ;;
          match find (fun a => (ad_playerId a =? actor)%string)
                     (roundActions db gid (g_round game)) with
          | Some previousAction =>
              db1 <- patch_action db (ad_id previousAction)
                                  (set_action target ty now) ;;
              Ok (db1, ad_id previousAction)
          | None =>
              let '(db1, actionId) :=
                insert_action db gid actor target ty (g_round game) now in
              db2 <- patch_player db1 actor mark_acted ;;
              Ok (db2, actionId)
          end
      end
  end.

(** [round ?? game.round] *)
Definition getRoundActions (db : Db) (gid : Id) (rnd : option Z)
  : list ActionDoc :=
  match get_game db gid with
  | None => []
  | Some game =>
      roundActions db gid (match rnd with Some r => r | None => g_round game end)
  end.

Definition getRoundVotes (db : Db) (gid : Id) (rnd : option Z) : list VoteDoc :=
  match get_game db gid with
  | None => []
  | Some game =>
      roundVotes db gid (match rnd with Some r => r | None => g_round game end)
  end.

End ConvexExt.

(** At most one Action document per (game, actor, round) in the store. *)
Definition action_key (a : Convex.ActionDoc) : string * string * Z :=
  (Convex.ad_gameId a, Convex.ad_playerId a, Convex.ad_round a).

Definition unique_actions (db : Convex.Db) : Prop :=
  NoDup (map action_key (Convex.actions db)).

(* ------------------------------------------------------------------ *)
(** ** The callers of the fallback policy (convex/ai.ts, convex/aiEngine.ts)

    The documents store roles and phases as strings; [role_name] and
    [phase_name] give the string of a role and of a phase.  The messages table
    and the [aiDifficulty] field of a player document are not part of the
    store above: the table is the argument [msgs], the field the argument
    [aiDifficultyOf]. *)

(** [validateTargetId] of aiDecisions.ts. *)
Definition validateTargetId (t : option string) (validIds : list string)
  : option string :=
  match t with
  | None => None
  | Some x => if existsb (fun y => (y =? x)%string) validIds then Some x else None
  end.

Module AiEngine.
Import Convex.

Definition role_name (r : WerewolfRole) : string :=
  match r with
  | villager => "villager"
  | werewolf => "werewolf"
  | seer => "seer"
  | doctor => "doctor"
  | hunter => "hunter"
  end.

Definition phase_name (p : GamePhase) : string :=
  match p with
  | setup => "setup"
  | night => "night"
  | day => "day"
  | voting => "voting"
  | resolution => "resolution"
  | ended => "ended"
  end.

Definition docs_role (r : WerewolfRole) (p : PlayerDoc) : bool :=
  match p_role p with
  | Some r' => WerewolfRole_beq r' r
  | None => false
  end.

Record MessageDoc := mkMessage {
  m_gameId : Id;
  m_content : string
}.

Record InvestigationInfo := mkInfo {
  ii_playerId : Id;
  ii_playerName : string;
  ii_isWerewolf : bool
}.

Record GameContext := mkContext {
  gc_game : GameDoc;
  gc_player : option PlayerDoc;
  gc_alivePlayers : list PlayerDoc;
  gc_allPlayers : list PlayerDoc;
  gc_knownWerewolves : option (list PlayerDoc);
  gc_investigationResults : option (list InvestigationInfo);
  gc_recentMessages : list MessageDoc;
  gc_deadPlayers : list string
}.

Definition investigationsOf (db : Db) (allPlayers : list PlayerDoc) (seer_id : Id)
  : list InvestigationInfo :=
  flat_map
    (fun inv =>
       match ad_targetId inv with
       | Some t =>
           if truthy t then
             match find (fun p => (p_id p =? t)%string) allPlayers with
             | Some target =>
                 [mkInfo (p_id target) (p_name target) (docs_role werewolf target)]
             | None => []
             end
           else []
       | None => []
       end)
    (filter (fun a => NightActionType_beq (ad_actionType a) investigate
                      && truthy_opt (ad_targetId a))
            (filter (fun a => (ad_playerId a =? seer_id)%string) (actions db))).

Definition getGameContext (db : Db) (msgs : list MessageDoc) (gid : Id)
                          (playerId : option Id) : option GameContext :=
  match get_game db gid with
  | None => None
  | Some game =>
      let allPlayers := filter (fun p => (p_gameId p =? gid)%string) (players db) in
      let alivePlayers := filter p_isAlive allPlayers in
      let player :=
        match playerId with
        | Some pid => if truthy pid
                      then find (fun p => (p_id p =? pid)%string) allPlayers
                      else None
        | None => None
        end in
      let knownWerewolves :=
        match player with
        | Some pl =>
            if docs_role werewolf pl
            then Some (filter (fun p => docs_role werewolf p
                                        && negb (p_id p =? p_id pl)%string
                                        && p_isAlive p) allPlayers)
            else None
        | None => None
        end in
      let investigationResults :=
        match player with
        | Some pl =>
            if docs_role seer pl
            then Some (investigationsOf db allPlayers (p_id pl))
            else None
        | None => None
        end in
      let recentMessages :=
        firstn 10 (rev (filter (fun m => (m_gameId m =? gid)%string) msgs)) in
      Some (mkContext game player alivePlayers allPlayers knownWerewolves
                      investigationResults (rev recentMessages)
                      (map p_name (filter (fun p => negb (p_isAlive p)) allPlayers)))
  end.

(** [p._id !== task.playerId], with [task.playerId] possibly undefined. *)
Definition is_other (playerId : option Id) (p : PlayerDoc) : bool :=
  negb (option_string_eqb (Some (p_id p)) playerId).

Definition makeFallback (role phase : string) (alivePlayers : list PlayerDoc)
           (playerId : option Id) (difficulty : Difficulty)
           (knownWerewolves : option (list PlayerDoc))
           (investigationResults : option (list InvestigationInfo))
           (rnd : nat -> Draw) : Result ParsedDecision :=
  let candidates :=
    map (fun p => mkCandidate (p_id p) (p_name p))
        (filter (is_other playerId) alivePlayers) in
  fallbackDecision role phase candidates
    (mkOptions difficulty
               (option_map (map p_id) knownWerewolves)
               (option_map (map (fun r => mkInvestigationResult (ii_playerId r)
                                                               (ii_isWerewolf r)))
                           investigationResults)
               playerId)
    rnd.

Record TaskResult := mkTaskResult {
  tr_targetId : option string;
  tr_reasoning : string;
  tr_model : string;
  tr_source : string
}.

(** The [player_decision] branch of [processWithFallback]. *)
Definition fallbackPlayerDecision (aiDifficultyOf : PlayerDoc -> option Difficulty)
           (db : Db) (msgs : list MessageDoc) (model : string) (gid : Id)
           (playerId : option Id) (rnd : nat -> Draw) : Result TaskResult :=
  match getGameContext db msgs gid playerId with
  | None => Ok (mkTaskResult None "No game context available" model "fallback")
  | Some ctx =>
      let role :=
        match gc_player ctx with
        | Some pl => match p_role pl with
                     | Some r => role_name r
                     | None => "villager"
                     end
        | None => "villager"
        end in
      let difficulty :=
        match gc_player ctx with
        | Some pl => match aiDifficultyOf pl with Some d => d | None => medium end
        | None => medium
        end in
      fb <- makeFallback role (phase_name (g_phase (gc_game ctx)))
                         (gc_alivePlayers ctx) playerId difficulty
                         (gc_knownWerewolves ctx) (gc_investigationResults ctx) rnd ;;
      Ok (mkTaskResult (targetId fb) (reasoning fb) model "fallback")
  end.

(** The end of [processPlayerDecision]: the variables [targetId] and
    [reasoning] it returns, from the parsed answer of the model. *)
Definition settleDecision (parsed : option ParsedDecision) (role phase : string)
           (alivePlayers : list PlayerDoc) (playerId : option Id)
           (difficulty : Difficulty) (knownWerewolves : option (list PlayerDoc))
           (investigationResults : option (list InvestigationInfo))
           (rnd : nat -> Draw) : Result ParsedDecision :=
  let validTargetIds := map p_id (filter (is_other playerId) alivePlayers) in
  match parsed with
  | Some pd =>
      let validated := validateTargetId (targetId pd) validTargetIds in
      if truthy_opt (targetId pd) && negb (truthy_opt validated)
      then
        fb <- makeFallback role phase alivePlayers playerId difficulty
                           knownWerewolves investigationResults rnd ;;
        Ok (mkDecision (targetId fb)
                       (reasoning pd ++ " (target corrected: " ++ reasoning fb ++ ")"))
      else Ok (mkDecision validated (reasoning pd))
  | None =>
      fb <- makeFallback role phase alivePlayers playerId difficulty
                         knownWerewolves investigationResults rnd ;;
      Ok (mkDecision (targetId fb) ("Fallback: " ++ reasoning fb))
  end.

End AiEngine.

(** A candidate the investigation results do not mention. *)
Definition uninvestigated (options : FallbackOptions) (c : Candidate) : bool :=
  negb (existsb (fun r => (ir_playerId r =? c_id c)%string)
                (opt_list (investigationResults options))).

(** A living player of game [gid] with id [t]. *)
Definition living_player_of (db : Convex.Db) (gid t : string) (p : Convex.PlayerDoc)
  : Prop :=
  In p (Convex.players db) /\ Convex.p_id p = t /\ Convex.p_gameId p = gid
  /\ Convex.p_isAlive p = true.

Definition no_difficulty : Convex.PlayerDoc -> option Difficulty := fun _ => None.

Definition wolf_pack_docs : list Convex.PlayerDoc :=
  [ Convex.mkPlayerDoc "w" "g1" "Wolf" (Some werewolf) true false false;
    Convex.mkPlayerDoc "w2" "g1" "Wolf two" (Some werewolf) true false false;
    Convex.mkPlayerDoc "a" "g1" "Ann" (Some villager) true false false;
    Convex.mkPlayerDoc "b" "g1" "Bob" (Some villager) false false false ].

Definition wolf_pack_store : Convex.Db :=
  Convex.mkDb [Convex.mkGame "g1" night 1%Z None 0%Z] wolf_pack_docs [] [] [] [] 10.

(* ================================================================== *)
(** * Properties *)

(* ------------------------------------------------------------------ *)
(** ** Win-condition evaluation *)

Lemma filter_filter_andb {A} (f g : A -> bool) (l : list A) :
  filter g (filter f l) = filter (fun x => f x && g x) l.
Proof.
  induction l as [|x l IH]; simpl; [reflexivity|].
  destruct (f x); simpl; [destruct (g x)|]; rewrite IH; reflexivity.
Qed.

Lemma aliveWerewolves_count ps :
  length (aliveWerewolves ps) = aliveWerewolfCount ps.
Proof. unfold aliveWerewolves, aliveWerewolfCount. now rewrite filter_filter_andb. Qed.

Lemma aliveVillagers_count ps :
  length (aliveVillagers ps) = aliveOtherCount ps.
Proof. unfold aliveVillagers, aliveOtherCount. now rewrite filter_filter_andb. Qed.

Lemma checkWinCondition_cases ps :
  checkWinCondition ps =
    if aliveOtherCount ps <=? aliveWerewolfCount ps then werewolves
    else if aliveWerewolfCount ps =? 0 then villagers else none.
Proof.
  unfold checkWinCondition.
  now rewrite aliveWerewolves_count, aliveVillagers_count.
Qed.

(** C6. For every roster, win evaluation returns [werewolves] exactly when the
    living werewolves are at least as many as the living non-werewolves;
    when they are fewer it returns [villagers] exactly when no werewolf is
    alive; and in the remaining case it returns [none]. *)
Theorem C6_checkWinCondition_spec (ps : list WerewolfPlayer) :
  (checkWinCondition ps = werewolves
     <-> aliveOtherCount ps <= aliveWerewolfCount ps)
  /\ (checkWinCondition ps = villagers
     <-> aliveWerewolfCount ps < aliveOtherCount ps /\ aliveWerewolfCount ps = 0)
  /\ (checkWinCondition ps = none
     <-> aliveWerewolfCount ps < aliveOtherCount ps /\ aliveWerewolfCount ps <> 0).
Proof.
  rewrite checkWinCondition_cases.
  destruct (Nat.leb_spec (aliveOtherCount ps) (aliveWerewolfCount ps)) as [Hle|Hlt].
  - intuition (try discriminate; try lia).
  - destruct (Nat.eqb_spec (aliveWerewolfCount ps) 0) as [Hz|Hnz];
      intuition (try discriminate; try lia).
Qed.

(** The two rosters of the specification's example: two werewolves against
    three villagers, then against two. *)
Example win_2_wolves_3_villagers :
  checkWinCondition [werewolf_named "w1"; werewolf_named "w2"; villager_named "a";
                     villager_named "b"; villager_named "c"] = none.
Proof. reflexivity. Qed.

Example win_2_wolves_2_villagers :
  checkWinCondition [werewolf_named "w1"; werewolf_named "w2"; villager_named "a";
                     villager_named "b"; set_isAlive false (villager_named "c")]
  = werewolves.
Proof. reflexivity. Qed.

(* ------------------------------------------------------------------ *)
(** ** Role-configuration validation *)

Lemma push_if_empty c msg errs :
  length (push_if c msg errs) = 0 <-> c = false /\ length errs = 0.
Proof.
  unfold push_if. destruct c.
  - rewrite length_app. simpl. split; [lia | intros [H _]; discriminate].
  - tauto.
Qed.

Lemma validateRoleConfiguration_no_errors s :
  valid (validateRoleConfiguration s) = true
  <-> errors (validateRoleConfiguration s) = [].
Proof.
  unfold validateRoleConfiguration. simpl.
  rewrite Nat.eqb_eq. split.
  - intros H. now apply length_zero_iff_nil.
  - intros ->. reflexivity.
Qed.

(** C7. The code at a roster of five with two werewolves: the werewolves are
    strictly fewer than half of the roster (2 * 2 < 5), the three other
    conditions hold, and validation rejects the settings with the error
    "Werewolves cannot be majority at start".  The check compares
    werewolfCount with floor(playerCount / 2); on an even roster that is the
    strict-minority test (of six players two werewolves pass and three do
    not), on an odd roster it turns the largest minority away. *)
Theorem C7_validateRoleConfiguration_rejects_minority :
  let s := settings_of 5 2 [] in
  (4 <= playerCount s /\ 1 <= werewolfCount s
   /\ 2 * werewolfCount s < playerCount s
   /\ Z.of_nat (length (includeRoles s)) <= playerCount s)%Z
  /\ validateRoleConfiguration s
     = mkValidation false ["Werewolves cannot be majority at start"]
  /\ validateRoleConfiguration (settings_of 6 2 []) = mkValidation true []
  /\ validateRoleConfiguration (settings_of 6 3 [])
     = mkValidation false ["Werewolves cannot be majority at start"].
Proof. simpl. split; [lia | repeat split]. Qed.

(* ------------------------------------------------------------------ *)
(** ** The phase state machine (game-logic) *)

Lemma WinCondition_beq_eq a b : WinCondition_beq a b = true <-> a = b.
Proof. destruct a, b; simpl; split; intros H; try reflexivity; discriminate. Qed.

Lemma GamePhase_beq_eq a b : GamePhase_beq a b = true <-> a = b.
Proof. destruct a, b; simpl; split; intros H; try reflexivity; discriminate. Qed.

Lemma getNextPhase_not_ended p : p <> ended -> getNextPhase p <> ended.
Proof. destruct p; simpl; congruence. Qed.

(** Below 2^53 the sum of a round and 1 is exact. *)
Lemma js_add_one x : (Z.abs x < 2 ^ 53)%Z -> js_add x 1 = (x + 1)%Z.
Proof.
  intros H. unfold js_add, round_double.
  destruct (Z.ltb_spec (Z.abs (x + 1)) (2 ^ 53)) as [_|Hge]; [reflexivity|].
  assert (E : x = (2 ^ 53 - 1)%Z) by lia. subst x. reflexivity.
Qed.

(** At 2^53 it is not: the round stays where it is. *)
Example js_add_stuck : js_add (2 ^ 53) 1 = (2 ^ 53)%Z.
Proof. reflexivity. Qed.

Lemma transitionPhase_win s now :
  checkWinCondition (players s) <> none ->
  transitionPhase s now =
    mkState (gameId s) (gameName s) (hostId s) ended (round s) (mode s)
            (settings s) (players s) (nightActions s) (votes s)
            (eliminatedToday s) (killedTonight s) (savedTonight s)
            (checkWinCondition (players s)) (createdAt s) now.
Proof.
  intros H. unfold transitionPhase.
  destruct (WinCondition_beq (checkWinCondition (players s)) none) eqn:E;
    [apply WinCondition_beq_eq in E; contradiction | reflexivity].
Qed.

Lemma transitionPhase_table s now :
  checkWinCondition (players s) = none ->
  transitionPhase s now =
    mkState (gameId s) (gameName s) (hostId s) (getNextPhase (phase s))
            (if GamePhase_beq (phase s) resolution then js_add (round s) 1 else round s)
            (mode s) (settings s)
            (if GamePhase_beq (phase s) resolution
             then map reset_round_flags (players s) else players s)
            (nightActions s) (votes s) None None None (winner s) (createdAt s) now.
Proof.
  intros H. unfold transitionPhase. rewrite H. simpl.
  destruct (phase s); reflexivity.
Qed.

(** Entering a new round through the table transition. *)
Lemma transitionPhase_new_round s now :
  phase s = resolution -> checkWinCondition (players s) = none ->
  let s' := transitionPhase s now in
  phase s' = night /\ round s' = js_add (round s) 1
  /\ players s' = map reset_round_flags (players s)
  /\ Forall (fun p => hasActedThisRound p = false /\ hasVotedThisRound p = false)
            (players s').
Proof.
  intros Hp Hw. simpl. rewrite (transitionPhase_table _ _ Hw), Hp. simpl.
  repeat split. apply Forall_forall. intros p Hin.
  apply in_map_iff in Hin. destruct Hin as [q [<- _]]. split; reflexivity.
Qed.

Lemma advanceGameToNextPhase_new_round s rev t1 t2 :
  phase s = resolution -> checkWinCondition (players s) = none ->
  let s' := advanceGameToNextPhase s rev t1 t2 in
  phase s' = night /\ round s' = js_add (round s) 1
  /\ players s' = map reset_round_flags (players s)
  /\ Forall (fun p => hasActedThisRound p = false /\ hasVotedThisRound p = false)
            (players s').
Proof.
  intros Hp Hw.
  assert (E : advanceGameToNextPhase s rev t1 t2 = transitionPhase s t2).
  { unfold advanceGameToNextPhase, canTransitionPhase. rewrite Hp. reflexivity. }
  simpl. rewrite E. now apply transitionPhase_new_round.
Qed.

(** Advancing a finished game gives the state back as it is. *)
Lemma advanceGameToNextPhase_ended s rev t1 t2 :
  phase s = ended -> advanceGameToNextPhase s rev t1 t2 = s.
Proof.
  intros Hp. unfold advanceGameToNextPhase, canTransitionPhase.
  rewrite Hp. reflexivity.
Qed.

Lemma resolveNightActions_keeps s now :
  phase (resolveNightActions s now) = phase s
  /\ winner (resolveNightActions s now) = winner s
  /\ round (resolveNightActions s now) = round s.
Proof.
  repeat split.
Qed.

Lemma resolveVoting_keeps s rev now :
  phase (resolveVoting s rev now) = phase s
  /\ winner (resolveVoting s rev now) = winner s
  /\ round (resolveVoting s rev now) = round s.
Proof.
  unfold resolveVoting.
  destruct (isTie (tallyVotes s) || negb (truthy_opt (leader (tallyVotes s))));
    [repeat split|].
  destruct (leader (tallyVotes s)) as [l|]; [|repeat split].
  destruct (find _ (players s)); repeat split.
Qed.

Lemma afterPendingWork_keeps s rev t1 :
  phase (afterPendingWork s rev t1) = phase s
  /\ winner (afterPendingWork s rev t1) = winner s
  /\ round (afterPendingWork s rev t1) = round s.
Proof.
  unfold afterPendingWork. destruct (phase s) eqn:E; rewrite <- ?E;
    auto using resolveNightActions_keeps, resolveVoting_keeps.
Qed.

Lemma advanceGameToNextPhase_unfold s rev t1 t2 :
  ok (canTransitionPhase s) = true ->
  advanceGameToNextPhase s rev t1 t2
  = transitionPhase (afterPendingWork s rev t1) t2.
Proof.
  intros H. unfold advanceGameToNextPhase, afterPendingWork. rewrite H. simpl.
  destruct (phase s); reflexivity.
Qed.

Lemma advanceGameToNextPhase_blocked s rev t1 t2 :
  ok (canTransitionPhase s) = false -> advanceGameToNextPhase s rev t1 t2 = s.
Proof. intros H. unfold advanceGameToNextPhase. rewrite H. reflexivity. Qed.

(** One advance keeps "a winner is recorded exactly in the final phase". *)
Lemma advance_keeps_winner_iff_ended s rev t1 t2 :
  winner_iff_ended s -> winner_iff_ended (advanceGameToNextPhase s rev t1 t2).
Proof.
  intros Hs. destruct (ok (canTransitionPhase s)) eqn:Hc.
  2:{ now rewrite advanceGameToNextPhase_blocked. }
  rewrite advanceGameToNextPhase_unfold by assumption.
  destruct (afterPendingWork_keeps s rev t1) as [Hp [Hw _]].
  assert (Hne : phase s <> ended).
  { intros E. unfold canTransitionPhase in Hc. rewrite E in Hc. discriminate. }
  assert (Hnone : winner s = none).
  { destruct (WinCondition_eq_dec (winner s) none) as [|n]; [assumption|].
    apply Hs in n. contradiction. }
  set (r := afterPendingWork s rev t1) in *.
  destruct (WinCondition_eq_dec (checkWinCondition (players r)) none) as [E|E].
  - rewrite (transitionPhase_table _ _ E). unfold winner_iff_ended. simpl.
    rewrite Hw, Hp, Hnone. split; [congruence|].
    intros H. now apply getNextPhase_not_ended in H.
  - rewrite (transitionPhase_win _ _ E). unfold winner_iff_ended. simpl. tauto.
Qed.

Lemma reachable_winner_iff_ended s0 s :
  winner_iff_ended s0 -> advance_reachable s0 s -> winner_iff_ended s.
Proof.
  intros H0 Hr. induction Hr; [assumption|].
  now apply advance_keeps_winner_iff_ended.
Qed.

(** Once the final phase is reached, no further advance leaves it. *)
Lemma reachable_from_ended s0 s :
  phase s0 = ended -> advance_reachable s0 s -> s = s0.
Proof.
  intros H0 Hr. induction Hr; [reflexivity|]. subst s.
  now apply advanceGameToNextPhase_ended.
Qed.

(** C10. Whenever [advanceGameToNextPhase] performs a table transition (the
    guard lets the advance through and win evaluation on the resolved roster
    yields [none]), the returned state has [eliminatedToday], [killedTonight]
    and [savedTonight] all null, also on the advance that leaves [night] or
    [voting]: whatever that advance's own resolution step reported is gone,
    and the roster is the resolved one (with the round flags cleared when a
    new round starts). *)
Theorem C10_advance_clears_reports (s : WerewolfGameState)
        (rev : option PlayerId) (t1 t2 : Z) :
  ok (canTransitionPhase s) = true ->
  checkWinCondition (players (afterPendingWork s rev t1)) = none ->
  let s' := advanceGameToNextPhase s rev t1 t2 in
  eliminatedToday s' = None /\ killedTonight s' = None /\ savedTonight s' = None
  /\ phase s' = getNextPhase (phase s)
  /\ players s' = (if GamePhase_beq (phase s) resolution
                   then map reset_round_flags (players (afterPendingWork s rev t1))
                   else players (afterPendingWork s rev t1)).
Proof.
  intros Hc Hw. simpl.
  rewrite advanceGameToNextPhase_unfold by assumption.
  rewrite (transitionPhase_table _ _ Hw). simpl.
  destruct (afterPendingWork_keeps s rev t1) as [-> _].
  repeat split.
Qed.

(** The theorem at a night in which the werewolf kills Ann: the resolution step
    reports the kill, the advanced state does not, and Ann stays dead. *)
Lemma C10_witness_night_kill :
  let s := game_in night [mkAction "w" (Some "a") kill 1%Z 5%Z] [] in
  (killedTonight (afterPendingWork s None 6%Z) = Some "a"
   /\ map isAlive (players (afterPendingWork s None 6%Z)) = [true; false; true; true])
  /\ let s' := advanceGameToNextPhase s None 6%Z 7%Z in
     eliminatedToday s' = None /\ killedTonight s' = None /\ savedTonight s' = None
     /\ phase s' = day
     /\ players s' = players (afterPendingWork s None 6%Z).
Proof.
  split; [split; reflexivity|].
  apply (C10_advance_clears_reports
           (game_in night [mkAction "w" (Some "a") kill 1%Z 5%Z] []) None 6%Z 7%Z);
    reflexivity.
Defined.

(* ------------------------------------------------------------------ *)
(** ** The Convex phase mutation *)

Lemma find_map_same {A} (key : A -> bool) (f : A -> A) (l : list A) :
  (forall x, key (f x) = key x) ->
  find key (map (fun d => if key d then f d else d) l) = option_map f (find key l).
Proof.
  intros Hk. induction l as [|x l IH]; simpl; [reflexivity|].
  destruct (key x) eqn:E.
  - rewrite Hk, E. reflexivity.
  - rewrite E. exact IH.
Qed.

Lemma convex_getNextPhase_table :
  map Convex.getNextPhase [setup; night; day; voting; resolution; ended]
  = [night; day; voting; resolution; ended; ended].
Proof. reflexivity. Qed.


(** From [resolution] the mutation goes to [ended]: the round stays, no
    player document is touched, and no winner is written. *)
Lemma convex_advancePhase_resolution db gid game now :
  Convex.get_game db gid = Some game -> Convex.g_phase game = resolution ->
  exists db',
    Convex.advancePhase db gid now = Ok (db', (ended, Convex.g_round game))
    /\ Convex.players db' = Convex.players db
    /\ Convex.get_game db' gid
       = Some (Convex.mkGame (Convex.g_id game) ended (Convex.g_round game)
                             (Convex.g_winner game) now).
Proof.
  intros Hg Hp. unfold Convex.advancePhase, Convex.patch_game.
  rewrite Hg, Hp. simpl. eexists. split; [reflexivity|]. split; [reflexivity|].
  unfold Convex.get_game in *. simpl.
  rewrite (find_map_same (fun d => (Convex.g_id d =? gid)%string)) by reflexivity.
  rewrite Hg. reflexivity.
Qed.

(** C1. The code at a game of four in [resolution], round 1, one werewolf and
    three villagers alive (win evaluation yields [none]), every voting flag
    set.  The game-logic transition enters [night] of round 2 with all flags
    cleared; the Convex [advancePhase] mutation moves the same game to [ended],
    leaves the round at 1 and leaves every player's flags as they were. *)
Theorem C1_convex_advancePhase_skips_new_round :
  (checkWinCondition four_players = none
   /\ phase (transitionPhase (game_in resolution [] []) 50%Z) = night
   /\ round (transitionPhase (game_in resolution [] []) 50%Z) = 2%Z
   /\ map hasVotedThisRound
          (players (transitionPhase (game_in resolution [] []) 50%Z))
      = [false; false; false; false])
  /\ exists db',
       Convex.advancePhase (store_in resolution [] []) "g1" 50%Z
       = Ok (db', (ended, 1%Z))
       /\ map Convex.g_phase (Convex.games db') = [ended]
       /\ map Convex.g_round (Convex.games db') = [1%Z]
       /\ map Convex.p_hasVotedThisRound (Convex.players db')
          = [true; true; true; true].
Proof.
  split; [repeat split|].
  eexists. split; [reflexivity|]. repeat split.
Qed.

(** C2. The code at the same game: after the Convex [advancePhase] mutation the
    game is in phase [ended] and no winner is recorded, while the game-logic
    entry point on that game keeps "winner recorded iff ended". *)
Theorem C2_convex_advancePhase_ends_without_winner :
  (exists db',
     Convex.advancePhase (store_in resolution [] []) "g1" 50%Z
     = Ok (db', (ended, 1%Z))
     /\ Convex.get_game db' "g1" = Some (Convex.mkGame "g1" ended 1%Z None 50%Z))
  /\ winner_iff_ended
       (advanceGameToNextPhase (game_in resolution [] []) None 50%Z 50%Z).
Proof.
  split.
  - eexists. split; reflexivity.
  - apply advance_keeps_winner_iff_ended. unfold winner_iff_ended. simpl.
    split; [congruence | discriminate].
Qed.

(* ------------------------------------------------------------------ *)
(** ** Counter objects and the order of their entries *)

Lemma rec_bump_keys k r k' :
  In k' (map fst (rec_bump k r)) <-> k' = k \/ In k' (map fst r).
Proof.
  induction r as [|[k0 c] r IH]; simpl.
  - intuition.
  - destruct (String.eqb_spec k0 k) as [->|Hne]; simpl.
    + intuition.
    + rewrite IH. intuition.
Qed.

Lemma rec_bump_counter_ok k r : counter_ok r -> counter_ok (rec_bump k r).
Proof.
  intros [Hnd Hpos]. induction r as [|[k0 c] r IH]; simpl.
  - split; repeat constructor. simpl. tauto.
  - inversion Hnd as [|? ? Hnotin Hnd']; subst.
    inversion Hpos as [|? ? Hc Hpos']; subst.
    destruct (String.eqb_spec k0 k) as [->|Hne].
    + split; simpl; [constructor; assumption|]. constructor; [simpl in *; lia | assumption].
    + destruct (IH Hnd' Hpos') as [IH1 IH2]. split; simpl.
      * constructor; [|assumption]. rewrite rec_bump_keys. simpl in Hnotin.
        intros [E|E]; [congruence | contradiction].
      * constructor; assumption.
Qed.

Lemma rec_count_bump k r t :
  rec_count t (rec_bump k r) = rec_count t r + (if (k =? t)%string then 1 else 0).
Proof.
  unfold rec_count. induction r as [|[k0 c] r IH]; simpl.
  - destruct (String.eqb_spec k t); reflexivity.
  - destruct (String.eqb_spec k0 k) as [->|Hne]; simpl.
    + destruct (String.eqb_spec k t); lia.
    + destruct (String.eqb_spec k0 t) as [->|Hne'].
      * destruct (String.eqb_spec k t); [congruence | lia].
      * exact IH.
Qed.

Lemma rec_get_In k c r :
  NoDup (map fst r) -> (In (k, c) r <-> rec_get k r = Some c).
Proof.
  induction r as [|[k0 c0] r IH]; simpl; intros Hnd.
  - split; [tauto | discriminate].
  - inversion Hnd as [|? ? Hnotin Hnd']; subst.
    destruct (String.eqb_spec k0 k) as [->|Hne].
    + split.
      * intros [E|Hin]; [congruence|].
        exfalso. apply Hnotin. apply in_map_iff. now exists (k, c).
      * intros E. left. congruence.
    + rewrite <- (IH Hnd'). split; [intros [E|Hin]; [congruence | assumption] | tauto].
Qed.

Lemma rec_count_In k c r :
  counter_ok r -> In (k, c) r -> rec_count k r = c /\ 0 < c.
Proof.
  intros [Hnd Hpos] Hin. split.
  - unfold rec_count. apply (rec_get_In _ _ _ Hnd) in Hin. now rewrite Hin.
  - rewrite Forall_forall in Hpos. exact (Hpos _ Hin).
Qed.

Lemma rec_count_pos_In k r :
  counter_ok r -> 0 < rec_count k r -> In (k, rec_count k r) r.
Proof.
  intros [Hnd _] Hc. apply (rec_get_In _ _ _ Hnd). unfold rec_count in *.
  destruct (rec_get k r); [reflexivity | lia].
Qed.

Lemma insert_index_perm {V} (e : N * (string * V)) l :
  Permutation (map snd (insert_index e l)) (snd e :: map snd l).
Proof.
  induction l as [|e' l IH]; simpl; [reflexivity|].
  destruct (fst e <=? fst e')%N; simpl; [reflexivity|].
  rewrite IH. apply perm_swap.
Qed.

Lemma index_keys_perm {V} (r : list (string * V)) :
  Permutation (map snd (index_keys r)) (filter (fun e => negb (is_string_key e)) r).
Proof.
  induction r as [|e r IH]; simpl; [reflexivity|].
  unfold is_string_key at 1. destruct (arrayIndex (fst e)); simpl.
  - rewrite insert_index_perm. simpl. now apply perm_skip.
  - exact IH.
Qed.

Lemma filter_split_perm {A} (f : A -> bool) (l : list A) :
  Permutation (filter (fun x => negb (f x)) l ++ filter f l) l.
Proof.
  induction l as [|x l IH]; simpl; [reflexivity|].
  destruct (f x); simpl.
  - rewrite <- Permutation_middle. now apply perm_skip.
  - now apply perm_skip.
Qed.

(** [Object.entries] lists every entry of the object once. *)
Lemma objectEntries_perm {V} (r : list (string * V)) :
  Permutation (objectEntries r) r.
Proof.
  unfold objectEntries. rewrite index_keys_perm. apply filter_split_perm.
Qed.

Lemma objectEntries_counter_ok r : counter_ok r -> counter_ok (objectEntries r).
Proof.
  intros [Hnd Hpos]. pose proof (objectEntries_perm r) as P. split.
  - apply (Permutation_NoDup (l := map fst r)); [|assumption].
    apply Permutation_map. now symmetry.
  - rewrite Forall_forall in *. intros e He. apply Hpos.
    now apply (Permutation_in _ P).
Qed.

Example objectEntries_index_keys_first :
  objectEntries [("b", 1); ("10", 2); ("a", 1); ("9", 1); ("01", 3)]
  = [("9", 1); ("10", 2); ("b", 1); ("a", 1); ("01", 3)].
Proof. reflexivity. Qed.

(* ------------------------------------------------------------------ *)
(** ** Counter objects and [Object.prototype] *)

Lemma obj_bump_nil k :
  obj_bump k []
  = if (k =? "__proto__")%string then []
    else [(k, if inherited k then Text 1 else Num 1)].
Proof.
  unfold obj_bump, obj_assign, obj_read. simpl.
  destruct (k =? "__proto__")%string; [reflexivity|].
  destruct (inherited k); reflexivity.
Qed.

Lemma obj_bump_cons k k' c r :
  obj_bump k ((k', c) :: r)
  = if (k =? "__proto__")%string then (k', c) :: r
    else if (k' =? k)%string then (k', plus_one c) :: r
         else (k', c) :: obj_bump k r.
Proof.
  unfold obj_bump, obj_assign, obj_read. simpl.
  destruct (k =? "__proto__")%string; [reflexivity|].
  destruct (k' =? k)%string; reflexivity.
Qed.

Lemma inherited_proto k : (k =? "__proto__")%string = true -> inherited k = true.
Proof. intros E. apply String.eqb_eq in E. now subst k. Qed.

Lemma numeric_cons_num k n r : numeric ((k, Num n) :: r) = (k, n) :: numeric r.
Proof. reflexivity. Qed.

Lemma numeric_cons_text k n r : numeric ((k, Text n) :: r) = numeric r.
Proof. reflexivity. Qed.

(** Bumping a key that names no member of [Object.prototype] bumps its
    number; bumping one that does leaves every number as it is. *)
Lemma numeric_bump k r :
  obj_ok r ->
  numeric (obj_bump k r) = if inherited k then numeric r else rec_bump k (numeric r).
Proof.
  intros Hok. induction r as [|[k' c] r IH].
  - rewrite obj_bump_nil.
    destruct (k =? "__proto__")%string eqn:Ep.
    + now rewrite (inherited_proto k Ep).
    + destruct (inherited k); reflexivity.
  - inversion Hok as [|? ? Hc Hok']; subst. cbn [fst snd] in Hc.
    rewrite obj_bump_cons.
    destruct (k =? "__proto__")%string eqn:Ep.
    { now rewrite (inherited_proto k Ep). }
    destruct (String.eqb_spec k' k) as [->|Hne].
    + destruct c as [n|n|]; [| |contradiction]; rewrite Hc; cbn [plus_one].
      * rewrite !numeric_cons_num. cbn [rec_bump]. now rewrite String.eqb_refl.
      * now rewrite !numeric_cons_text.
    + specialize (IH Hok').
      destruct c as [n|n|]; [| |contradiction].
      * rewrite !numeric_cons_num, IH.
        destruct (inherited k); [reflexivity|]. cbn [rec_bump].
        destruct (String.eqb_spec k' k); [contradiction | reflexivity].
      * now rewrite !numeric_cons_text, IH.
Qed.

Lemma obj_bump_ok k r : obj_ok r -> obj_ok (obj_bump k r).
Proof.
  intros Hok. induction r as [|[k' c] r IH].
  - rewrite obj_bump_nil. destruct (k =? "__proto__")%string; [constructor|].
    constructor; [|constructor]. destruct (inherited k) eqn:E; cbn; assumption || reflexivity.
  - inversion Hok as [|? ? Hc Hok']; subst. cbn [fst snd] in Hc.
    rewrite obj_bump_cons.
    destruct (k =? "__proto__")%string; [assumption|].
    destruct (String.eqb_spec k' k) as [->|Hne].
    + constructor; [|assumption]. cbn.
      destruct c as [n|n|]; [assumption | assumption | contradiction].
    + constructor; [assumption | now apply IH].
Qed.

(** What the object holds under a key that names no member of
    [Object.prototype]: its number, if it has one. *)
Lemma own_get_numeric k r :
  obj_ok r -> inherited k = false ->
  own_get k r = option_map Num (rec_get k (numeric r)).
Proof.
  intros Hok Hk. induction r as [|[k' c] r IH]; [reflexivity|].
  inversion Hok as [|? ? Hc Hok']; subst. cbn [fst snd] in Hc.
  cbn [own_get]. destruct (String.eqb_spec k' k) as [->|Hne].
  - destruct c as [n|n|]; [|congruence|contradiction].
    cbn. now rewrite String.eqb_refl.
  - rewrite (IH Hok'). destruct c as [n|n|]; [|reflexivity|contradiction].
    cbn. destruct (String.eqb_spec k' k); [contradiction | reflexivity].
Qed.

Lemma obj_read_numeric k r :
  obj_ok r -> inherited k = false ->
  or_zero (obj_read k r) = Num (rec_count k (numeric r)).
Proof.
  intros Hok Hk. unfold obj_read, rec_count.
  rewrite (own_get_numeric k r Hok Hk), Hk.
  destruct (rec_get k (numeric r)); reflexivity.
Qed.

Lemma numeric_keys_ordinary r k c :
  obj_ok r -> In (k, c) (numeric r) -> inherited k = false.
Proof.
  intros Hok Hin. unfold numeric in Hin. apply in_flat_map in Hin.
  destruct Hin as [[k' v] [Hin Hv]]. unfold obj_ok in Hok.
  rewrite Forall_forall in Hok. specialize (Hok _ Hin). cbn in *.
  destruct v as [n|n|]; try contradiction.
  destruct Hv as [E|[]]. injection E as -> ->. assumption.
Qed.

Lemma numeric_entries_perm r : Permutation (numeric (objectEntries r)) (numeric r).
Proof. apply Permutation_flat_map, objectEntries_perm. Qed.

(** The two loops over the entries pass over every value that is no number. *)
Lemma leaderEntry_fold es st :
  fold_left leaderEntry es st = fold_left leaderStep (numeric es) st.
Proof.
  revert st. induction es as [|[k v] es IH]; intros st; [reflexivity|].
  cbn [fold_left]. rewrite IH. unfold leaderEntry. cbn [fst snd].
  destruct v; reflexivity.
Qed.

Lemma majorityEntry_fold es st :
  fold_left majorityEntry es st = fold_left majorityStep (numeric es) st.
Proof.
  revert st. induction es as [|[k v] es IH]; intros st; [reflexivity|].
  cbn [fold_left]. rewrite IH. unfold majorityEntry. cbn [fst snd].
  destruct v; reflexivity.
Qed.

Lemma counter_ok_perm (r r' : JsRecord) :
  Permutation r r' -> counter_ok r -> counter_ok r'.
Proof.
  intros P [Hnd Hpos]. split.
  - apply (Permutation_NoDup (l := map fst r)); [|assumption].
    now apply Permutation_map.
  - rewrite Forall_forall in *. intros e He. apply Hpos.
    apply (Permutation_in _ (Permutation_sym P) He).
Qed.

(* ------------------------------------------------------------------ *)
(** ** The leader scan of [tallyVotes] *)

Lemma filter_at_max_above es m :
  list_max (map snd es) < m -> filter (at_max m) es = [].
Proof.
  intros H. induction es as [|e es IH]; simpl in *; [reflexivity|].
  unfold at_max at 1. destruct (Nat.eqb_spec (snd e) m); [lia|].
  apply IH. lia.
Qed.


Lemma scan_invariant es :
  Forall (fun e => 0 < snd e) es ->
  maxVotes (scan_of es) = list_max (map snd es)
  /\ (es = [] -> scan_leader (scan_of es) = None)
  /\ (es <> [] -> exists k, scan_leader (scan_of es) = Some k
                            /\ In (k, maxVotes (scan_of es)) es)
  /\ scan_tie (scan_of es)
     = (2 <=? length (filter (at_max (maxVotes (scan_of es))) es)).
Proof.
  induction es as [|e es IH] using rev_ind; intros Hpos.
  - simpl. repeat split; congruence.
  - apply Forall_app in Hpos. destruct Hpos as [Hpos He].
    inversion He as [|? ? Hepos _]; subst.
    destruct (IH Hpos) as [Hmax [Hnil [Hsome Htie]]]. clear IH.
    unfold scan_of in *. rewrite fold_left_app. cbn [fold_left].
    set (st := fold_left leaderStep es (mkScan 0 None false)) in *.
    rewrite map_app, list_max_app. cbn [map list_max fold_right].
    rewrite Nat.max_0_r.
    unfold leaderStep.
    destruct (Nat.ltb_spec (maxVotes st) (snd e)) as [Hlt|Hge];
      cbn [maxVotes scan_leader scan_tie].
    + split; [lia|]. split; [intros E; now destruct es|].
      split.
      * intros _. exists (fst e). split; [reflexivity|].
        apply in_or_app. right. left. now destruct e.
      * rewrite filter_app, filter_at_max_above by lia. simpl.
        unfold at_max. now rewrite Nat.eqb_refl.
    + assert (Hne : es <> []).
      { intros E. unfold st in Hge. rewrite E in Hge. simpl in Hge. lia. }
      destruct (Hsome Hne) as [k [Hk Hin]].
      assert (Hone : 1 <= length (filter (at_max (maxVotes st)) es)).
      { assert (Hf : In (k, maxVotes st) (filter (at_max (maxVotes st)) es)).
        { apply filter_In. split; [assumption|]. unfold at_max. simpl.
          apply Nat.eqb_refl. }
        destruct (filter (at_max (maxVotes st)) es); [contradiction | simpl; lia]. }
      destruct (Nat.eqb_spec (snd e) (maxVotes st)) as [Heq|Hneq];
        cbn [maxVotes scan_leader scan_tie].
      * split; [lia|]. split; [intros E; now destruct es|].
        split.
        -- intros _. exists k. split; [assumption|]. apply in_or_app. now left.
        -- assert (Fe : filter (at_max (maxVotes st)) [e] = [e]).
           { simpl. unfold at_max. now rewrite Heq, Nat.eqb_refl. }
           rewrite filter_app, length_app, Fe. symmetry. apply Nat.leb_le.
           simpl length. lia.
      * split; [lia|]. split; [intros E; now destruct es|].
        split.
        -- intros _. exists k. split; [assumption|]. apply in_or_app. now left.
        -- assert (Fe : filter (at_max (maxVotes st)) [e] = []).
           { simpl. unfold at_max.
             destruct (Nat.eqb_spec (snd e) (maxVotes st)); [contradiction|].
             reflexivity. }
           rewrite filter_app, Fe, app_nil_r. exact Htie.
Qed.



(* ------------------------------------------------------------------ *)
(** ** Tallying and resolving the votes (game-logic) *)

Lemma option_string_eqb_eq a b : option_string_eqb a b = true <-> a = b.
Proof.
  destruct a as [x|], b as [y|]; simpl; try (split; congruence).
  rewrite String.eqb_eq. split; congruence.
Qed.

Lemma countVote_fold_ok vs acc :
  obj_ok (fst acc) -> counter_ok (numeric (fst acc)) ->
  obj_ok (fst (fold_left countVote vs acc))
  /\ counter_ok (numeric (fst (fold_left countVote vs acc))).
Proof.
  revert acc. induction vs as [|v vs IH]; intros acc Hok Hc; simpl; [tauto|].
  unfold countVote at 2 4. destruct (v_targetId v) as [k|]; apply IH; cbn [fst];
    try assumption.
  - now apply obj_bump_ok.
  - rewrite numeric_bump by assumption.
    destruct (inherited k); [assumption | now apply rec_bump_counter_ok].
Qed.

Lemma countVote_fold_count vs acc t :
  obj_ok (fst acc) ->
  rec_count t (numeric (fst (fold_left countVote vs acc)))
  = rec_count t (numeric (fst acc))
    + (if inherited t then 0
       else length (filter (fun v => option_string_eqb (v_targetId v) (Some t)) vs)).
Proof.
  revert acc. induction vs as [|v vs IH]; intros acc Hok; cbn [fold_left filter].
  - destruct (inherited t); simpl; lia.
  - unfold countVote at 2. destruct (v_targetId v) as [k|] eqn:Ev.
    + rewrite IH by (cbn [fst]; now apply obj_bump_ok). cbn [fst].
      rewrite numeric_bump by assumption. cbn [option_string_eqb].
      destruct (String.eqb_spec k t) as [->|Hne].
      * destruct (inherited t); [reflexivity|].
        rewrite rec_count_bump, String.eqb_refl. simpl. lia.
      * destruct (inherited k).
        -- reflexivity.
        -- rewrite rec_count_bump.
           destruct (String.eqb_spec k t); [contradiction|]. lia.
    + rewrite IH by assumption. reflexivity.
Qed.

Lemma countVote_fold_abstentions vs acc :
  snd (fold_left countVote vs acc)
  = snd acc + length (filter (fun v => option_string_eqb (v_targetId v) None) vs).
Proof.
  revert acc. induction vs as [|v vs IH]; intros acc; simpl; [lia|].
  rewrite IH. unfold countVote.
  destruct (v_targetId v) as [k|]; simpl; lia.
Qed.

Lemma counter_ok_nil : counter_ok [].
Proof. split; constructor. Qed.

Lemma tallyVotes_ok s :
  obj_ok (results (tallyVotes s)) /\ counter_ok (numeric (results (tallyVotes s))).
Proof.
  unfold tallyVotes. cbn [results].
  apply countVote_fold_ok; [constructor | apply counter_ok_nil].
Qed.

(** The tally stores, for every target that names no member of
    [Object.prototype], the number of this round's votes cast for it, stores
    no number for any other target, and counts the abstentions apart. *)
Lemma tallyVotes_results s t :
  rec_count t (numeric (results (tallyVotes s))) = tallied s t.
Proof.
  unfold tallyVotes, tallied, votesFor. cbn [results].
  rewrite countVote_fold_count by constructor. reflexivity.
Qed.

Lemma tallyVotes_abstentions s :
  abstentions (tallyVotes s)
  = length (filter (fun v => option_string_eqb (v_targetId v) None)
                   (currentRoundVotes s)).
Proof. unfold tallyVotes. simpl. now rewrite countVote_fold_abstentions. Qed.

Lemma tallyVotes_scan s :
  leader (tallyVotes s)
  = scan_leader (scan_of (numeric (objectEntries (results (tallyVotes s)))))
  /\ isTie (tallyVotes s)
     = scan_tie (scan_of (numeric (objectEntries (results (tallyVotes s))))).
Proof.
  unfold tallyVotes, scan_of. cbn [leader isTie results].
  rewrite leaderEntry_fold. split; reflexivity.
Qed.

(** The numeric entries the leader loop meets, whatever their order. *)
Lemma tally_numeric_entries s :
  counter_ok (numeric (objectEntries (results (tallyVotes s))))
  /\ forall k c,
       In (k, c) (numeric (objectEntries (results (tallyVotes s))))
       <-> 0 < c /\ tallied s k = c.
Proof.
  destruct (tallyVotes_ok s) as [Hobj Hok].
  pose proof (numeric_entries_perm (results (tallyVotes s))) as P.
  assert (Hok' : counter_ok (numeric (objectEntries (results (tallyVotes s)))))
    by (apply (counter_ok_perm _ _ (Permutation_sym P)); assumption).
  split; [assumption|]. intros k c. split.
  - intros Hin. apply (Permutation_in _ P) in Hin.
    destruct (rec_count_In _ _ _ Hok Hin) as [Hc Hpos].
    rewrite tallyVotes_results in Hc. tauto.
  - intros [Hpos Hc]. apply (Permutation_in _ (Permutation_sym P)).
    subst c. rewrite <- tallyVotes_results in *.
    now apply rec_count_pos_In.
Qed.







Lemma truthy_true t : truthy t = true <-> t <> "".
Proof. unfold truthy. rewrite negb_true_iff. apply String.eqb_neq. Qed.





(** What the tally makes of votes for an id that names a member of
    [Object.prototype]: two votes for "constructor" leave a string in
    [results] and no leader, and one more vote, for Bob, makes Bob the
    leader. *)
Example tallyVotes_prototype_key :
  tallyVotes (game_in voting [] [mkVote "a" (Some "constructor") 1%Z 1%Z;
                                 mkVote "b" (Some "constructor") 1%Z 2%Z])
  = mkTally [("constructor", Text 2)] 0 None false
  /\ tallyVotes (game_in voting [] [mkVote "a" (Some "constructor") 1%Z 1%Z;
                                    mkVote "b" (Some "constructor") 1%Z 2%Z;
                                    mkVote "c" (Some "b") 1%Z 3%Z])
     = mkTally [("constructor", Text 2); ("b", Num 1)] 0 (Some "b") false.
Proof. split; reflexivity. Qed.


(** What [eliminate] does to one player. *)
Lemma eliminate_named ids p :
  In (id p) ids -> eliminate ids p = set_isAlive false p.
Proof.
  intros Hin. unfold eliminate.
  assert (E : existsb (fun i => (id p =? i)%string) ids = true).
  { apply existsb_exists. exists (id p). split; [assumption | apply String.eqb_refl]. }
  now rewrite E.
Qed.

Lemma eliminate_other ids p : ~ In (id p) ids -> eliminate ids p = p.
Proof.
  intros Hnotin. unfold eliminate.
  destruct (existsb (fun i => (id p =? i)%string) ids) eqn:E; [|reflexivity].
  apply existsb_exists in E. destruct E as [i [Hin Ei]].
  apply String.eqb_eq in Ei. subst i. contradiction.
Qed.




(* ------------------------------------------------------------------ *)
(** ** Night resolution *)

Lemma majority_fold_in es st k :
  snd (fold_left majorityStep es st) = Some k ->
  snd st = Some k \/ In k (map fst es).
Proof.
  revert st. induction es as [|e es IH]; intros st H; simpl in *; [now left|].
  apply IH in H. destruct H as [H|H]; [|right; now right].
  unfold majorityStep in H. destruct (fst st <? snd e); simpl in H.
  - right. left. congruence.
  - now left.
Qed.

Lemma fold_keys_truthy {A V} (step : list (string * V) -> A -> list (string * V))
      (l : list A) :
  (forall r a k, In k (map fst (step r a)) -> In k (map fst r) \/ truthy k = true) ->
  forall r, (forall k, In k (map fst r) -> truthy k = true) ->
  forall k, In k (map fst (fold_left step l r)) -> truthy k = true.
Proof.
  intros Hstep. induction l as [|a l IH]; intros r Hr k Hk; simpl in Hk.
  - now apply Hr.
  - apply (IH (step r a)); [|assumption].
    intros k' Hk'. destruct (Hstep _ _ _ Hk') as [H|H]; [now apply Hr | assumption].
Qed.

Lemma obj_bump_keys k r k' :
  In k' (map fst (obj_bump k r)) -> k' = k \/ In k' (map fst r).
Proof.
  induction r as [|[k0 c] r IH].
  - rewrite obj_bump_nil. destruct (k =? "__proto__")%string; simpl; [tauto|].
    intros [E|[]]. left. now symmetry.
  - rewrite obj_bump_cons. destruct (k =? "__proto__")%string; [tauto|].
    destruct (k0 =? k)%string; simpl; [tauto|]. intuition.
Qed.

Lemma numeric_keys_sub r k : In k (map fst (numeric r)) -> In k (map fst r).
Proof.
  intros H. apply in_map_iff in H. destruct H as [[k' c] [<- Hin]].
  unfold numeric in Hin. apply in_flat_map in Hin. destruct Hin as [[k0 v] [Hin Hv]].
  cbn in Hv. destruct v as [n|n|]; try contradiction. destruct Hv as [E|[]].
  injection E as -> ->. apply in_map_iff. now exists (k', Num c).
Qed.

Lemma countTarget_keys r a k :
  In k (map fst (countTarget r a)) -> In k (map fst r) \/ truthy k = true.
Proof.
  unfold countTarget. destruct (a_targetId a) as [t|]; [|now left].
  destruct (truthy t) eqn:Ht; [|now left].
  intros H. apply obj_bump_keys in H. destruct H as [->|H]; [now right | now left].
Qed.

Lemma getMajorityTarget_truthy acts t :
  getMajorityTarget acts = Some t -> truthy t = true.
Proof.
  unfold getMajorityTarget. destruct acts as [|a acts]; [discriminate|].
  intros H. rewrite majorityEntry_fold in H.
  apply majority_fold_in in H. destruct H as [H|H]; [discriminate|].
  apply numeric_keys_sub in H.
  apply (fold_keys_truthy countTarget (a :: acts) countTarget_keys []);
    [intros k []|].
  apply in_map_iff in H. destruct H as [e [<- He]].
  apply in_map. apply (Permutation_in _ (objectEntries_perm _) He).
Qed.

Lemma resolveNightActions_saved s now :
  killTargetOf s = protectedTargetOf s ->
  players (resolveNightActions s now) = players s
  /\ killedTonight (resolveNightActions s now) = None
  /\ savedTonight (resolveNightActions s now) = killTargetOf s.
Proof.
  intros H. unfold resolveNightActions, nightOutcome. rewrite <- H.
  destruct (killTargetOf s) as [t|] eqn:Hk; [|repeat split].
  apply getMajorityTarget_truthy in Hk.
  cbn [truthy_opt option_string_eqb]. rewrite Hk, String.eqb_refl.
  cbn. repeat split.
Qed.

Lemma resolveNightActions_killed s now t :
  killTargetOf s = Some t -> protectedTargetOf s <> Some t ->
  players (resolveNightActions s now) = map (kill_player t) (players s)
  /\ killedTonight (resolveNightActions s now) = Some t
  /\ savedTonight (resolveNightActions s now) = None.
Proof.
  intros Hk Hp. unfold resolveNightActions, nightOutcome. rewrite Hk.
  apply getMajorityTarget_truthy in Hk. cbn [truthy_opt]. rewrite Hk. cbn [andb].
  destruct (option_string_eqb (Some t) (protectedTargetOf s)) eqn:E.
  - apply option_string_eqb_eq in E. congruence.
  - repeat split.
Qed.

Lemma set_add_fold_in l s x :
  In x (fold_left Convex.set_add l s) <-> In x s \/ In x l.
Proof.
  revert s. induction l as [|y l IH]; intros s; simpl; [tauto|].
  rewrite IH. unfold Convex.set_add.
  destruct (existsb (fun z => (z =? y)%string) s) eqn:E.
  - apply existsb_exists in E. destruct E as [z [Hz Ez]].
    apply String.eqb_eq in Ez. subst z. intuition (subst; auto).
  - rewrite in_app_iff. simpl. intuition.
Qed.

Lemma convex_topKillTarget_truthy acts t :
  Convex.topKillTarget acts = Some t -> truthy t = true.
Proof.
  unfold Convex.topKillTarget, Convex.killCountsOf. intros H.
  apply majority_fold_in in H. destruct H as [H|H]; [discriminate|].
  revert H. apply fold_keys_truthy; [|intros k []].
  intros r a k. destruct (Convex.ad_targetId a) as [x|]; [|now left].
  destruct (truthy x) eqn:Hx; [|now left].
  rewrite rec_bump_keys. intros [->|Hin]; [now right | now left].
Qed.

Lemma convex_protectTargets_in acts a t :
  In a acts -> Convex.ad_actionType a = protect -> Convex.ad_targetId a = Some t ->
  truthy t = true ->
  In t (Convex.protectTargetsOf acts).
Proof.
  intros Hin Hty Htg Htr. unfold Convex.protectTargetsOf.
  apply set_add_fold_in. right. unfold Convex.targets_of.
  apply in_flat_map. exists a. split.
  - apply filter_In. split; [assumption|]. rewrite Hty, Htg. simpl. now rewrite Htr.
  - rewrite Htg. now left.
Qed.

Lemma convex_resolveNightActions_saved db gid game now t a :
  Convex.get_game db gid = Some game ->
  Convex.topKillTarget (Convex.roundActions db gid (Convex.g_round game)) = Some t ->
  In a (Convex.roundActions db gid (Convex.g_round game)) ->
  Convex.ad_actionType a = protect -> Convex.ad_targetId a = Some t ->
  exists db' report,
    Convex.resolveNightActions db gid now = Ok (db', report)
    /\ Convex.players db' = Convex.players db
    /\ Convex.eliminatedPlayerId report = None
    /\ In t (Convex.protectedTargets report).
Proof.
  intros Hg Htop Hin Hty Htg.
  pose proof (convex_topKillTarget_truthy _ _ Htop) as Htr.
  pose proof (convex_protectTargets_in _ _ _ Hin Hty Htg Htr) as Hprot.
  assert (Hhas : existsb (fun y => (y =? t)%string)
                   (Convex.protectTargetsOf
                      (Convex.roundActions db gid (Convex.g_round game))) = true).
  { apply existsb_exists. exists t. split; [assumption | apply String.eqb_refl]. }
  unfold Convex.resolveNightActions. rewrite Hg, Htop, Htr, Hhas. cbn.
  eexists. eexists. split; [reflexivity|]. cbn. repeat split. exact Hprot.
Qed.

(** C4. When the kill target computed from the current round's kill actions is
    the target of the round's protect action, night resolution changes no
    player (so every [isAlive] is as before), reports no kill and reports the
    target as saved: in the game-logic resolver [killedTonight] is null and
    [savedTonight] is the target; in the Convex mutation no player document
    is written, [eliminatedPlayerId] is null and the target is among the
    reported protected targets. *)
Theorem C4_protected_target_is_saved :
  (forall s now,
      killTargetOf s = protectedTargetOf s ->
      players (resolveNightActions s now) = players s
      /\ killedTonight (resolveNightActions s now) = None
      /\ savedTonight (resolveNightActions s now) = killTargetOf s)
  /\ (forall db gid game now t a,
      Convex.get_game db gid = Some game ->
      Convex.topKillTarget (Convex.roundActions db gid (Convex.g_round game))
      = Some t ->
      In a (Convex.roundActions db gid (Convex.g_round game)) ->
      Convex.ad_actionType a = protect -> Convex.ad_targetId a = Some t ->
      exists db' report,
        Convex.resolveNightActions db gid now = Ok (db', report)
        /\ Convex.players db' = Convex.players db
        /\ Convex.eliminatedPlayerId report = None
        /\ In t (Convex.protectedTargets report)).
Proof.
  split.
  - intros s now. apply resolveNightActions_saved.
  - intros db gid game now t a. apply convex_resolveNightActions_saved.
Qed.

(** The theorem at a night in which the werewolf attacks Ann and Ann is
    protected. *)
Lemma C4_witness_ann_saved :
  (killTargetOf (game_in night saved_night_actions []) = Some "a"
   /\ protectedTargetOf (game_in night saved_night_actions []) = Some "a")
  /\ (players (resolveNightActions (game_in night saved_night_actions []) 9%Z)
      = four_players
      /\ killedTonight (resolveNightActions (game_in night saved_night_actions []) 9%Z)
         = None
      /\ savedTonight (resolveNightActions (game_in night saved_night_actions []) 9%Z)
         = Some "a")
  /\ exists db' report,
       Convex.resolveNightActions (store_in night [] saved_night_docs) "g1" 9%Z
       = Ok (db', report)
       /\ Convex.players db' = four_docs
       /\ Convex.eliminatedPlayerId report = None
       /\ In "a" (Convex.protectedTargets report).
Proof.
  split; [split; reflexivity|]. split.
  - apply (proj1 C4_protected_target_is_saved
                 (game_in night saved_night_actions []) 9%Z).
    reflexivity.
  - apply (proj2 C4_protected_target_is_saved
                 (store_in night [] saved_night_docs) "g1"
                 (Convex.mkGame "g1" night 1%Z None 0%Z) 9%Z "a"
                 (Convex.mkActionDoc 2 "g1" "c" (Some "a") protect 1%Z 2%Z)).
    + reflexivity.
    + reflexivity.
    + simpl. right. left. reflexivity.
    + reflexivity.
    + reflexivity.
Defined.

(* ------------------------------------------------------------------ *)
(** ** Vote submission: the two gates *)

Lemma canVote_accepts voter target s :
  ok (canVote voter target s) = true
  <-> isAlive voter = true /\ phase s = voting /\ hasVotedThisRound voter = false
      /\ (forall t, target = Some t -> isAlive t = true).
Proof.
  unfold canVote.
  destruct (isAlive voter); simpl; [|split; [discriminate | intros [H _]; discriminate]].
  destruct (GamePhase_beq (phase s) voting) eqn:Hp; simpl.
  2:{ split; [discriminate|]. intros [_ [H _]].
      apply GamePhase_beq_eq in H. congruence. }
  apply GamePhase_beq_eq in Hp.
  destruct (hasVotedThisRound voter); simpl;
    [split; [discriminate | intros [_ [_ [H _]]]; discriminate]|].
  destruct target as [t|]; simpl.
  - destruct (isAlive t) eqn:Ht; simpl.
    + split; [|reflexivity]. intros _. repeat split; try assumption.
      intros t' E. congruence.
    + split; [discriminate|]. intros [_ [_ [_ H]]].
      specialize (H t eq_refl). congruence.
  - split; [|reflexivity]. intros _. repeat split; try assumption. discriminate.
Qed.

Lemma canVote_rejects_with_reason voter target s :
  ok (canVote voter target s) = false ->
  exists msg, canVote voter target s = reject msg.
Proof.
  unfold canVote.
  destruct (isAlive voter); simpl; [|eexists; reflexivity].
  destruct (GamePhase_beq (phase s) voting); simpl; [|eexists; reflexivity].
  destruct (hasVotedThisRound voter); simpl; [eexists; reflexivity|].
  destruct target as [t|]; simpl; [|discriminate].
  destruct (isAlive t); simpl; [discriminate | eexists; reflexivity].
Qed.

Lemma find_filter_found {A} (p q : A -> bool) (l : list A) x :
  find p (filter q l) = Some x -> In x l /\ p x = true /\ q x = true.
Proof.
  intros H. apply find_some in H. destruct H as [Hin Hp].
  apply filter_In in Hin. tauto.
Qed.

Lemma find_is_some {A} (p : A -> bool) (l : list A) x :
  In x l -> p x = true -> exists y, find p l = Some y.
Proof.
  intros Hin Hp. destruct (find p l) as [y|] eqn:E; [now exists y|].
  pose proof (find_none _ _ E _ Hin). congruence.
Qed.


(** What a successful [castVote] leaves in the store. *)
Lemma castVote_accepted db gid voter target now game v :
  Convex.get_game db gid = Some game ->
  (Convex.g_phase game = day \/ Convex.g_phase game = voting) ->
  Convex.get_player db voter = Some v ->
  Convex.p_gameId v = gid -> Convex.p_isAlive v = true ->
  match find (fun d => (Convex.vd_voterId d =? voter)%string)
             (Convex.roundVotes db gid (Convex.g_round game)) with
  | Some existing =>
      Convex.castVote db gid voter target now
      = Ok (Convex.set_votes db
              (map (fun d => if Convex.vd_id d =? Convex.vd_id existing
                             then Convex.set_target target now d else d)
                   (Convex.votes db)),
            Convex.vd_id existing)
  | None =>
      Convex.castVote db gid voter target now
      = Ok (Convex.set_players
              (fst (Convex.insert_vote db gid voter target (Convex.g_round game) now))
              (map (fun d => if (Convex.p_id d =? voter)%string
                             then Convex.mark_voted d else d)
                   (Convex.players db)),
            Convex.nextId db)
  end.
Proof.
  intros Hg Hph Hv Hvg Halive. unfold Convex.castVote. rewrite Hg, Hv.
  assert (Hphase : GamePhase_beq (Convex.g_phase game) day
                   || GamePhase_beq (Convex.g_phase game) voting = true).
  { destruct Hph as [-> | ->]; reflexivity. }
  rewrite Hphase, Halive. apply String.eqb_eq in Hvg. rewrite Hvg. cbn [guard bind].
  destruct (find _ (Convex.roundVotes db gid (Convex.g_round game)))
    as [existing|] eqn:Ef.
  - apply find_filter_found in Ef. destruct Ef as [Hin _].
    unfold Convex.patch_vote.
    destruct (find_is_some (fun d => Convex.vd_id d =? Convex.vd_id existing)
                           (Convex.votes db) existing Hin (Nat.eqb_refl _)) as [y Hy].
    rewrite Hy. reflexivity.
  - cbn [Convex.insert_vote fst]. unfold Convex.patch_player, Convex.get_player.
    cbn [Convex.players]. unfold Convex.get_player in Hv. rewrite Hv. reflexivity.
Qed.

Lemma castVote_accepts db gid voter target now :
  (exists r, Convex.castVote db gid voter target now = Ok r)
  <-> (exists game v,
          Convex.get_game db gid = Some game
          /\ (Convex.g_phase game = day \/ Convex.g_phase game = voting)
          /\ Convex.get_player db voter = Some v
          /\ Convex.p_gameId v = gid /\ Convex.p_isAlive v = true).
Proof.
  split.
  - intros [r H]. unfold Convex.castVote in H.
    destruct (Convex.get_game db gid) as [game|]; [|discriminate].
    destruct (GamePhase_beq (Convex.g_phase game) day
              || GamePhase_beq (Convex.g_phase game) voting) eqn:Hph;
      [|discriminate]. cbn [guard bind] in H.
    destruct (Convex.get_player db voter) as [v|]; [|discriminate].
    destruct (String.eqb_spec (Convex.p_gameId v) gid) as [Hvg|]; [|discriminate].
    destruct (Convex.p_isAlive v) eqn:Halive; [|discriminate].
    exists game, v. repeat split; try assumption.
    apply orb_true_iff in Hph. destruct Hph as [E|E];
      apply GamePhase_beq_eq in E; tauto.
  - intros [game [v [Hg [Hph [Hv [Hvg Halive]]]]]].
    pose proof (castVote_accepted db gid voter target now game v
                                  Hg Hph Hv Hvg Halive) as H.
    destruct (find _ (Convex.roundVotes db gid (Convex.g_round game)));
      eexists; exact H.
Qed.

Lemma castVote_rejects db gid voter target now :
  (Convex.get_game db gid = None ->
   Convex.castVote db gid voter target now = Err "Game not found")
  /\ (forall game,
        Convex.get_game db gid = Some game ->
        Convex.g_phase game <> day -> Convex.g_phase game <> voting ->
        Convex.castVote db gid voter target now
        = Err "Votes are only allowed in day or voting phase")
  /\ (forall game,
        Convex.get_game db gid = Some game ->
        (Convex.g_phase game = day \/ Convex.g_phase game = voting) ->
        (forall v, Convex.get_player db voter = Some v -> Convex.p_gameId v <> gid) ->
        Convex.castVote db gid voter target now = Err "Voter not in game")
  /\ (forall game v,
        Convex.get_game db gid = Some game ->
        (Convex.g_phase game = day \/ Convex.g_phase game = voting) ->
        Convex.get_player db voter = Some v ->
        Convex.p_gameId v = gid -> Convex.p_isAlive v = false ->
        Convex.castVote db gid voter target now
        = Err "Eliminated players cannot vote").
Proof.
  assert (Hphase : forall game,
             Convex.g_phase game = day \/ Convex.g_phase game = voting ->
             GamePhase_beq (Convex.g_phase game) day
             || GamePhase_beq (Convex.g_phase game) voting = true).
  { intros game [-> | ->]; reflexivity. }
  split; [|split; [|split]].
  - intros Hg. unfold Convex.castVote. now rewrite Hg.
  - intros game Hg Hd Hv. unfold Convex.castVote. rewrite Hg.
    destruct (GamePhase_beq (Convex.g_phase game) day) eqn:Ed;
      [apply GamePhase_beq_eq in Ed; contradiction|].
    destruct (GamePhase_beq (Convex.g_phase game) voting) eqn:Ev;
      [apply GamePhase_beq_eq in Ev; contradiction|].
    reflexivity.
  - intros game Hg Hp Hno. unfold Convex.castVote. rewrite Hg, (Hphase game Hp).
    cbn [guard bind].
    destruct (Convex.get_player db voter) as [v|]; [|reflexivity].
    destruct (String.eqb_spec (Convex.p_gameId v) gid) as [E|E]; [|reflexivity].
    exfalso. exact (Hno v eq_refl E).
  - intros game v Hg Hp Hv Hvg Hdead. unfold Convex.castVote.
    rewrite Hg, (Hphase game Hp), Hv. apply String.eqb_eq in Hvg.
    rewrite Hvg, Hdead. reflexivity.
Qed.

(** C8 (as amended). The game-logic gate [canVote] accepts exactly when the
    voter is alive, the phase is [voting], the voter has not voted this round
    and the target, when there is one, is alive; so a vote during [day] is
    turned away, and every rejection carries a reason.  The Convex mutation
    [castVote] takes every vote, during [day] or [voting], of a living player
    of the game who has not voted this round, for no target or for a living
    player of the game; it throws, each time with its message, when the game
    is missing, when the phase is neither [day] nor [voting], when the voter
    is no player of the game, and when the voter is dead. *)
Theorem C8_vote_gates :
  (forall voter target s,
      (ok (canVote voter target s) = true
       <-> isAlive voter = true /\ phase s = voting
           /\ hasVotedThisRound voter = false
           /\ (forall t, target = Some t -> isAlive t = true))
      /\ (ok (canVote voter target s) = false ->
          exists msg, canVote voter target s = reject msg))
  /\ (forall db gid voter target now,
      (forall game v,
          Convex.get_game db gid = Some game ->
          (Convex.g_phase game = day \/ Convex.g_phase game = voting) ->
          Convex.get_player db voter = Some v ->
          Convex.p_gameId v = gid -> Convex.p_isAlive v = true ->
          Convex.p_hasVotedThisRound v = false ->
          (forall t, target = Some t ->
                     exists d, Convex.get_player db t = Some d
                               /\ Convex.p_gameId d = gid
                               /\ Convex.p_isAlive d = true) ->
          exists r, Convex.castVote db gid voter target now = Ok r)
      /\ (Convex.get_game db gid = None ->
          Convex.castVote db gid voter target now = Err "Game not found")
      /\ (forall game,
            Convex.get_game db gid = Some game ->
            Convex.g_phase game <> day -> Convex.g_phase game <> voting ->
            Convex.castVote db gid voter target now
            = Err "Votes are only allowed in day or voting phase")
      /\ (forall game,
            Convex.get_game db gid = Some game ->
            (Convex.g_phase game = day \/ Convex.g_phase game = voting) ->
            (forall v, Convex.get_player db voter = Some v ->
                       Convex.p_gameId v <> gid) ->
            Convex.castVote db gid voter target now = Err "Voter not in game")
      /\ (forall game v,
            Convex.get_game db gid = Some game ->
            (Convex.g_phase game = day \/ Convex.g_phase game = voting) ->
            Convex.get_player db voter = Some v ->
            Convex.p_gameId v = gid -> Convex.p_isAlive v = false ->
            Convex.castVote db gid voter target now
            = Err "Eliminated players cannot vote")).
Proof.
  split.
  - intros voter target s. split;
      [apply canVote_accepts | apply canVote_rejects_with_reason].
  - intros db gid voter target now. split; [|apply castVote_rejects].
    intros game v Hg Hp Hv Hvg Ha _ _.
    apply castVote_accepts. exists game, v. tauto.
Qed.

(** The theorem at a game of four: during [voting] Bob, alive and yet to
    vote, may vote for Ann in both layers; during [day] the Convex mutation
    takes his vote. *)
Lemma C8_witness_bob_votes :
  ok (canVote (mkPlayer "b" "Bob" false (Some villager) true 0%Z false false)
              (Some (villager_named "a")) (game_in voting [] [])) = true
  /\ (exists r, Convex.castVote bob_to_vote_store "g1" "b" (Some "a") 5%Z = Ok r).
Proof.
  split.
  - apply (proj1 (proj1 C8_vote_gates
                    (mkPlayer "b" "Bob" false (Some villager) true 0%Z false false)
                    (Some (villager_named "a")) (game_in voting [] []))).
    repeat split. intros t E. injection E as <-. reflexivity.
  - apply (proj1 (proj2 C8_vote_gates bob_to_vote_store "g1" "b" (Some "a") 5%Z)
                 (Convex.mkGame "g1" day 1%Z None 0%Z)
                 (Convex.mkPlayerDoc "b" "g1" "Bob" (Some villager) true false false));
      try reflexivity; [now left|].
    intros t E. injection E as <-.
    exists (Convex.mkPlayerDoc "a" "g1" "Ann" (Some villager) true false true).
    repeat split.
Defined.

(** C8, as stated, fails: a living voter who has not voted is turned away by
    [canVote] during [day]. *)
Lemma C8_counterexample_day_vote_rejected :
  isAlive (villager_named "a") = true
  /\ hasVotedThisRound (villager_named "a") = false
  /\ phase (game_in day [] []) = day
  /\ canVote (villager_named "a") None (game_in day [] [])
     = reject "Voting only during voting phase".
Proof. repeat split. Qed.

(** The other gate differs the other way: [castVote] takes a second vote from a
    player whose flag is set. *)
Example castVote_accepts_second_vote :
  exists db',
    Convex.castVote
      (store_in voting [Convex.mkVoteDoc 3 "g1" "a" (Some "b") 1%Z 1%Z] [])
      "g1" "a" (Some "c") 5%Z
    = Ok (db', 3)
    /\ Convex.votes db' = [Convex.mkVoteDoc 3 "g1" "a" (Some "c") 1%Z 5%Z].
Proof. eexists. split; reflexivity. Qed.

(* ------------------------------------------------------------------ *)
(** ** One vote per voter and round *)

Lemma find_map_keep {A} (p : A -> bool) (f : A -> A) (l : list A) :
  (forall x, p (f x) = p x) ->
  find p (map f l) = option_map f (find p l).
Proof.
  intros Hp. induction l as [|x l IH]; simpl; [reflexivity|].
  rewrite Hp. destruct (p x); [reflexivity | exact IH].
Qed.

Lemma filter_map_keep {A} (p : A -> bool) (f : A -> A) (l : list A) :
  (forall x, p (f x) = p x) ->
  filter p (map f l) = map f (filter p l).
Proof.
  intros Hp. induction l as [|x l IH]; simpl; [reflexivity|].
  rewrite Hp. destruct (p x); simpl; now rewrite IH.
Qed.

(** A second vote of the same voter in the same round replaces the target of
    the record that is there: the table keeps its length and the voter's
    record for the round now holds the new target. *)
Lemma castVote_overwrites db gid voter target now game existing db' vid :
  Convex.get_game db gid = Some game ->
  find (fun d => (Convex.vd_voterId d =? voter)%string)
       (Convex.roundVotes db gid (Convex.g_round game)) = Some existing ->
  Convex.castVote db gid voter target now = Ok (db', vid) ->
  vid = Convex.vd_id existing
  /\ length (Convex.votes db') = length (Convex.votes db)
  /\ map vote_key (Convex.votes db') = map vote_key (Convex.votes db)
  /\ find (fun d => (Convex.vd_voterId d =? voter)%string)
          (Convex.roundVotes db' gid (Convex.g_round game))
     = Some (Convex.set_target target now existing).
Proof.
  intros Hg Hex Hcast.
  assert (Hacc : exists r, Convex.castVote db gid voter target now = Ok r)
    by (now exists (db', vid)).
  apply castVote_accepts in Hacc.
  destruct Hacc as [game' [v [Hg' [Hph [Hv [Hvg Halive]]]]]].
  rewrite Hg in Hg'. injection Hg' as <-.
  pose proof (castVote_accepted db gid voter target now game v
                                Hg Hph Hv Hvg Halive) as H.
  rewrite Hex, Hcast in H. injection H as -> ->.
  split; [reflexivity|]. cbn [Convex.set_votes Convex.votes].
  split; [apply length_map|]. split.
  - rewrite map_map. apply map_ext. intros d.
    destruct (Convex.vd_id d =? Convex.vd_id existing); reflexivity.
  - unfold Convex.roundVotes, Convex.set_votes in *. cbn [Convex.votes].
    rewrite filter_map_keep, find_map_keep.
    + rewrite Hex. simpl. now rewrite Nat.eqb_refl.
    + intros d. destruct (Convex.vd_id d =? Convex.vd_id existing); reflexivity.
    + intros d. destruct (Convex.vd_id d =? Convex.vd_id existing); reflexivity.
Qed.

Lemma castVote_keeps_unique db gid voter target now db' vid :
  unique_votes db ->
  Convex.castVote db gid voter target now = Ok (db', vid) ->
  unique_votes db'.
Proof.
  intros Hu Hcast.
  assert (Hacc : exists r, Convex.castVote db gid voter target now = Ok r)
    by (now exists (db', vid)).
  apply castVote_accepts in Hacc.
  destruct Hacc as [game [v [Hg [Hph [Hv [Hvg Halive]]]]]].
  pose proof (castVote_accepted db gid voter target now game v
                                Hg Hph Hv Hvg Halive) as H.
  destruct (find _ (Convex.roundVotes db gid (Convex.g_round game)))
    as [existing|] eqn:Ef.
  - destruct (castVote_overwrites _ _ _ _ _ _ _ _ _ Hg Ef Hcast) as [_ [_ [Hk _]]].
    unfold unique_votes. now rewrite Hk.
  - rewrite Hcast in H. injection H as -> _.
    unfold unique_votes in *. cbn. rewrite map_app. cbn.
    apply (Permutation_NoDup (l := (gid, voter, Convex.g_round game)
                                      :: map vote_key (Convex.votes db))).
    + apply Permutation_cons_append.
    + constructor; [|assumption]. intros Hin.
      apply in_map_iff in Hin. destruct Hin as [d [Hd Hin]].
      unfold vote_key in Hd. injection Hd as Hd1 Hd2 Hd3.
      assert (Hfound : exists y,
                 find (fun d => (Convex.vd_voterId d =? voter)%string)
                      (Convex.roundVotes db gid (Convex.g_round game)) = Some y).
      { apply (find_is_some _ _ d).
        - apply filter_In. split; [assumption|].
          rewrite Hd1, Hd3, String.eqb_refl, Z.eqb_refl. reflexivity.
        - rewrite Hd2. apply String.eqb_refl. }
      destruct Hfound as [y Hy]. congruence.
Qed.

Lemma castVote_second_vote db gid voter target now game v existing :
  Convex.get_game db gid = Some game ->
  (Convex.g_phase game = day \/ Convex.g_phase game = voting) ->
  Convex.get_player db voter = Some v ->
  Convex.p_gameId v = gid -> Convex.p_isAlive v = true ->
  find (fun d => (Convex.vd_voterId d =? voter)%string)
       (Convex.roundVotes db gid (Convex.g_round game)) = Some existing ->
  exists db',
    Convex.castVote db gid voter target now = Ok (db', Convex.vd_id existing)
    /\ length (Convex.votes db') = length (Convex.votes db)
    /\ map vote_key (Convex.votes db') = map vote_key (Convex.votes db)
    /\ find (fun d => (Convex.vd_voterId d =? voter)%string)
            (Convex.roundVotes db' gid (Convex.g_round game))
       = Some (Convex.set_target target now existing).
Proof.
  intros Hg Hph Hv Hvg Halive Hex.
  pose proof (castVote_accepted db gid voter target now game v
                                Hg Hph Hv Hvg Halive) as H.
  rewrite Hex in H. eexists. split; [exact H|].
  destruct (castVote_overwrites _ _ _ _ _ _ _ _ _ Hg Hex H) as [_ Hrest].
  exact Hrest.
Qed.

(** [submitVote] never replaces: it adds one record at the end. *)
Lemma submitVote_appends s vid tid now :
  votes (submitVote s vid tid now) = votes s ++ [mkVote vid tid (round s) now]
  /\ currentRoundVotes (submitVote s vid tid now)
     = currentRoundVotes s ++ [mkVote vid tid (round s) now].
Proof.
  split; [reflexivity|].
  unfold currentRoundVotes, submitVote. cbn [votes round].
  rewrite filter_app. cbn [filter v_round]. now rewrite Z.eqb_refl.
Qed.

(** Behind the gate [canVote], [submitVote] keeps one record per voter. *)
Lemma submitVote_gated_keeps_unique s voter target tid now :
  one_vote_each s -> voted_flag_set s ->
  In voter (players s) ->
  ok (canVote voter target s) = true ->
  one_vote_each (submitVote s (id voter) tid now)
  /\ voted_flag_set (submitVote s (id voter) tid now).
Proof.
  intros Hu Hf Hin Hok. apply canVote_accepts in Hok.
  destruct Hok as [_ [_ [Hnot _]]].
  destruct (submitVote_appends s (id voter) tid now) as [_ Hcur].
  split.
  - unfold one_vote_each. rewrite Hcur, map_app. cbn [map voterId].
    apply (Permutation_NoDup (l := id voter :: map voterId (currentRoundVotes s)));
      [apply Permutation_cons_append|].
    constructor; [|assumption]. intros Hv.
    apply in_map_iff in Hv. destruct Hv as [v [Hv Hvin]].
    pose proof (Hf v voter Hvin Hin (eq_sym Hv)). congruence.
  - unfold voted_flag_set. rewrite Hcur. intros v p Hv Hp Hid.
    unfold submitVote in Hp. cbn [players] in Hp.
    apply in_map_iff in Hp. destruct Hp as [q [Hq Hqin]].
    destruct (String.eqb_spec (id q) (id voter)) as [Eq|Eq].
    + subst p. reflexivity.
    + subst p. apply in_app_or in Hv. destruct Hv as [Hv|[<-|[]]].
      * now apply (Hf v q).
      * simpl in Hid. contradiction.
Qed.

Lemma own_get_In k v (r : JsObject) : own_get k r = Some v -> In (k, v) r.
Proof.
  induction r as [|[k' c] r IH]; [discriminate|]. cbn [own_get].
  destruct (String.eqb_spec k' k) as [->|Hne].
  - intros E. injection E as ->. now left.
  - intros E. right. now apply IH.
Qed.

Lemma votersFor_NoDup s t : one_vote_each s -> NoDup (votersFor s t).
Proof.
  intros Hu. unfold votersFor, one_vote_each in *.
  induction (currentRoundVotes s) as [|v l IH]; simpl in *; [constructor|].
  inversion Hu as [|? ? Hnotin Hu']; subst.
  destruct (option_string_eqb (v_targetId v) (Some t)); simpl; [|now apply IH].
  constructor; [|now apply IH]. intros Hin. apply Hnotin.
  apply in_map_iff in Hin. destruct Hin as [w [Hw Hwin]].
  apply filter_In in Hwin. destruct Hwin as [Hwin _].
  apply in_map_iff. now exists w.
Qed.

(** Every number the tally stores for a target is the number of this round's
    votes for it; a target that names no member of [Object.prototype] has
    that number as its count. *)
Lemma tallyVotes_counts_voters s t :
  (forall n, own_get t (results (tallyVotes s)) = Some (Num n) ->
             n = length (votersFor s t))
  /\ (inherited t = false ->
      or_zero (obj_read t (results (tallyVotes s))) = Num (length (votersFor s t))).
Proof.
  destruct (tallyVotes_ok s) as [Hobj _].
  assert (Hcount : inherited t = false ->
            rec_count t (numeric (results (tallyVotes s))) = length (votersFor s t)).
  { intros Hi. rewrite tallyVotes_results. unfold tallied, votesFor, votersFor.
    now rewrite Hi, length_map. }
  split.
  - intros n Hn.
    assert (Hi : inherited t = false).
    { apply own_get_In in Hn. unfold obj_ok in Hobj. rewrite Forall_forall in Hobj.
      exact (Hobj _ Hn). }
    rewrite <- (Hcount Hi). unfold rec_count.
    rewrite (own_get_numeric t _ Hobj Hi) in Hn.
    destruct (rec_get t (numeric (results (tallyVotes s)))); [|discriminate].
    simpl in Hn. congruence.
  - intros Hi. rewrite (obj_read_numeric t _ Hobj Hi). now rewrite (Hcount Hi).
Qed.

(** C3 (as amended). In the Convex [castVote] mutation a vote from a voter who
    already has a Vote document for the current round overwrites that document
    instead of adding one, so a successful [castVote] keeps at most one
    document per (game, voter, round).  The game-logic [submitVote] always
    adds a record; it keeps at most one record per voter and round for the
    submissions the gate [canVote] accepts.  Whenever the round holds at most
    one record per voter, every number the tally stores for a target is the
    number of distinct voters who voted for it, and a target whose id names
    no member of [Object.prototype] has exactly that number as its count. *)
Theorem C3_one_vote_per_voter :
  (forall db gid voter target now game v existing,
      Convex.get_game db gid = Some game ->
      (Convex.g_phase game = day \/ Convex.g_phase game = voting) ->
      Convex.get_player db voter = Some v ->
      Convex.p_gameId v = gid -> Convex.p_isAlive v = true ->
      find (fun d => (Convex.vd_voterId d =? voter)%string)
           (Convex.roundVotes db gid (Convex.g_round game)) = Some existing ->
      exists db',
        Convex.castVote db gid voter target now = Ok (db', Convex.vd_id existing)
        /\ length (Convex.votes db') = length (Convex.votes db)
        /\ map vote_key (Convex.votes db') = map vote_key (Convex.votes db)
        /\ find (fun d => (Convex.vd_voterId d =? voter)%string)
                (Convex.roundVotes db' gid (Convex.g_round game))
           = Some (Convex.set_target target now existing))
  /\ (forall db gid voter target now db' vid,
      unique_votes db ->
      Convex.castVote db gid voter target now = Ok (db', vid) ->
      unique_votes db')
  /\ (forall s voter target tid now,
      one_vote_each s -> voted_flag_set s -> In voter (players s) ->
      ok (canVote voter target s) = true ->
      votes (submitVote s (id voter) tid now)
      = votes s ++ [mkVote (id voter) tid (round s) now]
      /\ one_vote_each (submitVote s (id voter) tid now)
      /\ voted_flag_set (submitVote s (id voter) tid now))
  /\ (forall s t,
      one_vote_each s ->
      NoDup (votersFor s t)
      /\ (forall n, own_get t (results (tallyVotes s)) = Some (Num n) ->
                    n = length (votersFor s t))
      /\ (inherited t = false ->
          or_zero (obj_read t (results (tallyVotes s)))
          = Num (length (votersFor s t)))).
Proof.
  split; [|split; [|split]].
  - intros. eapply castVote_second_vote; eassumption.
  - intros. eapply castVote_keeps_unique; eassumption.
  - intros s voter target tid now Hu Hf Hin Hok. split; [reflexivity|].
    eapply submitVote_gated_keeps_unique; eassumption.
  - intros s t Hu. split; [now apply votersFor_NoDup|].
    apply tallyVotes_counts_voters.
Qed.

(** C3, as stated, fails: Ann has a Vote record for round 1 and submits
    again; [submitVote] adds a second record and the tally counts her twice. *)
Lemma C3_counterexample_submitVote_appends :
  let s0 := game_in voting [] [mkVote "a" (Some "b") 1%Z 1%Z] in
  let s1 := submitVote s0 "a" (Some "b") 2%Z in
  map voterId (currentRoundVotes s0) = ["a"]
  /\ map voterId (currentRoundVotes s1) = ["a"; "a"]
  /\ results (tallyVotes s1) = [("b", Num 2)].
Proof. repeat split. Qed.

Lemma second_voter_game_unique : one_vote_each second_voter_game.
Proof.
  unfold one_vote_each. simpl.
  constructor; [simpl; intros [E|[]]; discriminate|].
  constructor; [simpl; tauto | constructor].
Qed.

Lemma second_voter_game_flags : voted_flag_set second_voter_game.
Proof.
  intros v p Hv Hp Hid. simpl in Hv, Hp.
  destruct Hv as [<-|[<-|[]]]; simpl in Hid;
    repeat (destruct Hp as [<-|Hp]; [try discriminate; reflexivity|]);
    contradiction.
Qed.

(** The theorem at a store in which Ann has voted for Bob and votes again, for
    Cy, and at a game state in which the wolf and Ann have voted and Bob now
    votes for Ann: the round keeps one record per voter, and the tally's
    count for Ann is 2, the number of her distinct voters. *)
Lemma C3_witness_second_vote :
  (exists db',
      Convex.castVote
        (store_in voting [Convex.mkVoteDoc 3 "g1" "a" (Some "b") 1%Z 1%Z] [])
        "g1" "a" (Some "c") 5%Z = Ok (db', 3)
      /\ length (Convex.votes db') = 1
      /\ map vote_key (Convex.votes db') = [("g1", "a", 1%Z)]
      /\ find (fun d => (Convex.vd_voterId d =? "a")%string)
              (Convex.roundVotes db' "g1" 1%Z)
         = Some (Convex.mkVoteDoc 3 "g1" "a" (Some "c") 1%Z 5%Z))
  /\ (exists db',
      Convex.castVote
        (store_in voting [Convex.mkVoteDoc 3 "g1" "a" (Some "b") 1%Z 1%Z] [])
        "g1" "a" (Some "c") 5%Z = Ok (db', 3)
      /\ unique_votes db')
  /\ one_vote_each (submitVote second_voter_game "b" (Some "a") 5%Z)
  /\ votersFor (submitVote second_voter_game "b" (Some "a") 5%Z) "a" = ["w"; "b"]
  /\ or_zero (obj_read "a" (results (tallyVotes
                  (submitVote second_voter_game "b" (Some "a") 5%Z))))
     = Num 2.
Proof.
  assert (Hsub : one_vote_each (submitVote second_voter_game "b" (Some "a") 5%Z)).
  { refine (proj1 (proj2
             (proj1 (proj2 (proj2 C3_one_vote_per_voter))
                 second_voter_game
                 (mkPlayer "b" "Bob" false (Some villager) true 0%Z false false)
                 None (Some "a") 5%Z
                 second_voter_game_unique second_voter_game_flags _ _))).
    - simpl. tauto.
    - reflexivity. }
  split; [|split; [|split; [|split]]].
  - apply (proj1 C3_one_vote_per_voter
                 (store_in voting [Convex.mkVoteDoc 3 "g1" "a" (Some "b") 1%Z 1%Z] [])
                 "g1" "a" (Some "c") 5%Z (Convex.mkGame "g1" voting 1%Z None 0%Z)
                 (Convex.mkPlayerDoc "a" "g1" "Ann" (Some villager) true false true)
                 (Convex.mkVoteDoc 3 "g1" "a" (Some "b") 1%Z 1%Z));
      try reflexivity. now right.
  - eexists. split; [reflexivity|].
    apply (proj1 (proj2 C3_one_vote_per_voter)
                 (store_in voting [Convex.mkVoteDoc 3 "g1" "a" (Some "b") 1%Z 1%Z] [])
                 "g1" "a" (Some "c") 5%Z _ 3).
    + unfold unique_votes. simpl. constructor; [simpl; tauto | constructor].
    + reflexivity.
  - exact Hsub.
  - reflexivity.
  - exact (proj2 (proj2 (proj2 (proj2 (proj2 C3_one_vote_per_voter))
                   (submitVote second_voter_game "b" (Some "a") 5%Z) "a" Hsub))
                 eq_refl).
Defined.

(* ------------------------------------------------------------------ *)
(** ** The fallback decision policy *)

Lemma floor_mul_lt r n : 0 < n -> floor_mul r n < n.
Proof.
  intros Hn. unfold floor_mul.
  apply Nat.Div0.div_lt_upper_bound. nia.
Qed.

Lemma id_at_in targets idx :
  idx < length targets ->
  exists t, id_at targets idx = Ok t /\ In t (map c_id targets).
Proof.
  intros H. unfold id_at.
  destruct (nth_error targets idx) as [c|] eqn:E.
  - exists (c_id c). split; [reflexivity|]. apply in_map.
    now apply nth_error_In in E.
  - apply nth_error_None in E. lia.
Qed.

(** Closes a goal of the policy's theorem with a decision that
    [selectByDifficulty] returned. *)
Ltac by_selection H :=
  let d := fresh "d" in
  let t := fresh "t" in
  let Hd := fresh "Hd" in
  let Ht := fresh "Ht" in
  let Hin := fresh "Hin" in
  destruct H as [d [Hd [t [Ht Hin]]]];
  exists d; split; [exact Hd|]; split; [discriminate|];
  intros _; exists t; split; [exact Ht | left; exact Hin].

Lemma selectByDifficulty_in targets options r :
  targets <> [] ->
  exists d t, selectByDifficulty targets options r = Ok d
              /\ targetId d = Some t /\ In t (map c_id targets).
Proof.
  intros Hne.
  assert (Hlen : 0 < length targets) by (destruct targets; [congruence | simpl; lia]).
  unfold selectByDifficulty. destruct (difficulty options).
  - destruct (id_at_in targets (floor_mul r (length targets))) as [t [Ht Hin]];
      [now apply floor_mul_lt|].
    rewrite Ht. simpl. eexists. exists t. repeat split. assumption.
  - set (pool := firstn (Nat.max (length targets / 2) 1) targets).
    assert (Hpool : 0 < length pool).
    { unfold pool. rewrite length_firstn. lia. }
    destruct (id_at_in pool (floor_mul r (length pool))) as [t [Ht Hin]];
      [now apply floor_mul_lt|].
    rewrite Ht. simpl. eexists. exists t. repeat split.
    apply in_map_iff in Hin. destruct Hin as [c [<- Hc]]. apply in_map.
    unfold pool in Hc.
    rewrite <- (firstn_skipn (Nat.max (length targets / 2) 1) targets).
    apply in_or_app. now left.
  - match goal with
    | |- context [match ?unseen with [] => _ | _ :: _ => _ end] =>
        destruct unseen as [|u us] eqn:Eu
    end.
    + destruct (id_at_in targets 0 Hlen) as [t [Ht Hin]].
      rewrite Ht. simpl. eexists. exists t. repeat split. assumption.
    + eexists. exists (c_id u). repeat split. apply in_map.
      destruct (has_length (investigationResults options)); [|discriminate].
      assert (Hu : In u (u :: us)) by now left.
      rewrite <- Eu in Hu. apply filter_In in Hu. tauto.
Qed.

(** C9 (as amended). For every role, phase, candidate list, options and every
    outcome of the random draws, the fallback policy returns a decision: for
    an empty candidate list the null target with "No valid targets
    available"; otherwise a target id that is the id of a supplied candidate
    or, for a doctor at night whose own id is supplied, that own id. *)
Theorem C9_fallbackDecision_total (role phase : string)
        (candidates : list Candidate) (options : FallbackOptions)
        (rnd : nat -> Draw) :
  exists d,
    fallbackDecision role phase candidates options rnd = Ok d
    /\ (candidates = [] -> d = mkDecision None "No valid targets available")
    /\ (candidates <> [] ->
        exists t, targetId d = Some t
                  /\ (In t (map c_id candidates)
                      \/ (role = "doctor" /\ phase = "night"
                          /\ selfId options = Some t /\ t <> ""))).
Proof.
  destruct candidates as [|c0 cs].
  - eexists. split; [reflexivity|]. split; [reflexivity | congruence].
  - unfold fallbackDecision.
    set (candidates := c0 :: cs).
    set (targets := targetsOf role candidates options).
    assert (Hsub : forall c, In c targets -> In c candidates).
    { unfold targets, targetsOf. intros c.
      destruct ((role =? "werewolf")%string && has_length (knownWerewolves options));
        [|tauto].
      destruct (filter _ candidates) as [|c' l] eqn:Ef; [tauto|].
      intros Hin. rewrite <- Ef in Hin. apply filter_In in Hin. tauto. }
    assert (Hne : targets <> []).
    { unfold targets, targetsOf.
      destruct ((role =? "werewolf")%string && has_length (knownWerewolves options));
        [|discriminate].
      destruct (filter _ candidates); discriminate. }
    assert (Hsel : forall r, exists d,
                 selectByDifficulty targets options r = Ok d
                 /\ exists t, targetId d = Some t /\ In t (map c_id candidates)).
    { intros r. destruct (selectByDifficulty_in targets options r Hne)
        as [d [t [Hd [Ht Hin]]]].
      exists d. split; [assumption|]. exists t. split; [assumption|].
      apply in_map_iff in Hin. destruct Hin as [c [<- Hc]].
      apply in_map. now apply Hsub. }
    destruct (wolfTargetOf phase targets options) as [w|] eqn:Ew.
    + eexists. split; [reflexivity|]. split; [discriminate|]. intros _.
      exists (c_id w). split; [reflexivity|]. left. apply in_map. apply Hsub.
      unfold wolfTargetOf in Ew.
      destruct (((phase =? "voting")%string || (phase =? "day")%string)
                && has_length (investigationResults options)); [|discriminate].
      destruct (find ir_isWerewolf (opt_list (investigationResults options)));
        [|discriminate].
      apply find_some in Ew. tauto.
    + destruct ((role =? "doctor")%string) eqn:Er; cbn [andb].
      2:{ by_selection (Hsel (rnd 0)). }
      destruct ((phase =? "night")%string) eqn:Ep; cbn [andb].
      2:{ by_selection (Hsel (rnd 0)). }
      destruct (truthy_opt (selfId options)) eqn:Es.
      2:{ by_selection (Hsel (rnd 0)). }
      destruct (selfChance (difficulty options)) as [p q].
      destruct (draw_lt (rnd 0) p q).
      * eexists. split; [reflexivity|]. split; [discriminate|]. intros _.
        destruct (selfId options) as [me|]; [|discriminate].
        exists me. split; [reflexivity|]. right.
        apply String.eqb_eq in Er, Ep. simpl in Es. apply truthy_true in Es.
        tauto.
      * by_selection (Hsel (rnd 1)).
Qed.

(** C9, as stated, fails: a doctor at night with one candidate and her own id
    supplied gets, on a small draw, her own id, which is no candidate. *)
Lemma C9_counterexample_doctor_self_target :
  fallbackDecision "doctor" "night" [mkCandidate "a" "Ann"] doctor_options
                   always_zero
  = Ok (mkDecision (Some "doc") "Self-protection for safety")
  /\ ~ In "doc" (map c_id [mkCandidate "a" "Ann"]).
Proof.
  split; [reflexivity|]. simpl. intros [H|[]]. discriminate.
Qed.

(* ================================================================== *)
(** * Further properties of the rules engine *)

(* ------------------------------------------------------------------ *)
(** ** Role distribution and assignment (roles.ts) *)

Lemma replace_at_cons {A} i (x a : A) l :
  replace_at (S i) x (a :: l) = a :: replace_at i x l.
Proof. reflexivity. Qed.

Lemma replace_at_length {A} i (x : A) l : length (replace_at i x l) = length l.
Proof.
  revert i. induction l as [|a l IH]; intros [|i]; try reflexivity.
  rewrite replace_at_cons. simpl. now rewrite IH.
Qed.

Lemma replace_at_nth_same {A} i (x : A) l :
  i < length l -> nth_error (replace_at i x l) i = Some x.
Proof.
  revert i. induction l as [|a l IH]; intros [|i] H; simpl in H; try lia.
  - reflexivity.
  - rewrite replace_at_cons. simpl. apply IH. lia.
Qed.

Lemma replace_at_nth_other {A} i j (x : A) l :
  i <> j -> nth_error (replace_at i x l) j = nth_error l j.
Proof.
  revert i j. induction l as [|a l IH]; intros [|i] [|j] H; try reflexivity;
    try congruence.
  rewrite replace_at_cons. simpl. apply IH. congruence.
Qed.

Lemma replace_at_perm {A} i (x y : A) l :
  nth_error l i = Some x -> Permutation (x :: replace_at i y l) (y :: l).
Proof.
  revert i. induction l as [|a l IH]; intros [|i] H; simpl in H; try discriminate.
  - injection H as ->. apply perm_swap.
  - rewrite replace_at_cons.
    rewrite perm_swap. rewrite (IH i H). apply perm_swap.
Qed.

Lemma swap_perm {A} (l : list A) i j : Permutation (swap l i j) l.
Proof.
  unfold swap.
  destruct (nth_error l i) as [x|] eqn:Hi; [|reflexivity].
  destruct (nth_error l j) as [y|] eqn:Hj; [|reflexivity].
  assert (Hlen : i < length l) by (apply nth_error_Some; congruence).
  assert (H1 : Permutation (x :: replace_at i y l) (y :: l))
    by (now apply replace_at_perm).
  assert (Hj' : nth_error (replace_at i y l) j = Some y).
  { destruct (Nat.eq_dec i j) as [<-|Hne].
    - now apply replace_at_nth_same.
    - now rewrite replace_at_nth_other. }
  pose proof (replace_at_perm j y x (replace_at i y l) Hj') as H2.
  apply (Permutation_cons_inv (a := y)).
  rewrite H2. exact H1.
Qed.

Lemma shuffle_from_perm {A} i calls rnd (l : list A) :
  Permutation (shuffle_from i calls rnd l) l.
Proof.
  revert calls l. induction i as [|i IH]; intros calls l; simpl; [reflexivity|].
  rewrite IH. apply swap_perm.
Qed.

(** Every swap of the shuffle stays inside the array. *)
Lemma shuffle_index_in_range r i : floor_mul r (i + 1) <= i.
Proof.
  assert (H : floor_mul r (i + 1) < i + 1) by (apply floor_mul_lt; lia). lia.
Qed.

Lemma shuffle_perm {A} (rnd : nat -> Draw) (array : list A) :
  Permutation (shuffle rnd array) array.
Proof. apply shuffle_from_perm. Qed.

(** X1. Whatever the random draws, the Fisher-Yates shuffle returns the
    elements it was given, each as often as before. *)
Theorem X1_shuffle_is_permutation {A} (rnd : nat -> Draw) (array : list A) :
  Permutation (shuffle rnd array) array
  /\ length (shuffle rnd array) = length array.
Proof.
  split; [apply shuffle_perm | apply Permutation_length, shuffle_perm].
Qed.















Lemma validateRoleConfiguration_valid_iff s :
  valid (validateRoleConfiguration s) = true
  <-> (4 <= playerCount s /\ 1 <= werewolfCount s
       /\ werewolfCount s < playerCount s / 2
       /\ Z.of_nat (length (includeRoles s)) <= playerCount s)%Z.
Proof.
  unfold validateRoleConfiguration. simpl.
  rewrite Nat.eqb_eq, !push_if_empty. simpl.
  rewrite !Z.ltb_ge, Z.leb_gt. intuition lia.
Qed.




(** X5. The recommended werewolf count is always a valid one: for every
    player count of at least 4 and every list of at most playerCount included
    roles, the settings with the recommended count pass validation. *)
Theorem X5_recommended_count_is_valid (pc : Z) (roles : list WerewolfRole) :
  (4 <= pc)%Z -> (Z.of_nat (length roles) <= pc)%Z ->
  validateRoleConfiguration
    (settings_of pc (getRecommendedWerewolfCount pc) roles)
  = mkValidation true [].
Proof.
  intros H4 Hr.
  assert (Hv : valid (validateRoleConfiguration
                        (settings_of pc (getRecommendedWerewolfCount pc) roles))
               = true).
  { apply validateRoleConfiguration_valid_iff. simpl.
    unfold getRecommendedWerewolfCount.
    destruct (Z.leb_spec pc 6); [|destruct (Z.leb_spec pc 10);
                                   [|destruct (Z.leb_spec pc 15)]].
    - assert (2 <= pc / 2)%Z by (apply Z.div_le_lower_bound; lia).
      repeat split; lia.
    - assert (3 <= pc / 2)%Z by (apply Z.div_le_lower_bound; lia).
      repeat split; lia.
    - assert (5 <= pc / 2)%Z by (apply Z.div_le_lower_bound; lia).
      repeat split; lia.
    - assert (4 <= pc / 4)%Z by (apply Z.div_le_lower_bound; lia).
      assert (4 * (pc / 4) <= pc)%Z by (apply Z.mul_div_le; lia).
      assert (2 * (pc / 4) <= pc / 2)%Z by (apply Z.div_le_lower_bound; lia).
      repeat split; lia. }
  pose proof Hv as He. apply validateRoleConfiguration_no_errors in He.
  destruct (validateRoleConfiguration _) as [v e]. simpl in *. now subst.
Qed.

Lemma X5_witness_nine_players :
  validateRoleConfiguration (settings_of 9 (getRecommendedWerewolfCount 9) [seer; doctor])
  = mkValidation true [].
Proof.
  apply (X5_recommended_count_is_valid 9 [seer; doctor]); simpl; lia.
Defined.

(* ------------------------------------------------------------------ *)
(** ** Winners and statistics (win-conditions.ts) *)

(** X6. The end-of-game statistics account for every player once: survivors,
    eliminated werewolves and eliminated others add up to the roster size. *)
Theorem X6_getGameStats_adds_up (ps : list WerewolfPlayer) :
  survivors (getGameStats ps) + werewolvesEliminated (getGameStats ps)
  + villagersEliminated (getGameStats ps)
  = totalPlayers (getGameStats ps)
  /\ totalPlayers (getGameStats ps) = length ps.
Proof.
  split; [|reflexivity]. unfold getGameStats. simpl.
  induction ps as [|p ps IH]; simpl; [reflexivity|].
  destruct (isAlive p), (is_role werewolf p); simpl; lia.
Qed.

Lemma getWinners_villagers_alive ps p :
  checkWinCondition ps = villagers -> In p ps -> isAlive p = true ->
  is_role werewolf p = false.
Proof.
  intros Hw Hin Ha. rewrite checkWinCondition_cases in Hw.
  destruct (aliveOtherCount ps <=? aliveWerewolfCount ps); [discriminate|].
  destruct (Nat.eqb_spec (aliveWerewolfCount ps) 0) as [Hz|]; [|discriminate].
  unfold aliveWerewolfCount in Hz. apply length_zero_iff_nil in Hz.
  destruct (is_role werewolf p) eqn:Hr; [|reflexivity].
  assert (Hf : In p (filter (fun q => isAlive q && is_role werewolf q) ps)).
  { apply filter_In. split; [assumption|]. now rewrite Ha, Hr. }
  rewrite Hz in Hf. contradiction.
Qed.

(** X7. The two sides split the roster: every player is a winner for exactly
    one of the outcomes [villagers] and [werewolves], and nobody is for
    [none].  When win evaluation declares the villagers, at least one player
    survives and every survivor is among the winners. *)
Theorem X7_getWinners_sides (ps : list WerewolfPlayer) :
  Permutation (getWinners villagers ps ++ getWinners werewolves ps) ps
  /\ getWinners none ps = []
  /\ (checkWinCondition ps = villagers ->
      getAlivePlayers ps <> []
      /\ forall p, In p (getAlivePlayers ps) -> In p (getWinners villagers ps)).
Proof.
  split; [|split; [reflexivity|]].
  - apply (filter_split_perm (is_role werewolf)).
  - intros Hw. split.
    + pose proof Hw as Hw'. rewrite checkWinCondition_cases in Hw'.
      destruct (Nat.leb_spec (aliveOtherCount ps) (aliveWerewolfCount ps));
        [discriminate|].
      unfold getAlivePlayers. intros E.
      assert (Hz : aliveOtherCount ps = 0).
      { unfold aliveOtherCount. rewrite <- filter_filter_andb, E. reflexivity. }
      lia.
    + intros p Hp. unfold getAlivePlayers in Hp. apply filter_In in Hp.
      destruct Hp as [Hin Ha]. simpl. apply filter_In. split; [assumption|].
      now rewrite (getWinners_villagers_alive ps p Hw Hin Ha).
Qed.

(* ------------------------------------------------------------------ *)
(** ** Night actions (actions.ts) *)

Lemma NightActionType_beq_eq a b : NightActionType_beq a b = true <-> a = b.
Proof. destruct a, b; simpl; split; intros H; try reflexivity; discriminate. Qed.

(** X8. The night-action gate accepts exactly when actor and target are
    alive, the phase is [night], the actor has not acted this round, the
    actor's role has a night action, and it is not a werewolf aiming at a
    werewolf; every rejection carries a reason. *)
Theorem X8_canPerformNightAction_spec (player target : WerewolfPlayer)
        (s : WerewolfGameState) :
  (ok (canPerformNightAction player target s) = true
   <-> isAlive player = true /\ isAlive target = true /\ phase s = night
       /\ hasActedThisRound player = false
       /\ getNightActionType (role player) <> no_action
       /\ ~ (is_role werewolf player = true /\ is_role werewolf target = true))
  /\ (ok (canPerformNightAction player target s) = false ->
      exists msg, canPerformNightAction player target s = reject msg).
Proof.
  unfold canPerformNightAction.
  destruct (isAlive player); simpl;
    [|split; [split; [discriminate | intros [H _]; discriminate]
             | intros _; eexists; reflexivity]].
  destruct (isAlive target); simpl;
    [|split; [split; [discriminate | intros [_ [H _]]; discriminate]
             | intros _; eexists; reflexivity]].
  destruct (GamePhase_beq (phase s) night) eqn:Hp; simpl.
  2:{ split; [|intros _; eexists; reflexivity].
      split; [discriminate|]. intros [_ [_ [H _]]].
      apply GamePhase_beq_eq in H. congruence. }
  apply GamePhase_beq_eq in Hp.
  destruct (hasActedThisRound player); simpl;
    [split; [split; [discriminate | intros [_ [_ [_ [H _]]]]; discriminate]
            | intros _; eexists; reflexivity]|].
  destruct (NightActionType_beq (getNightActionType (role player)) no_action) eqn:Ht;
    simpl.
  { apply NightActionType_beq_eq in Ht.
    split; [|intros _; eexists; reflexivity].
    split; [discriminate|]. intros [_ [_ [_ [_ [H _]]]]]. contradiction. }
  assert (Hne : getNightActionType (role player) <> no_action).
  { intros E. apply NightActionType_beq_eq in E. congruence. }
  destruct (is_role werewolf player && is_role werewolf target) eqn:Hw; simpl.
  - apply andb_true_iff in Hw.
    split; [|intros _; eexists; reflexivity].
    split; [discriminate|]. intros [_ [_ [_ [_ [_ H]]]]]. contradiction.
  - split; [|discriminate]. split; [|reflexivity]. intros _.
    repeat split; try assumption. intros [H1 H2]. rewrite H1, H2 in Hw. discriminate.
Qed.

Lemma canPerformNightAction_not_acted player target s :
  ok (canPerformNightAction player target s) = true ->
  hasActedThisRound player = false.
Proof.
  unfold canPerformNightAction.
  destruct (isAlive player); simpl; [|discriminate].
  destruct (isAlive target); simpl; [|discriminate].
  destruct (GamePhase_beq (phase s) night); simpl; [|discriminate].
  destruct (hasActedThisRound player); simpl; [discriminate | reflexivity].
Qed.

Lemma submitNightAction_found s pid tid now p :
  find (fun q => (id q =? pid)%string) (players s) = Some p ->
  exists s',
    submitNightAction s pid tid now = Ok s'
    /\ nightActions s'
       = nightActions s
         ++ [mkAction pid (Some tid) (getNightActionType (role p)) (round s) now]
    /\ players s'
       = map (fun q => if (id q =? pid)%string then set_hasActed true q else q)
             (players s)
    /\ round s' = round s /\ phase s' = phase s.
Proof.
  intros Hf. unfold submitNightAction. rewrite Hf. eexists.
  split; [reflexivity|]. repeat split.
Qed.



Lemma currentRoundActions_after_submit s pid tid now p s' :
  find (fun q => (id q =? pid)%string) (players s) = Some p ->
  submitNightAction s pid tid now = Ok s' ->
  currentRoundActions s'
  = currentRoundActions s
    ++ [mkAction pid (Some tid) (getNightActionType (role p)) (round s) now].
Proof.
  intros Hf Hs. destruct (submitNightAction_found s pid tid now p Hf)
    as [s0 [Hs0 [Ha [_ [Hr _]]]]].
  rewrite Hs in Hs0. injection Hs0 as <-.
  unfold currentRoundActions. rewrite Ha, Hr, filter_app. simpl.
  now rewrite Z.eqb_refl.
Qed.

(** X10. Behind its gate, [submitNightAction] succeeds and keeps at most one
    action per actor and round, together with "whoever has an action has the
    acting flag set". *)
Theorem X10_gated_night_action_unique (s : WerewolfGameState)
        (player target : WerewolfPlayer) (now : Z) :
  one_action_each s -> acted_flag_set s ->
  In player (players s) ->
  ok (canPerformNightAction player target s) = true ->
  exists s',
    submitNightAction s (id player) (id target) now = Ok s'
    /\ one_action_each s' /\ acted_flag_set s'.
Proof.
  intros Hu Hf Hin Hok. apply canPerformNightAction_not_acted in Hok.
  destruct (find_is_some (fun q => (id q =? id player)%string) (players s) player Hin
                         (String.eqb_refl _)) as [p Hp].
  destruct (submitNightAction_found s (id player) (id target) now p Hp)
    as [s' [Hs' [_ [Hps _]]]].
  pose proof (currentRoundActions_after_submit _ _ _ _ _ _ Hp Hs') as Hcur.
  exists s'. split; [exact Hs'|]. split.
  - unfold one_action_each. rewrite Hcur, map_app. cbn [map playerId].
    apply (Permutation_NoDup
             (l := id player :: map playerId (currentRoundActions s)));
      [apply Permutation_cons_append|].
    constructor; [|assumption]. intros Ha.
    apply in_map_iff in Ha. destruct Ha as [a [Ha Hain]].
    pose proof (Hf a player Hain Hin (eq_sym Ha)). congruence.
  - unfold acted_flag_set. rewrite Hcur, Hps. intros a q Ha Hq Hid.
    apply in_map_iff in Hq. destruct Hq as [q0 [Hq0 Hq0in]].
    destruct (String.eqb_spec (id q0) (id player)) as [E|E].
    + subst q. reflexivity.
    + subst q. apply in_app_or in Ha. destruct Ha as [Ha|[<-|[]]].
      * now apply (Hf a q0).
      * simpl in Hid. contradiction.
Qed.

Lemma X10_witness_seer_acts :
  exists s',
    submitNightAction (night_of [seer_named "s"; werewolf_named "w"] []) "s" "w" 7%Z
    = Ok s'
    /\ one_action_each s' /\ acted_flag_set s'.
Proof.
  apply (X10_gated_night_action_unique
           (night_of [seer_named "s"; werewolf_named "w"] [])
           (seer_named "s") (werewolf_named "w") 7%Z).
  - unfold one_action_each. simpl. constructor.
  - unfold acted_flag_set. simpl. intros a p [].
  - simpl. now left.
  - reflexivity.
Defined.

Lemma find_app_none {A} (p : A -> bool) (l l' : list A) :
  find p l = None -> find p (l ++ l') = find p l'.
Proof.
  induction l as [|x l IH]; simpl; [reflexivity|].
  destruct (p x); [discriminate | exact IH].
Qed.

Lemma find_app_some {A} (p : A -> bool) (l l' : list A) x :
  find p l = Some x -> find p (l ++ l') = Some x.
Proof.
  induction l as [|y l IH]; simpl; [discriminate|].
  destruct (p y); [trivial | exact IH].
Qed.

Lemma find_player_after_submit s pid t target :
  find (fun q => (id q =? t)%string) (players s) = Some target ->
  exists target',
    find (fun q => (id q =? t)%string)
         (map (fun q => if (id q =? pid)%string then set_hasActed true q else q)
              (players s)) = Some target'
    /\ is_role werewolf target' = is_role werewolf target.
Proof.
  intros Hf. rewrite find_map_keep.
  - rewrite Hf. simpl. eexists. split; [reflexivity|].
    now destruct (id target =? pid)%string.
  - intros q. now destruct (id q =? pid)%string.
Qed.

(** X11. Submit, then look up: when a seer who has no action in the current
    round submits an investigation of a roster player, [getInvestigationResult]
    returns that target and whether its role is werewolf. *)
Theorem X11_investigation_round_trip (s : WerewolfGameState)
        (seerId tid : PlayerId) (now : Z) (p target : WerewolfPlayer) :
  find (fun q => (id q =? seerId)%string) (players s) = Some p ->
  role p = Some seer ->
  (forall a, In a (currentRoundActions s) -> playerId a <> seerId) ->
  tid <> "" ->
  find (fun q => (id q =? tid)%string) (players s) = Some target ->
  exists s',
    submitNightAction s seerId tid now = Ok s'
    /\ getInvestigationResult s' seerId
       = Some (mkInvestigation tid (is_role werewolf target)).
Proof.
  intros Hp Hrole Hnone Htid Ht.
  destruct (submitNightAction_found s seerId tid now p Hp)
    as [s' [Hs' [Ha [Hps [Hr _]]]]].
  exists s'. split; [exact Hs'|].
  unfold getInvestigationResult. rewrite Ha, Hr, Hps, Hrole.
  rewrite find_app_none.
  - simpl. rewrite String.eqb_refl, Z.eqb_refl. simpl.
    apply truthy_true in Htid. rewrite Htid.
    destruct (find_player_after_submit s seerId tid target Ht) as [t' [Hf' Hw]].
    rewrite Hf'. now rewrite Hw.
  - destruct (find _ (nightActions s)) as [a|] eqn:Hf; [|reflexivity].
    apply find_some in Hf. destruct Hf as [Hin Hpred].
    apply andb_true_iff in Hpred. destruct Hpred as [Hpred Hrnd].
    apply andb_true_iff in Hpred. destruct Hpred as [Hid _].
    apply String.eqb_eq in Hid. exfalso. apply (Hnone a); [|assumption].
    apply filter_In. split; assumption.
Qed.

Lemma X11_witness_seer_finds_wolf :
  exists s',
    submitNightAction (night_of [seer_named "s"; werewolf_named "w"] []) "s" "w" 7%Z
    = Ok s'
    /\ getInvestigationResult s' "s" = Some (mkInvestigation "w" true).
Proof.
  apply (X11_investigation_round_trip
           (night_of [seer_named "s"; werewolf_named "w"] []) "s" "w" 7%Z
           (seer_named "s") (werewolf_named "w")).
  - reflexivity.
  - reflexivity.
  - simpl. intros a [].
  - discriminate.
  - reflexivity.
Defined.

(** X12. The first investigation of the round stands: once
    [getInvestigationResult] reports a result for a seer, a further
    [submitNightAction] in that round (by anyone, at any target) does not
    change the report. *)
Theorem X12_first_investigation_stands (s s' : WerewolfGameState)
        (seerId pid tid : PlayerId) (now : Z) (r : Investigation) :
  getInvestigationResult s seerId = Some r ->
  submitNightAction s pid tid now = Ok s' ->
  getInvestigationResult s' seerId = Some r.
Proof.
  intros Hr Hs. unfold submitNightAction in Hs.
  destruct (find (fun q => (id q =? pid)%string) (players s)) as [p|] eqn:Hp;
    [|discriminate].
  injection Hs as <-. unfold getInvestigationResult in *. cbn [nightActions round players].
  destruct (find _ (nightActions s)) as [a|] eqn:Hf; [|discriminate].
  rewrite (find_app_some _ _ _ _ Hf).
  destruct (a_targetId a) as [t|]; [|discriminate].
  destruct (truthy t); [|discriminate].
  destruct (find (fun q => (id q =? t)%string) (players s)) as [target|] eqn:Ht;
    [|discriminate].
  destruct (find_player_after_submit s pid t target Ht) as [t' [Hf' Hw]].
  rewrite Hf'. now rewrite Hw.
Qed.

Lemma X12_witness_second_submission :
  let s := night_of [seer_named "s"; werewolf_named "w"; villager_named "a"]
                    [mkAction "s" (Some "w") investigate 1%Z 3%Z] in
  exists s',
    submitNightAction s "s" "a" 7%Z = Ok s'
    /\ getInvestigationResult s' "s" = Some (mkInvestigation "w" true).
Proof.
  eexists. split; [reflexivity|].
  apply (X12_first_investigation_stands
           (night_of [seer_named "s"; werewolf_named "w"; villager_named "a"]
                     [mkAction "s" (Some "w") investigate 1%Z 3%Z])
           _ "s" "s" "a" 7%Z (mkInvestigation "w" true)); reflexivity.
Defined.

Lemma majority_as_scan es m l tie :
  fold_left majorityStep es (m, l)
  = (maxVotes (fold_left leaderStep es (mkScan m l tie)),
     scan_leader (fold_left leaderStep es (mkScan m l tie))).
Proof.
  revert m l tie. induction es as [|e es IH]; intros m l tie; simpl; [reflexivity|].
  unfold majorityStep at 2, leaderStep at 2 4. simpl.
  destruct (m <? snd e).
  - apply IH.
  - destruct (snd e =? m); simpl; apply IH.
Qed.

Lemma countTarget_fold_ok acts r :
  obj_ok r -> counter_ok (numeric r) ->
  obj_ok (fold_left countTarget acts r)
  /\ counter_ok (numeric (fold_left countTarget acts r)).
Proof.
  revert r. induction acts as [|a acts IH]; intros r Hobj Hok; simpl; [tauto|].
  unfold countTarget at 2 4. destruct (a_targetId a) as [k|]; [|now apply IH].
  destruct (truthy k); [|now apply IH].
  apply IH; [now apply obj_bump_ok|]. rewrite numeric_bump by assumption.
  destruct (inherited k); [assumption | now apply rec_bump_counter_ok].
Qed.

Lemma countTarget_fold_count acts r t :
  obj_ok r ->
  rec_count t (numeric (fold_left countTarget acts r))
  = rec_count t (numeric r) + (if countable t then actionsAt acts t else 0).
Proof.
  revert r. unfold actionsAt, countable.
  induction acts as [|a acts IH]; intros r Hobj; cbn [fold_left filter].
  - destruct (truthy t && negb (inherited t)); simpl; lia.
  - unfold countTarget at 2. destruct (a_targetId a) as [k|]; cbn [option_string_eqb].
    2:{ now rewrite IH. }
    destruct (truthy k) eqn:Hk.
    2:{ rewrite IH by assumption.
        destruct (String.eqb_spec k t) as [->|Hne]; [|reflexivity].
        rewrite Hk. reflexivity. }
    rewrite IH by (now apply obj_bump_ok). rewrite numeric_bump by assumption.
    destruct (String.eqb_spec k t) as [->|Hne].
    + rewrite Hk. destruct (inherited t); cbn [negb andb]; [reflexivity|].
      rewrite rec_count_bump, String.eqb_refl. simpl. lia.
    + destruct (inherited k); [reflexivity|]. rewrite rec_count_bump.
      destruct (String.eqb_spec k t); [contradiction|]. lia.
Qed.

(** The numeric entries a loop over [Object.entries] meets, for a counter
    object whose numbers are given by [f]. *)
Lemma numeric_entries_spec (r : JsObject) (f : string -> nat) :
  counter_ok (numeric r) ->
  (forall t, rec_count t (numeric r) = f t) ->
  counter_ok (numeric (objectEntries r))
  /\ forall k c, In (k, c) (numeric (objectEntries r)) <-> 0 < c /\ f k = c.
Proof.
  intros Hok Hf. pose proof (numeric_entries_perm r) as P.
  split; [apply (counter_ok_perm _ _ (Permutation_sym P)); assumption|].
  intros k c. split.
  - intros Hin. apply (Permutation_in _ P) in Hin.
    destruct (rec_count_In _ _ _ Hok Hin) as [Hc Hpos]. rewrite Hf in Hc. tauto.
  - intros [Hpos Hc]. apply (Permutation_in _ (Permutation_sym P)).
    subst c. rewrite <- Hf in *. now apply rec_count_pos_In.
Qed.

Lemma getMajorityTarget_scan a0 acts0 :
  let acts := a0 :: acts0 in
  let es := numeric (objectEntries (fold_left countTarget acts [])) in
  getMajorityTarget acts = scan_leader (scan_of es)
  /\ counter_ok es
  /\ forall k c, In (k, c) es
                 <-> 0 < c /\ (if countable k then actionsAt acts k else 0) = c.
Proof.
  intros acts es.
  destruct (countTarget_fold_ok acts [] (Forall_nil _) counter_ok_nil) as [Hobj Hok].
  split.
  - unfold getMajorityTarget, acts. fold acts. rewrite majorityEntry_fold.
    fold es. now rewrite (majority_as_scan _ 0 None false).
  - apply numeric_entries_spec; [assumption|]. intros t.
    now rewrite countTarget_fold_count by constructor.
Qed.

Lemma actionsAt_pos acts t :
  0 < actionsAt acts t <-> exists a, In a acts /\ a_targetId a = Some t.
Proof.
  unfold actionsAt. split.
  - intros H.
    destruct (filter (fun a => option_string_eqb (a_targetId a) (Some t)) acts)
      as [|a l] eqn:Ef; [simpl in H; lia|].
    assert (Ha : In a (a :: l)) by now left.
    rewrite <- Ef in Ha. apply filter_In in Ha. destruct Ha as [Ha Heq].
    apply option_string_eqb_eq in Heq. now exists a.
  - intros [a [Ha Heq]].
    assert (Hin : In a (filter (fun a => option_string_eqb (a_targetId a) (Some t))
                               acts)).
    { apply filter_In. split; [assumption|]. now apply option_string_eqb_eq. }
    destruct (filter _ acts); [contradiction | simpl; lia].
Qed.

Lemma getMajorityTarget_none acts :
  getMajorityTarget acts = None
  <-> forall a t, In a acts -> a_targetId a = Some t -> countable t = false.
Proof.
  destruct acts as [|a0 acts0]; [simpl; tauto|].
  destruct (getMajorityTarget_scan a0 acts0) as [Hget [Hok Hin]].
  cbv zeta in Hget, Hok, Hin.
  set (acts := a0 :: acts0) in *.
  set (es := numeric (objectEntries (fold_left countTarget acts []))) in *.
  rewrite Hget. destruct Hok as [_ Hpos].
  destruct (scan_invariant _ Hpos) as [_ [Hnil [Hsome _]]].
  split.
  - intros Hnone a t Ha Ht.
    destruct (countable t) eqn:Hc; [|reflexivity]. exfalso.
    assert (Hp : 0 < actionsAt acts t) by (apply actionsAt_pos; now exists a).
    assert (Hin' : In (t, actionsAt acts t) es) by (apply Hin; now rewrite Hc).
    destruct es as [|e es']; [contradiction|].
    destruct Hsome as [k [Hk _]]; [discriminate | congruence].
  - intros Hall. destruct es as [|[k c] es'] eqn:E; [now apply Hnil|].
    exfalso. assert (Hk : In (k, c) ((k, c) :: es')) by now left.
    apply Hin in Hk. destruct Hk as [Hc Hk].
    destruct (countable k) eqn:Hck; [|lia].
    assert (Hp : 0 < actionsAt acts k) by lia.
    apply actionsAt_pos in Hp. destruct Hp as [a [Ha Ht]].
    rewrite (Hall a k Ha Ht) in Hck. discriminate.
Qed.

Lemma getMajorityTarget_some acts t :
  getMajorityTarget acts = Some t ->
  countable t = true /\ 0 < actionsAt acts t
  /\ forall t', countable t' = true -> actionsAt acts t' <= actionsAt acts t.
Proof.
  intros H. destruct acts as [|a0 acts0]; [discriminate|].
  destruct (getMajorityTarget_scan a0 acts0) as [Hget [Hok Hin]].
  cbv zeta in Hget, Hok, Hin.
  set (acts := a0 :: acts0) in *.
  set (es := numeric (objectEntries (fold_left countTarget acts []))) in *.
  rewrite Hget in H. destruct Hok as [_ Hpos].
  destruct (scan_invariant _ Hpos) as [Hmax [Hnil [Hsome _]]].
  assert (Hne : es <> []).
  { intros E. rewrite (Hnil E) in H. discriminate. }
  destruct (Hsome Hne) as [k [Hk Hkin]]. rewrite H in Hk. injection Hk as <-.
  apply Hin in Hkin. destruct Hkin as [Hmpos Hc].
  destruct (countable t) eqn:Hct; [|lia].
  split; [reflexivity|]. split; [lia|].
  intros t' Ht'.
  destruct (Nat.eq_dec (actionsAt acts t') 0) as [E|E]; [lia|].
  assert (Hin' : In (t', actionsAt acts t') es).
  { apply Hin. rewrite Ht'. split; [lia | reflexivity]. }
  assert (Hall : Forall (fun n => n <= list_max (map snd es)) (map snd es))
    by (now apply list_max_le).
  rewrite Forall_forall in Hall.
  assert (Hle : actionsAt acts t' <= list_max (map snd es)).
  { apply Hall. apply in_map_iff. now exists (t', actionsAt acts t'). }
  lia.
Qed.

(** X13. [getMajorityTarget] counts the actions aimed at an id that is not
    empty and names no member of [Object.prototype].  Its result is null
    exactly when no action names such an id; otherwise it is such an id, named
    by at least one action, and no other such id is named more often. *)
Theorem X13_getMajorityTarget_spec (acts : list NightAction) :
  (getMajorityTarget acts = None
   <-> forall a t, In a acts -> a_targetId a = Some t -> countable t = false)
  /\ (forall t, getMajorityTarget acts = Some t ->
        countable t = true /\ 0 < actionsAt acts t
        /\ forall t', countable t' = true ->
                      actionsAt acts t' <= actionsAt acts t).
Proof.
  split; [apply getMajorityTarget_none | apply getMajorityTarget_some].
Qed.

(** With two actions aimed at "constructor" and one at Ann, Ann is the
    target. *)
Example getMajorityTarget_prototype_key :
  getMajorityTarget [mkAction "w" (Some "constructor") kill 1%Z 1%Z;
                     mkAction "x" (Some "constructor") kill 1%Z 2%Z;
                     mkAction "y" (Some "a") kill 1%Z 3%Z]
  = Some "a".
Proof. reflexivity. Qed.

Lemma resolveNightActions_no_target s now :
  killTargetOf s = None ->
  players (resolveNightActions s now) = players s
  /\ killedTonight (resolveNightActions s now) = None
  /\ savedTonight (resolveNightActions s now) = None.
Proof.
  intros H. unfold resolveNightActions, nightOutcome. rewrite H. repeat split.
Qed.

(** X14. Night resolution touches at most the kill target: with no kill target
    nothing changes and nothing is reported; with a kill target that is not
    the protected one exactly the players with that id are marked dead and
    [killedTonight] names it; and in every case each roster entry is either
    unchanged or is the kill target's, now dead. *)
Theorem X14_resolveNightActions_effect (s : WerewolfGameState) (now : Z) :
  (killTargetOf s = None ->
   players (resolveNightActions s now) = players s
   /\ killedTonight (resolveNightActions s now) = None
   /\ savedTonight (resolveNightActions s now) = None)
  /\ (forall t, killTargetOf s = Some t -> protectedTargetOf s <> Some t ->
        players (resolveNightActions s now) = map (kill_player t) (players s)
        /\ killedTonight (resolveNightActions s now) = Some t
        /\ savedTonight (resolveNightActions s now) = None)
  /\ Forall2 (fun p p' => p' = p
                          \/ (killTargetOf s = Some (id p)
                              /\ p' = set_isAlive false p))
             (players s) (players (resolveNightActions s now)).
Proof.
  split; [apply resolveNightActions_no_target|].
  split; [intros t; apply resolveNightActions_killed|].
  destruct (killTargetOf s) as [t|] eqn:Hk.
  - destruct (option_string_eqb (protectedTargetOf s) (Some t)) eqn:Hp.
    + apply option_string_eqb_eq in Hp.
      assert (E : killTargetOf s = protectedTargetOf s) by congruence.
      destruct (resolveNightActions_saved s now E) as [-> _].
      induction (players s); constructor; auto.
    + assert (Hne : protectedTargetOf s <> Some t).
      { intros E. apply option_string_eqb_eq in E. congruence. }
      destruct (resolveNightActions_killed s now t Hk Hne) as [-> _].
      induction (players s) as [|p ps IH]; simpl; constructor; [|exact IH].
      unfold kill_player. destruct (String.eqb_spec (id p) t) as [->|];
        [right; split; reflexivity | now left].
  - destruct (resolveNightActions_no_target s now Hk) as [-> _].
    induction (players s); constructor; auto.
Qed.

(* ------------------------------------------------------------------ *)
(** ** Invariants of the phase machine (phases.ts) *)

Lemma same_player_later_refl p : same_player_later p p.
Proof. unfold same_player_later. tauto. Qed.

Lemma roster_later_refl ps : roster_later ps ps.
Proof. induction ps; constructor; auto using same_player_later_refl. Qed.

Lemma roster_later_trans ps1 ps2 ps3 :
  roster_later ps1 ps2 -> roster_later ps2 ps3 -> roster_later ps1 ps3.
Proof.
  intros H12. revert ps3. induction H12 as [|p1 p2 l1 l2 Hp H12 IH]; intros ps3 H23.
  - inversion H23. constructor.
  - inversion H23 as [|? p3 ? l3 Hp' H23']; subst. constructor; [|now apply IH].
    unfold same_player_later in *. intuition congruence.
Qed.

Lemma roster_later_map (f : WerewolfPlayer -> WerewolfPlayer) ps :
  (forall p, same_player_later p (f p)) -> roster_later ps (map f ps).
Proof. intros Hf. induction ps; simpl; constructor; auto. Qed.

Lemma eliminate_later ids p : same_player_later p (eliminate ids p).
Proof.
  unfold eliminate, same_player_later.
  destruct (existsb (fun i => (id p =? i)%string) ids); simpl;
    intuition discriminate.
Qed.

Lemma kill_player_later t p : same_player_later p (kill_player t p).
Proof.
  unfold kill_player, same_player_later.
  destruct (id p =? t)%string; simpl; intuition discriminate.
Qed.

Lemma reset_round_flags_later p : same_player_later p (reset_round_flags p).
Proof. unfold same_player_later. simpl. tauto. Qed.

Lemma resolveNightActions_later s now :
  roster_later (players s) (players (resolveNightActions s now)).
Proof.
  unfold resolveNightActions, nightOutcome. cbn [players].
  destruct (killTargetOf s) as [t|]; [|apply roster_later_refl].
  destruct (truthy t); [|apply roster_later_refl].
  destruct (truthy_opt (Some t) && _); cbn [fst];
    [apply roster_later_map, kill_player_later|].
  destruct (option_string_eqb _ _); apply roster_later_refl.
Qed.

Lemma resolveVoting_later s rev now :
  roster_later (players s) (players (resolveVoting s rev now)).
Proof.
  unfold resolveVoting.
  destruct (isTie (tallyVotes s) || negb (truthy_opt (leader (tallyVotes s))));
    [apply roster_later_refl|].
  destruct (leader (tallyVotes s)) as [l|]; [|apply roster_later_refl].
  destruct (find _ (players s)) as [e|]; [|apply roster_later_refl].
  cbn [players].
  assert (H1 : roster_later (players s) (map (kill_player l) (players s)))
    by apply roster_later_map, kill_player_later.
  destruct (is_role hunter e && truthy_opt rev
            && negb (option_string_eqb rev (Some l))); [|exact H1].
  destruct rev as [r|]; [|exact H1].
  destruct (find _ (map (kill_player l) (players s))); [|exact H1].
  eapply roster_later_trans; [exact H1|].
  apply roster_later_map, kill_player_later.
Qed.

Lemma transitionPhase_later s now :
  roster_later (players s) (players (transitionPhase s now)).
Proof.
  unfold transitionPhase.
  destruct (negb (WinCondition_beq (checkWinCondition (players s)) none));
    cbn [players]; [apply roster_later_refl|].
  destruct (GamePhase_beq (getNextPhase (phase s)) night
            && GamePhase_beq (phase s) resolution);
    [apply roster_later_map, reset_round_flags_later | apply roster_later_refl].
Qed.

Lemma afterPendingWork_later s rev t1 :
  roster_later (players s) (players (afterPendingWork s rev t1)).
Proof.
  unfold afterPendingWork. destruct (phase s);
    auto using roster_later_refl, resolveNightActions_later, resolveVoting_later.
Qed.

Lemma advance_later s rev t1 t2 :
  roster_later (players s) (players (advanceGameToNextPhase s rev t1 t2)).
Proof.
  destruct (ok (canTransitionPhase s)) eqn:Hc.
  - rewrite advanceGameToNextPhase_unfold by assumption.
    eapply roster_later_trans;
      [apply afterPendingWork_later | apply transitionPhase_later].
  - rewrite advanceGameToNextPhase_blocked by assumption. apply roster_later_refl.
Qed.

(** X15. In every state reached by advancing, the roster is the one the game
    started from: the same players in the same order, with the same names and
    roles, and nobody who was dead is alive. *)
Theorem X15_roster_is_stable (s0 s : WerewolfGameState) :
  advance_reachable s0 s ->
  roster_later (players s0) (players s)
  /\ map id (players s) = map id (players s0)
  /\ map role (players s) = map role (players s0).
Proof.
  intros Hr.
  assert (H : roster_later (players s0) (players s)).
  { induction Hr; [apply roster_later_refl|].
    eapply roster_later_trans; [exact IHHr | apply advance_later]. }
  split; [exact H|].
  induction H as [|p p' l l' Hp H IH]; simpl; [split; reflexivity|].
  destruct Hp as [Hid [_ [Hrole _]]]. destruct IH as [IH1 IH2].
  split; congruence.
Qed.

Lemma X15_witness_after_night :
  let s0 := game_in night [mkAction "w" (Some "a") kill 1%Z 5%Z] [] in
  let s := advanceGameToNextPhase s0 None 6%Z 7%Z in
  roster_later (players s0) (players s)
  /\ map id (players s) = map id (players s0)
  /\ map role (players s) = map role (players s0).
Proof.
  apply (X15_roster_is_stable
           (game_in night [mkAction "w" (Some "a") kill 1%Z 5%Z] [])).
  apply reach_advance. apply reach_start.
Defined.

(** X16. While the round is below 2^53 (where [round + 1] is exact), an
    advance never lowers the round and raises it by at most one; it raises it
    exactly when it leaves [resolution] with no winner. *)
Theorem X16_round_is_monotone (s : WerewolfGameState) (rev : option PlayerId)
        (t1 t2 : Z) :
  (Z.abs (round s) < 2 ^ 53)%Z ->
  (round s <= round (advanceGameToNextPhase s rev t1 t2) <= round s + 1)%Z
  /\ (round (advanceGameToNextPhase s rev t1 t2) = (round s + 1)%Z
      <-> phase s = resolution /\ checkWinCondition (players s) = none).
Proof.
  intros Hsafe.
  destruct (ok (canTransitionPhase s)) eqn:Hc.
  - rewrite advanceGameToNextPhase_unfold by assumption.
    destruct (afterPendingWork_keeps s rev t1) as [Hp [_ Hr]].
    set (r := afterPendingWork s rev t1) in *.
    assert (Hres : phase s = resolution -> r = s).
    { intros E. unfold r, afterPendingWork. now rewrite E. }
    destruct (WinCondition_eq_dec (checkWinCondition (players r)) none) as [E|E].
    + rewrite (transitionPhase_table _ _ E). cbn [round]. rewrite Hp, Hr.
      rewrite (js_add_one _ Hsafe).
      destruct (GamePhase_beq (phase s) resolution) eqn:Hph.
      * apply GamePhase_beq_eq in Hph. rewrite (Hres Hph) in E.
        split; [lia|]. tauto.
      * split; [lia|]. split; [lia|]. intros [Hph' _].
        apply GamePhase_beq_eq in Hph'. congruence.
    + rewrite (transitionPhase_win _ _ E). cbn [round]. rewrite Hr.
      split; [lia|]. split; [lia|]. intros [Hph Hw].
      rewrite (Hres Hph) in E. contradiction.
  - rewrite advanceGameToNextPhase_blocked by assumption.
    split; [lia|]. split; [lia|]. intros [Hph _].
    unfold canTransitionPhase in Hc. rewrite Hph in Hc. discriminate.
Qed.

(** The theorem at a game of four in [resolution], round 1, with no winner:
    the advance starts round 2. *)
Lemma X16_witness_new_round :
  (Z.abs (round (game_in resolution [] [])) < 2 ^ 53)%Z
  /\ round (advanceGameToNextPhase (game_in resolution [] []) None 5%Z 6%Z) = 2%Z.
Proof.
  assert (H : (Z.abs (round (game_in resolution [] [])) < 2 ^ 53)%Z) by reflexivity.
  split; [exact H|].
  apply (proj2 (X16_round_is_monotone (game_in resolution [] []) None 5%Z 6%Z H)).
  split; reflexivity.
Defined.

(** At round 2^53 the sum is not exact, and the new round keeps the number of
    the old one. *)
Example round_stuck_at_2_53 :
  let s := mkState "g1" "game" "w" resolution (2 ^ 53)%Z focus_as_night
                   (settings_of 4 1 []) four_players [] [] None None None none
                   0%Z 0%Z in
  phase (advanceGameToNextPhase s None 5%Z 6%Z) = night
  /\ round (advanceGameToNextPhase s None 5%Z 6%Z) = (2 ^ 53)%Z.
Proof. split; reflexivity. Qed.

Lemma forallb_alive_filter (f : WerewolfPlayer -> bool) ps :
  forallb f (filter isAlive ps) = true
  <-> forall p, In p ps -> isAlive p = true -> f p = true.
Proof.
  rewrite forallb_forall. split.
  - intros H p Hin Ha. apply H. apply filter_In. tauto.
  - intros H p Hp. apply filter_In in Hp. destruct Hp. now apply H.
Qed.

(** X17. The guard lets a phase be left exactly when: in [setup], every player
    has a role and there are at least 4 players; in [night], every living
    werewolf, seer and doctor has acted; in [voting], every living player has
    voted; [day] and [resolution] always; [ended] never.  A refusal carries a
    reason, and an advance the guard refuses returns the state unchanged. *)
Theorem X17_canTransitionPhase_spec (s : WerewolfGameState) :
  (ok (canTransitionPhase s) = true <-> guard_condition s)
  /\ (ok (canTransitionPhase s) = false ->
      (exists msg, canTransitionPhase s = reject msg)
      /\ forall rev t1 t2, advanceGameToNextPhase s rev t1 t2 = s).
Proof.
  split.
  - unfold canTransitionPhase, guard_condition. destruct (phase s).
    + destruct (forallb has_role (players s)) eqn:Hr; simpl.
      * rewrite forallb_forall in Hr.
        destruct (Nat.ltb_spec (length (players s)) 4); simpl.
        -- split; [discriminate | intros [_ H']; lia].
        -- split; [|reflexivity]. intros _. split; [|assumption].
           intros p Hp E. specialize (Hr p Hp). unfold has_role in Hr.
           rewrite E in Hr. discriminate.
      * split; [discriminate|]. intros [Hall _].
        assert (Ht : forallb has_role (players s) = true).
        { apply forallb_forall. intros p Hp. specialize (Hall p Hp).
          unfold has_role. destruct (role p); [reflexivity | congruence]. }
        congruence.
    + destruct (forallb hasActedThisRound
                        (filter has_night_role (filter isAlive (players s)))) eqn:Ha;
        simpl.
      * split; [|reflexivity]. intros _ p Hp Hal Hn.
        rewrite forallb_forall in Ha. apply Ha.
        apply filter_In. split; [|assumption]. apply filter_In. tauto.
      * split; [discriminate|]. intros Hall.
        assert (Ht : forallb hasActedThisRound
                       (filter has_night_role (filter isAlive (players s))) = true).
        { apply forallb_forall. intros p Hp. apply filter_In in Hp.
          destruct Hp as [Hp Hn]. apply filter_In in Hp. destruct Hp.
          now apply Hall. }
        congruence.
    + simpl. tauto.
    + destruct (forallb hasVotedThisRound (filter isAlive (players s))) eqn:Hv; simpl.
      * split; [|reflexivity]. intros _. now apply forallb_alive_filter.
      * split; [discriminate|]. intros Hall.
        apply forallb_alive_filter in Hall. congruence.
    + simpl. tauto.
    + simpl. split; [discriminate | tauto].
  - intros Hc. split.
    + unfold canTransitionPhase in *. destruct (phase s).
      * destruct (negb (forallb has_role (players s))); [eexists; reflexivity|].
        destruct (length (players s) <? 4); [eexists; reflexivity | discriminate].
      * destruct (negb _); [eexists; reflexivity | discriminate].
      * discriminate.
      * destruct (negb _); [eexists; reflexivity | discriminate].
      * discriminate.
      * eexists; reflexivity.
    + intros rev t1 t2. now apply advanceGameToNextPhase_blocked.
Qed.

(** X18. Leaving [setup]: an advance moves a game out of [setup] only if every
    player has a role and the roster has at least 4 players; it then enters
    [night], or [ended] when a side has already won, and in both cases the
    round number stays as it was. *)
Theorem X18_leaving_setup (s : WerewolfGameState) (rev : option PlayerId)
        (t1 t2 : Z) :
  phase s = setup ->
  phase (advanceGameToNextPhase s rev t1 t2) <> setup ->
  ((forall p, In p (players s) -> role p <> None) /\ 4 <= length (players s))
  /\ round (advanceGameToNextPhase s rev t1 t2) = round s
  /\ players (advanceGameToNextPhase s rev t1 t2) = players s
  /\ (checkWinCondition (players s) = none ->
      phase (advanceGameToNextPhase s rev t1 t2) = night)
  /\ (checkWinCondition (players s) <> none ->
      phase (advanceGameToNextPhase s rev t1 t2) = ended
      /\ winner (advanceGameToNextPhase s rev t1 t2)
         = checkWinCondition (players s)).
Proof.
  intros Hp Hleft.
  destruct (ok (canTransitionPhase s)) eqn:Hc.
  2:{ rewrite advanceGameToNextPhase_blocked in Hleft by assumption. contradiction. }
  assert (Hg : guard_condition s).
  { unfold canTransitionPhase, guard_condition in *. rewrite Hp in *.
    destruct (forallb has_role (players s)) eqn:Hr; simpl in Hc; [|discriminate].
    destruct (Nat.ltb_spec (length (players s)) 4); [discriminate|].
    split; [|assumption]. rewrite forallb_forall in Hr.
    intros p Hin E. specialize (Hr p Hin). unfold has_role in Hr.
    rewrite E in Hr. discriminate. }
  unfold guard_condition in Hg. rewrite Hp in Hg. split; [exact Hg|].
  assert (E : advanceGameToNextPhase s rev t1 t2 = transitionPhase s t2).
  { rewrite advanceGameToNextPhase_unfold by assumption.
    unfold afterPendingWork. now rewrite Hp. }
  rewrite E.
  destruct (WinCondition_eq_dec (checkWinCondition (players s)) none) as [Hw|Hw].
  - rewrite (transitionPhase_table _ _ Hw), Hp. simpl.
    split; [reflexivity|]. split; [reflexivity|]. split; [reflexivity|].
    intros Hw'. contradiction.
  - rewrite (transitionPhase_win _ _ Hw). simpl.
    split; [reflexivity|]. split; [reflexivity|]. split; [|split; reflexivity].
    intros Hw'. contradiction.
Qed.

Lemma X18_witness_start :
  let s := setup_state (assignRoles (map fresh_player ["a"; "b"; "c"; "d"])
                                    (settings_of 4 1 []) always_zero)
                       (settings_of 4 1 []) in
  phase (advanceGameToNextPhase s None 1%Z 2%Z) = night
  /\ round (advanceGameToNextPhase s None 1%Z 2%Z) = 0%Z.
Proof.
  destruct (X18_leaving_setup
              (setup_state (assignRoles (map fresh_player ["a"; "b"; "c"; "d"])
                                        (settings_of 4 1 []) always_zero)
                           (settings_of 4 1 []))
              None 1%Z 2%Z eq_refl) as [_ [Hr [_ [Hn _]]]].
  - discriminate.
  - split; [apply Hn; reflexivity | exact Hr].
Defined.

(* ------------------------------------------------------------------ *)
(** ** The tally and the vote distribution (voting.ts) *)

Lemma rec_total_bump k r : rec_total (rec_bump k r) = S (rec_total r).
Proof.
  unfold rec_total. induction r as [|[k0 c] r IH]; simpl; [reflexivity|].
  destruct (k0 =? k)%string; simpl; lia.
Qed.

Lemma countVote_fold_total vs acc :
  obj_ok (fst acc) ->
  rec_total (numeric (fst (fold_left countVote vs acc)))
  + snd (fold_left countVote vs acc)
  = rec_total (numeric (fst acc)) + snd acc + length (filter reaches_tally vs).
Proof.
  revert acc. induction vs as [|v vs IH]; intros acc Hok; cbn [fold_left filter].
  - simpl. lia.
  - unfold countVote at 2 4, reaches_tally at 1.
    destruct (v_targetId v) as [k|].
    + rewrite IH by (cbn [fst]; now apply obj_bump_ok). cbn [fst snd].
      rewrite numeric_bump by assumption.
      destruct (inherited k); cbn [negb]; [reflexivity|].
      rewrite rec_total_bump. simpl. lia.
    + rewrite IH by assumption. cbn [fst snd length]. lia.
Qed.

Lemma reaches_tally_ordinary s :
  ordinary_targets s ->
  filter reaches_tally (currentRoundVotes s) = currentRoundVotes s.
Proof.
  unfold ordinary_targets. induction (currentRoundVotes s) as [|v l IH];
    intros H; [reflexivity|]. cbn [filter].
  assert (Hv : reaches_tally v = true).
  { unfold reaches_tally. destruct (v_targetId v) as [k|] eqn:E; [|reflexivity].
    now rewrite (H v k (or_introl eq_refl) E). }
  rewrite Hv. f_equal. apply IH. intros w k Hw. apply H. now right.
Qed.

(** X19. The numbers the tally stores and the abstentions add up to the
    number of the round's votes that abstain or name an id that is no member
    of [Object.prototype]; so, when no vote names such a member, every vote of
    the round is accounted for once. *)
Theorem X19_tallyVotes_accounts_for_all (s : WerewolfGameState) :
  rec_total (numeric (results (tallyVotes s))) + abstentions (tallyVotes s)
  = length (filter reaches_tally (currentRoundVotes s))
  /\ (ordinary_targets s ->
      rec_total (numeric (results (tallyVotes s))) + abstentions (tallyVotes s)
      = length (currentRoundVotes s)).
Proof.
  assert (E : rec_total (numeric (results (tallyVotes s)))
              + abstentions (tallyVotes s)
              = length (filter reaches_tally (currentRoundVotes s))).
  { unfold tallyVotes. cbn [results abstentions].
    rewrite countVote_fold_total by constructor. reflexivity. }
  split; [exact E|]. intros Hord. now rewrite E, reaches_tally_ordinary.
Qed.

Lemma NoDup_map_filter {A B} (g : A -> B) (f : A -> bool) (l : list A) :
  NoDup (map g l) -> NoDup (map g (filter f l)).
Proof.
  induction l as [|x l IH]; simpl; intros H; [constructor|].
  inversion H as [|? ? Hnotin H']; subst.
  destruct (f x); simpl; [|now apply IH].
  constructor; [|now apply IH]. intros Hin. apply Hnotin.
  apply in_map_iff in Hin. destruct Hin as [y [Hy Hyin]].
  apply filter_In in Hyin. apply in_map_iff. exists y. tauto.
Qed.

Lemma tally_entries s :
  let es := numeric (objectEntries (results (tallyVotes s))) in
  counter_ok es
  /\ (forall k c, In (k, c) es <-> (c = tallied s k /\ 0 < c)).
Proof.
  destruct (tally_numeric_entries s) as [Hok Hin]. split; [assumption|].
  intros k c. rewrite Hin. intuition.
Qed.

(** X20. What the tally reports, over the votes it can count (those for an
    id that names no member of [Object.prototype]): the leader is null
    exactly when there is no such vote; a leader holds the largest count, tie
    or not; and [isTie] is set exactly when two different targets both hold
    the largest count. *)
Theorem X20_tallyVotes_leader_and_tie (s : WerewolfGameState) :
  (leader (tallyVotes s) = None <-> forall t, tallied s t = 0)
  /\ (forall k, leader (tallyVotes s) = Some k ->
        0 < tallied s k /\ forall t, tallied s t <= tallied s k)
  /\ (isTie (tallyVotes s) = true
      <-> exists a b, a <> b /\ 0 < tallied s a /\ tallied s a = tallied s b
                      /\ forall t, tallied s t <= tallied s a).
Proof.
  destruct (tally_entries s) as [[Hnd Hpos] Hes].
  destruct (tallyVotes_scan s) as [-> ->].
  set (es := numeric (objectEntries (results (tallyVotes s)))) in *.
  destruct (scan_invariant es Hpos) as [Hmax [Hnil [Hsome Htie]]].
  assert (Hbound : forall t, tallied s t <= maxVotes (scan_of es)).
  { intros t. destruct (Nat.eq_dec (tallied s t) 0) as [E|E]; [lia|].
    assert (Hin : In (t, tallied s t) es) by (apply Hes; split; [reflexivity | lia]).
    rewrite Hmax.
    assert (Hall : Forall (fun n => n <= list_max (map snd es)) (map snd es))
      by (now apply list_max_le).
    rewrite Forall_forall in Hall. apply Hall. apply in_map_iff.
    now exists (t, tallied s t). }
  split; [|split].
  - split.
    + intros Hn t. destruct (Nat.eq_dec (tallied s t) 0) as [E|E]; [assumption|].
      assert (Hin : In (t, tallied s t) es) by (apply Hes; split; [reflexivity | lia]).
      destruct Hsome as [k [Hk _]]; [intros E'; rewrite E' in Hin; contradiction|].
      congruence.
    + intros Hz. apply Hnil. destruct es as [|[k c] es'] eqn:E; [reflexivity|].
      assert (Hin : In (k, c) ((k, c) :: es')) by now left.
      apply Hes in Hin. destruct Hin as [Hc Hcpos]. rewrite Hz in Hc. lia.
  - intros k Hk.
    assert (Hne : es <> []) by (intros E; rewrite (Hnil E) in Hk; discriminate).
    destruct (Hsome Hne) as [k0 [Hk0 Hin]]. rewrite Hk in Hk0. injection Hk0 as <-.
    apply Hes in Hin. destruct Hin as [Hc Hcpos]. rewrite <- Hc. split; [assumption|].
    exact Hbound.
  - rewrite Htie, Nat.leb_le. split.
    + intros Hlen.
      pose proof (NoDup_map_filter fst (at_max (maxVotes (scan_of es))) es Hnd) as Hndf.
      destruct (filter (at_max (maxVotes (scan_of es))) es) as [|[a ca] [|[b cb] l]] eqn:Ef;
        try (simpl in Hlen; lia).
      assert (Ha : In (a, ca) (filter (at_max (maxVotes (scan_of es))) es))
        by (rewrite Ef; now left).
      assert (Hb : In (b, cb) (filter (at_max (maxVotes (scan_of es))) es))
        by (rewrite Ef; right; now left).
      apply filter_In in Ha, Hb. destruct Ha as [Ha Hma], Hb as [Hb Hmb].
      unfold at_max in Hma, Hmb. simpl in Hma, Hmb.
      apply Nat.eqb_eq in Hma, Hmb.
      apply Hes in Ha, Hb. destruct Ha as [Hca Hpa], Hb as [Hcb Hpb].
      exists a, b. simpl in Hndf. apply NoDup_cons_iff in Hndf.
      destruct Hndf as [Hnotin _].
      split; [intros E; apply Hnotin; left; congruence|].
      split; [lia|]. split; [congruence|].
      intros t. rewrite <- Hca, Hma. apply Hbound.
    + intros [a [b [Hab [Hpa [Heq Hmaxa]]]]].
      assert (Hina : In (a, tallied s a) es) by (apply Hes; split; [reflexivity | lia]).
      assert (Hinb : In (b, tallied s b) es) by (apply Hes; split; [reflexivity | lia]).
      assert (Hm : maxVotes (scan_of es) = tallied s a).
      { assert (Hne : es <> []) by (intros E; rewrite E in Hina; contradiction).
        destruct (Hsome Hne) as [k [_ Hk]]. apply Hes in Hk.
        destruct Hk as [Hk _]. pose proof (Hmaxa k). pose proof (Hbound a). lia. }
      assert (Hlen : length [(a, tallied s a); (b, tallied s b)]
                     <= length (filter (at_max (maxVotes (scan_of es))) es)).
      { apply NoDup_incl_length.
        - constructor; [simpl; intros [E|[]]; congruence|].
          constructor; [simpl; tauto | constructor].
        - intros e [<-|[<-|[]]]; apply filter_In; split; try assumption;
            unfold at_max; simpl; apply Nat.eqb_eq; lia. }
      simpl in Hlen. lia.
Qed.

Lemma insert_row_perm x l : Permutation (insert_row x l) (x :: l).
Proof.
  induction l as [|y l IH]; simpl; [reflexivity|].
  destruct (no_more_votes y x); [reflexivity|].
  rewrite IH. apply perm_swap.
Qed.

Lemma sort_rows_perm l : Permutation (sort_rows l) l.
Proof.
  induction l as [|x l IH]; simpl; [reflexivity|].
  rewrite insert_row_perm. now apply perm_skip.
Qed.

Lemma no_more_votes_numbers y x :
  shows_number y -> shows_number x ->
  no_more_votes y x = (shown_count y <=? shown_count x).
Proof.
  unfold shows_number, no_more_votes, shown_count.
  destruct (voteCount y), (voteCount x); tauto.
Qed.

Lemma insert_row_descending x l :
  shows_number x -> Forall shows_number l ->
  descending (map shown_count l) -> descending (map shown_count (insert_row x l)).
Proof.
  intros Hx. induction l as [|y l IH]; simpl; intros Hl H.
  - split; [intros z []|exact I].
  - destruct H as [Hy Hd]. inversion Hl as [|? ? Hny Hl']; subst.
    rewrite (no_more_votes_numbers y x Hny Hx).
    destruct (Nat.leb_spec (shown_count y) (shown_count x)) as [Hle|Hgt]; simpl.
    + split; [|split; assumption].
      intros z [<-|Hz]; [assumption|]. specialize (Hy z Hz). lia.
    + split; [|now apply IH].
      intros z Hz.
      apply (Permutation_in _ (Permutation_map shown_count (insert_row_perm x l))) in Hz.
      simpl in Hz. destruct Hz as [<-|Hz]; [lia | now apply Hy].
Qed.

Lemma sort_rows_descending l :
  Forall shows_number l -> descending (map shown_count (sort_rows l)).
Proof.
  induction l as [|x l IH]; simpl; intros H; [exact I|].
  inversion H as [|? ? Hx Hl]; subst. apply insert_row_descending; auto.
  rewrite Forall_forall in *. intros r Hr. apply Hl.
  apply (Permutation_in _ (sort_rows_perm l) Hr).
Qed.

Lemma getVoteDistribution_spec s :
  ordinary_players s ->
  Permutation (map row_player (getVoteDistribution s)) (getAlivePlayers (players s))
  /\ (forall r, In r (getVoteDistribution s) ->
        voteCount r = Num (votesFor s (id (row_player r)))
        /\ forall p, In p (voters r) ->
             In p (players s)
             /\ exists v, In v (currentRoundVotes s) /\ voterId v = id p
                          /\ v_targetId v = Some (id (row_player r)))
  /\ descending (map shown_count (getVoteDistribution s)).
Proof.
  intros Hord. unfold getVoteDistribution, getAlivePlayers.
  set (mk := fun player => mkRow player
                             (or_zero (obj_read (id player) (results (tallyVotes s))))
                             (votersOf s player)).
  destruct (tallyVotes_ok s) as [Hobj _].
  assert (Hcount : forall pl, In pl (filter isAlive (players s)) ->
                     voteCount (mk pl) = Num (votesFor s (id pl))).
  { intros pl Hpl. apply filter_In in Hpl. destruct Hpl as [Hin Ha].
    pose proof (Hord pl Hin Ha) as Hi. unfold mk. cbn [voteCount].
    rewrite (obj_read_numeric _ _ Hobj Hi), tallyVotes_results.
    unfold tallied. now rewrite Hi. }
  split; [|split].
  - rewrite (Permutation_map row_player (sort_rows_perm _)).
    rewrite map_map. simpl. now rewrite map_id.
  - intros r Hr. apply (Permutation_in _ (sort_rows_perm _)) in Hr.
    apply in_map_iff in Hr. destruct Hr as [pl [<- Hpl]].
    split; [now apply Hcount|]. cbn [voters row_player mk].
    intros p Hp. unfold votersOf in Hp. apply in_flat_map in Hp.
    destruct Hp as [v [Hv Hp]]. apply filter_In in Hv. destruct Hv as [Hv Ht].
    apply option_string_eqb_eq in Ht.
    destruct (find (fun q => (id q =? voterId v)%string) (players s)) as [q|] eqn:Hf;
      [|contradiction].
    destruct Hp as [<-|[]]. apply find_some in Hf. destruct Hf as [Hin Hid].
    apply String.eqb_eq in Hid. split; [assumption|]. exists v. auto.
  - apply sort_rows_descending. apply Forall_forall. intros r Hr.
    apply in_map_iff in Hr. destruct Hr as [pl [<- Hpl]].
    unfold shows_number. now rewrite (Hcount pl Hpl).
Qed.

(** X21. When no living player's id names a member of [Object.prototype],
    the vote distribution has one row per living roster entry and no other
    row; a row's count is the number of the round's votes for that player;
    every listed voter is a roster player with a vote of this round for that
    player; and the rows come with the largest count first. *)
Theorem X21_getVoteDistribution_spec (s : WerewolfGameState) :
  ordinary_players s ->
  Permutation (map row_player (getVoteDistribution s)) (getAlivePlayers (players s))
  /\ (forall r, In r (getVoteDistribution s) ->
        voteCount r = Num (votesFor s (id (row_player r)))
        /\ forall p, In p (voters r) ->
             In p (players s)
             /\ exists v, In v (currentRoundVotes s) /\ voterId v = id p
                          /\ v_targetId v = Some (id (row_player r)))
  /\ descending (map shown_count (getVoteDistribution s)).
Proof. apply getVoteDistribution_spec. Qed.

Lemma four_players_ordinary ph acts vs : ordinary_players (game_in ph acts vs).
Proof.
  intros p Hp _. simpl in Hp.
  repeat (destruct Hp as [<-|Hp]; [reflexivity|]). contradiction.
Qed.

(** The theorem at the round with two votes for Ann, one for Bob and one
    abstention. *)
Lemma X21_witness_two_to_one :
  ordinary_players (game_in voting [] three_votes)
  /\ map (fun r => (id (row_player r), voteCount r, map id (voters r)))
         (getVoteDistribution (game_in voting [] three_votes))
     = [("a", Num 2, ["w"; "b"]); ("b", Num 1, ["a"]); ("w", Num 0, []);
        ("c", Num 0, [])]
  /\ descending (map shown_count (getVoteDistribution (game_in voting [] three_votes))).
Proof.
  split; [apply four_players_ordinary|]. split; [reflexivity|].
  apply (proj2 (proj2 (X21_getVoteDistribution_spec
                         (game_in voting [] three_votes)
                         (four_players_ordinary voting [] three_votes)))).
Defined.

(* ------------------------------------------------------------------ *)
(** ** The Convex store: votes and night actions *)

Lemma find_none_filter {A} (p : A -> bool) (l : list A) :
  find p l = None -> filter p l = [].
Proof.
  induction l as [|x l IH]; simpl; [reflexivity|].
  destruct (p x); [discriminate | exact IH].
Qed.

Lemma filter_unique_key {A K} (key : A -> K) (p : A -> bool) (k : K) (l : list A) x :
  NoDup (map key l) ->
  (forall d, In d l -> p d = true -> key d = k) ->
  find p l = Some x -> filter p l = [x].
Proof.
  induction l as [|y l IH]; simpl; intros Hnd Hk Hf; [discriminate|].
  inversion Hnd as [|? ? Hnotin Hnd']; subst.
  destruct (p y) eqn:Hy.
  - injection Hf as <-. f_equal.
    destruct (filter p l) as [|z l'] eqn:Ez; [reflexivity|]. exfalso.
    assert (Hz : In z (filter p l)) by (rewrite Ez; now left).
    apply filter_In in Hz. destruct Hz as [Hz Hpz].
    apply Hnotin. apply in_map_iff. exists z. split; [|assumption].
    rewrite (Hk z (or_intror Hz) Hpz). symmetry. apply Hk; [now left | assumption].
  - apply IH; [assumption | | assumption]. intros d Hd. apply Hk. now right.
Qed.

Lemma roundVotes_voter_unique db gid rnd voter existing :
  unique_votes db ->
  find (fun d => (Convex.vd_voterId d =? voter)%string) (Convex.roundVotes db gid rnd)
  = Some existing ->
  filter (fun d => (Convex.vd_voterId d =? voter)%string) (Convex.roundVotes db gid rnd)
  = [existing].
Proof.
  intros Hu Hf.
  apply (filter_unique_key vote_key _ (gid, voter, rnd)); [| |assumption].
  - unfold Convex.roundVotes. now apply NoDup_map_filter.
  - intros d Hd Hv. unfold Convex.roundVotes in Hd. apply filter_In in Hd.
    destruct Hd as [_ Hq]. apply andb_true_iff in Hq. destruct Hq as [Hg Hr].
    apply String.eqb_eq in Hg. apply String.eqb_eq in Hv. apply Z.eqb_eq in Hr.
    unfold vote_key. now rewrite Hg, Hv, Hr.
Qed.

(** X22. Cast, then query: after a successful [castVote] in a store with at
    most one Vote document per (game, voter, round), [getRoundVotes] for the
    current round lists exactly one vote of that voter; it is the document
    whose id [castVote] returned and it holds the target just cast. *)
Theorem X22_castVote_then_getRoundVotes (db db' : Convex.Db)
        (gid voter : Convex.Id) (target : option Convex.Id) (now : Z) (vid : nat) :
  unique_votes db ->
  Convex.castVote db gid voter target now = Ok (db', vid) ->
  exists d,
    filter (fun d => (Convex.vd_voterId d =? voter)%string)
           (ConvexExt.getRoundVotes db' gid None) = [d]
    /\ Convex.vd_id d = vid /\ Convex.vd_targetId d = target
    /\ Convex.vd_voterId d = voter.
Proof.
  intros Hu Hcast.
  assert (Hacc : exists r, Convex.castVote db gid voter target now = Ok r)
    by (now exists (db', vid)).
  apply castVote_accepts in Hacc.
  destruct Hacc as [game [v [Hg [Hph [Hv [Hvg Halive]]]]]].
  pose proof (castVote_accepted db gid voter target now game v
                                Hg Hph Hv Hvg Halive) as H.
  destruct (find _ (Convex.roundVotes db gid (Convex.g_round game)))
    as [existing|] eqn:Ef.
  - rewrite Hcast in H. injection H as -> ->.
    pose proof (roundVotes_voter_unique _ _ _ _ _ Hu Ef) as Huniq.
    pose proof (find_some _ _ Ef) as [_ Hvoter]. apply String.eqb_eq in Hvoter.
    exists (Convex.set_target target now existing).
    unfold ConvexExt.getRoundVotes, Convex.get_game, Convex.set_votes.
    cbn [Convex.games]. unfold Convex.get_game in Hg. rewrite Hg.
    unfold Convex.roundVotes in *. cbn [Convex.votes].
    rewrite !filter_map_keep.
    + rewrite Huniq. simpl. rewrite Nat.eqb_refl. repeat split. exact Hvoter.
    + intros d. destruct (Convex.vd_id d =? Convex.vd_id existing); reflexivity.
    + intros d. destruct (Convex.vd_id d =? Convex.vd_id existing); reflexivity.
  - rewrite Hcast in H. injection H as -> ->.
    exists (Convex.mkVoteDoc (Convex.nextId db) gid voter target
                             (Convex.g_round game) now).
    unfold ConvexExt.getRoundVotes, Convex.get_game, Convex.set_players,
      Convex.insert_vote.
    cbn [Convex.games fst]. unfold Convex.get_game in Hg. rewrite Hg.
    unfold Convex.roundVotes in *. cbn [Convex.votes].
    rewrite !filter_app, (find_none_filter _ _ Ef). simpl.
    rewrite !String.eqb_refl, Z.eqb_refl. simpl. rewrite String.eqb_refl.
    repeat split.
Qed.

Lemma X22_witness_second_vote :
  exists d,
    filter (fun d => (Convex.vd_voterId d =? "a")%string)
           (ConvexExt.getRoundVotes
              (Convex.set_votes
                 (store_in voting [Convex.mkVoteDoc 3 "g1" "a" (Some "b") 1%Z 1%Z] [])
                 [Convex.mkVoteDoc 3 "g1" "a" (Some "c") 1%Z 5%Z])
              "g1" None) = [d]
    /\ Convex.vd_id d = 3 /\ Convex.vd_targetId d = Some "c"
    /\ Convex.vd_voterId d = "a".
Proof.
  apply (X22_castVote_then_getRoundVotes
           (store_in voting [Convex.mkVoteDoc 3 "g1" "a" (Some "b") 1%Z 1%Z] [])
           _ "g1" "a" (Some "c") 5%Z 3).
  - unfold unique_votes. simpl. constructor; [simpl; tauto | constructor].
  - reflexivity.
Defined.

Lemma convex_submitNightAction_accepted db gid actor target ty now game p :
  Convex.get_game db gid = Some game ->
  Convex.g_phase game = night ->
  Convex.get_player db actor = Some p ->
  Convex.p_gameId p = gid -> Convex.p_isAlive p = true ->
  match find (fun a => (Convex.ad_playerId a =? actor)%string)
             (Convex.roundActions db gid (Convex.g_round game)) with
  | Some previous =>
      ConvexExt.submitNightAction db gid actor target ty now
      = Ok (ConvexExt.set_actions db
              (map (fun d => if Convex.ad_id d =? Convex.ad_id previous
                             then ConvexExt.set_action target ty now d else d)
                   (Convex.actions db)),
            Convex.ad_id previous)
  | None =>
      ConvexExt.submitNightAction db gid actor target ty now
      = Ok (Convex.set_players
              (fst (ConvexExt.insert_action db gid actor target ty
                                            (Convex.g_round game) now))
              (map (fun d => if (Convex.p_id d =? actor)%string
                             then ConvexExt.mark_acted d else d)
                   (Convex.players db)),
            Convex.nextId db)
  end.
Proof.
  intros Hg Hph Hp Hpg Halive. unfold ConvexExt.submitNightAction.
  rewrite Hg, Hp, Hph, Halive. apply String.eqb_eq in Hpg. rewrite Hpg.
  cbn [GamePhase_beq guard bind].
  destruct (find _ (Convex.roundActions db gid (Convex.g_round game)))
    as [previous|] eqn:Ef.
  - apply find_filter_found in Ef. destruct Ef as [Hin _].
    unfold ConvexExt.patch_action.
    destruct (find_is_some (fun d => Convex.ad_id d =? Convex.ad_id previous)
                           (Convex.actions db) previous Hin (Nat.eqb_refl _))
      as [y Hy].
    rewrite Hy. reflexivity.
  - cbn [ConvexExt.insert_action fst]. unfold Convex.patch_player, Convex.get_player.
    cbn [Convex.players]. unfold Convex.get_player in Hp. rewrite Hp. reflexivity.
Qed.

Lemma convex_submitNightAction_accepts db gid actor target ty now :
  (exists r, ConvexExt.submitNightAction db gid actor target ty now = Ok r)
  <-> (exists game p,
          Convex.get_game db gid = Some game /\ Convex.g_phase game = night
          /\ Convex.get_player db actor = Some p
          /\ Convex.p_gameId p = gid /\ Convex.p_isAlive p = true).
Proof.
  split.
  - intros [r H]. unfold ConvexExt.submitNightAction in H.
    destruct (Convex.get_game db gid) as [game|]; [|discriminate].
    destruct (GamePhase_beq (Convex.g_phase game) night) eqn:Hph; [|discriminate].
    cbn [guard bind] in H.
    destruct (Convex.get_player db actor) as [p|]; [|discriminate].
    destruct (String.eqb_spec (Convex.p_gameId p) gid) as [Hpg|]; [|discriminate].
    destruct (Convex.p_isAlive p) eqn:Halive; [|discriminate].
    exists game, p. repeat split; try assumption. now apply GamePhase_beq_eq.
  - intros [game [p [Hg [Hph [Hp [Hpg Halive]]]]]].
    pose proof (convex_submitNightAction_accepted db gid actor target ty now game p
                                                  Hg Hph Hp Hpg Halive) as H.
    destruct (find _ (Convex.roundActions db gid (Convex.g_round game)));
      eexists; exact H.
Qed.

Lemma convex_submitNightAction_keeps_unique db gid actor target ty now db' aid :
  unique_actions db ->
  ConvexExt.submitNightAction db gid actor target ty now = Ok (db', aid) ->
  unique_actions db'
  /\ exists a, In a (Convex.actions db') /\ Convex.ad_id a = aid
               /\ action_key a = (gid, actor, Convex.ad_round a)
               /\ Convex.ad_targetId a = target /\ Convex.ad_actionType a = ty.
Proof.
  intros Hu Hsub.
  assert (Hacc : exists r, ConvexExt.submitNightAction db gid actor target ty now = Ok r)
    by (now exists (db', aid)).
  apply convex_submitNightAction_accepts in Hacc.
  destruct Hacc as [game [p [Hg [Hph [Hp [Hpg Halive]]]]]].
  pose proof (convex_submitNightAction_accepted db gid actor target ty now game p
                                                Hg Hph Hp Hpg Halive) as H.
  destruct (find _ (Convex.roundActions db gid (Convex.g_round game)))
    as [previous|] eqn:Ef.
  - rewrite Hsub in H. injection H as -> ->.
    apply find_filter_found in Ef. destruct Ef as [Hin [Hact Hq]].
    apply String.eqb_eq in Hact. apply andb_true_iff in Hq. destruct Hq as [Hq _].
    apply String.eqb_eq in Hq.
    split.
    + unfold unique_actions in *. cbn. rewrite map_map.
      erewrite map_ext; [exact Hu|]. intros d.
      now destruct (Convex.ad_id d =? Convex.ad_id previous).
    + exists (ConvexExt.set_action target ty now previous). cbn.
      split; [|repeat split; unfold action_key; simpl; congruence].
      apply in_map_iff. exists previous. split; [|assumption].
      now rewrite Nat.eqb_refl.
  - rewrite Hsub in H. injection H as -> ->. split.
    + unfold unique_actions in *. cbn. rewrite map_app. cbn.
      apply (Permutation_NoDup (l := (gid, actor, Convex.g_round game)
                                        :: map action_key (Convex.actions db)));
        [apply Permutation_cons_append|].
      constructor; [|assumption]. intros Hin.
      apply in_map_iff in Hin. destruct Hin as [d [Hd Hin]].
      unfold action_key in Hd. injection Hd as Hd1 Hd2 Hd3.
      assert (Hfound : exists y,
                 find (fun a => (Convex.ad_playerId a =? actor)%string)
                      (Convex.roundActions db gid (Convex.g_round game)) = Some y).
      { apply (find_is_some _ _ d).
        - apply filter_In. split; [assumption|].
          rewrite Hd1, Hd3, String.eqb_refl, Z.eqb_refl. reflexivity.
        - rewrite Hd2. apply String.eqb_refl. }
      destruct Hfound as [y Hy]. congruence.
    + eexists. cbn. split; [apply in_or_app; right; left; reflexivity|].
      repeat split.
Qed.

(** X23. The Convex night-action mutation succeeds exactly when the game
    exists, is in phase [night], and the actor is a living player of that
    game; it does not look at the actor's role, flag or the action type it is
    handed.  A successful call keeps at most one Action document per (game,
    actor, round), and the document whose id it returns holds the target and
    type just submitted. *)
Theorem X23_convex_submitNightAction_spec (db : Convex.Db) (gid actor : Convex.Id)
        (target : option Convex.Id) (ty : NightActionType) (now : Z) :
  ((exists r, ConvexExt.submitNightAction db gid actor target ty now = Ok r)
   <-> (exists game p,
           Convex.get_game db gid = Some game /\ Convex.g_phase game = night
           /\ Convex.get_player db actor = Some p
           /\ Convex.p_gameId p = gid /\ Convex.p_isAlive p = true))
  /\ (forall db' aid,
        unique_actions db ->
        ConvexExt.submitNightAction db gid actor target ty now = Ok (db', aid) ->
        unique_actions db'
        /\ exists a, In a (Convex.actions db') /\ Convex.ad_id a = aid
                     /\ action_key a = (gid, actor, Convex.ad_round a)
                     /\ Convex.ad_targetId a = target
                     /\ Convex.ad_actionType a = ty).
Proof.
  split; [apply convex_submitNightAction_accepts|].
  intros db' aid. apply convex_submitNightAction_keeps_unique.
Qed.

(** A villager's "kill" is stored as handed in. *)
Example convex_submitNightAction_trusts_type :
  exists db',
    ConvexExt.submitNightAction (store_in night [] []) "g1" "a" (Some "b") kill 5%Z
    = Ok (db', 10)
    /\ Convex.actions db' = [Convex.mkActionDoc 10 "g1" "a" (Some "b") kill 1%Z 5%Z].
Proof. eexists. split; reflexivity. Qed.






(** At round 2^53 the sum is not exact: the mutation enters [night] and
    writes the same round again. *)
Example convex_round_stuck_at_2_53 :
  exists db',
    Convex.advancePhase
      (Convex.mkDb [Convex.mkGame "g1" setup (2 ^ 53)%Z None 0%Z] four_docs
                   [] [] [] [] 10)
      "g1" 50%Z
    = Ok (db', (night, (2 ^ 53)%Z)).
Proof. eexists. reflexivity. Qed.

Lemma convex_protectTargets_from acts t :
  In t (Convex.protectTargetsOf acts) ->
  exists a, In a acts /\ Convex.ad_actionType a = protect
            /\ Convex.ad_targetId a = Some t.
Proof.
  unfold Convex.protectTargetsOf. intros H. apply set_add_fold_in in H.
  destruct H as [[]|H]. unfold Convex.targets_of in H. apply in_flat_map in H.
  destruct H as [a [Ha Ht]]. apply filter_In in Ha. destruct Ha as [Ha Hp].
  apply andb_true_iff in Hp. destruct Hp as [Hp _].
  apply NightActionType_beq_eq in Hp.
  destruct (Convex.ad_targetId a) as [x|] eqn:E; [|contradiction].
  destruct Ht as [<-|[]]. now exists a.
Qed.

Lemma existsb_string_in (l : list string) t :
  existsb (fun y => (y =? t)%string) l = true <-> In t l.
Proof.
  rewrite existsb_exists. split.
  - intros [y [Hy E]]. apply String.eqb_eq in E. now subst.
  - intros H. exists t. split; [assumption | apply String.eqb_refl].
Qed.

(** X25. The Convex night resolution with an unprotected kill target: when no
    protect action of the round names the top kill target, the mutation marks
    the player documents with that id dead, touches no other player, and
    reports the id as eliminated; it throws when no such player document
    exists.  With no kill target it changes no player and reports nobody. *)
Theorem X25_convex_resolveNightActions_kill (db : Convex.Db) (gid : Convex.Id)
        (game : Convex.GameDoc) (now : Z) :
  Convex.get_game db gid = Some game ->
  let acts := Convex.roundActions db gid (Convex.g_round game) in
  (Convex.topKillTarget acts = None ->
   exists db' report,
     Convex.resolveNightActions db gid now = Ok (db', report)
     /\ Convex.players db' = Convex.players db
     /\ Convex.eliminatedPlayerId report = None)
  /\ (forall t,
        Convex.topKillTarget acts = Some t ->
        (forall a, In a acts -> Convex.ad_actionType a = protect ->
                   Convex.ad_targetId a <> Some t) ->
        (Convex.get_player db t <> None ->
         exists db' report,
           Convex.resolveNightActions db gid now = Ok (db', report)
           /\ Convex.players db'
              = map (fun d => if (Convex.p_id d =? t)%string
                              then Convex.set_dead d else d)
                    (Convex.players db)
           /\ Convex.eliminatedPlayerId report = Some t)
        /\ (Convex.get_player db t = None ->
            Convex.resolveNightActions db gid now
            = Err "Update on nonexistent document")).
Proof.
  intros Hg acts. split.
  - intros Htop. unfold Convex.resolveNightActions. rewrite Hg. fold acts.
    rewrite Htop. cbn. eexists. eexists. repeat split.
  - intros t Htop Hnone.
    pose proof (convex_topKillTarget_truthy _ _ Htop) as Htr.
    assert (Hhas : existsb (fun y => (y =? t)%string) (Convex.protectTargetsOf acts)
                   = false).
    { destruct (existsb (fun y => (y =? t)%string) (Convex.protectTargetsOf acts))
        eqn:E; [|reflexivity].
      apply existsb_string_in in E. apply convex_protectTargets_from in E.
      destruct E as [a [Ha [Hty Htg]]]. exfalso. now apply (Hnone a). }
    split.
    + intros Hp. unfold Convex.resolveNightActions. rewrite Hg. fold acts.
      rewrite Htop, Htr, Hhas. cbn [andb]. rewrite Htr.
      unfold Convex.patch_player.
      destruct (Convex.get_player db t); [|congruence].
      cbn. eexists. eexists. repeat split.
    + intros Hp. unfold Convex.resolveNightActions. rewrite Hg. fold acts.
      rewrite Htop, Htr, Hhas. cbn [andb]. rewrite Htr.
      unfold Convex.patch_player. rewrite Hp. reflexivity.
Qed.

Lemma X25_witness_unprotected_kill :
  exists db' report,
    Convex.resolveNightActions
      (store_in night [] [Convex.mkActionDoc 1 "g1" "w" (Some "a") kill 1%Z 1%Z])
      "g1" 9%Z = Ok (db', report)
    /\ map Convex.p_isAlive (Convex.players db') = [true; false; true; true]
    /\ Convex.eliminatedPlayerId report = Some "a".
Proof.
  destruct (proj1 (proj2 (X25_convex_resolveNightActions_kill
              (store_in night [] [Convex.mkActionDoc 1 "g1" "w" (Some "a") kill 1%Z 1%Z])
              "g1" (Convex.mkGame "g1" night 1%Z None 0%Z) 9%Z eq_refl)
              "a" eq_refl
              ltac:(simpl; intros a [<-|[]] H; discriminate H))
              ltac:(discriminate))
    as [db' [report [H [Hp He]]]].
  exists db', report. split; [exact H|]. split; [|exact He].
  rewrite Hp. reflexivity.
Defined.

(* ------------------------------------------------------------------ *)
(** ** The fallback policy and its callers *)

Lemma targetsOf_sub role candidates options c :
  In c (targetsOf role candidates options) -> In c candidates.
Proof.
  unfold targetsOf.
  destruct ((role =? "werewolf")%string && has_length (knownWerewolves options));
    [|tauto].
  destruct (filter _ candidates) as [|c' l] eqn:Ef; [tauto|].
  intros Hin. rewrite <- Ef in Hin. apply filter_In in Hin. tauto.
Qed.

Lemma targetsOf_nonempty role candidates options :
  candidates <> [] -> targetsOf role candidates options <> [].
Proof.
  intros Hne. unfold targetsOf.
  destruct ((role =? "werewolf")%string && has_length (knownWerewolves options));
    [|assumption].
  destruct (filter _ candidates); [assumption | discriminate].
Qed.

Lemma targetsOf_no_ally candidates options c :
  (exists c0, In c0 candidates
              /\ ~ In (c_id c0) (opt_list (knownWerewolves options))) ->
  In c (targetsOf "werewolf" candidates options) ->
  ~ In (c_id c) (opt_list (knownWerewolves options)).
Proof.
  intros [c0 [Hc0 Hfree]] Hin. unfold targetsOf in Hin.
  change (("werewolf" =? "werewolf")%string) with true in Hin. cbn [andb] in Hin.
  destruct (has_length (knownWerewolves options)) eqn:Hl.
  - destruct (filter (fun c => negb (existsb (fun w => (w =? c_id c)%string)
                                             (opt_list (knownWerewolves options))))
                     candidates) as [|c' l] eqn:Ef.
    + exfalso.
      assert (H0 : In c0 (filter (fun c => negb (existsb (fun w => (w =? c_id c)%string)
                                            (opt_list (knownWerewolves options))))
                                 candidates)).
      { apply filter_In. split; [assumption|]. apply negb_true_iff.
        destruct (existsb _ _) eqn:E; [|reflexivity].
        apply existsb_string_in in E. contradiction. }
      rewrite Ef in H0. contradiction.
    + rewrite <- Ef in Hin. apply filter_In in Hin. destruct Hin as [_ Hn].
      apply negb_true_iff in Hn. intros Hally.
      apply existsb_string_in in Hally. congruence.
  - unfold has_length in Hl. destruct (knownWerewolves options) as [[|w l]|];
      simpl; try discriminate; tauto.
Qed.

Lemma wolfTargetOf_in phase targets options w :
  wolfTargetOf phase targets options = Some w -> In w targets.
Proof.
  unfold wolfTargetOf.
  destruct (((phase =? "voting")%string || (phase =? "day")%string)
            && has_length (investigationResults options)); [|discriminate].
  destruct (find ir_isWerewolf (opt_list (investigationResults options)));
    [|discriminate].
  intros H. apply find_some in H. tauto.
Qed.

(** Where the policy's target comes from: the [targets] list, or the doctor's
    own id. *)
Lemma fallbackDecision_cases role phase candidates options rnd :
  candidates <> [] ->
  exists d t,
    fallbackDecision role phase candidates options rnd = Ok d
    /\ targetId d = Some t
    /\ (In t (map c_id (targetsOf role candidates options))
        \/ (role = "doctor" /\ phase = "night" /\ selfId options = Some t
            /\ t <> "")).
Proof.
  intros Hne. destruct candidates as [|c0 cs]; [congruence|].
  unfold fallbackDecision.
  set (targets := targetsOf role (c0 :: cs) options).
  assert (Hsel : forall r, exists d t,
               selectByDifficulty targets options r = Ok d
               /\ targetId d = Some t /\ In t (map c_id targets)).
  { intros r. apply selectByDifficulty_in. now apply targetsOf_nonempty. }
  destruct (wolfTargetOf phase targets options) as [w|] eqn:Ew.
  - eexists. exists (c_id w). split; [reflexivity|]. split; [reflexivity|].
    left. apply in_map. now apply (wolfTargetOf_in phase _ options).
  - destruct ((role =? "doctor")%string) eqn:Er; cbn [andb].
    2:{ destruct (Hsel (rnd 0)) as [d [t [Hd [Ht Hin]]]]. exists d, t. tauto. }
    destruct ((phase =? "night")%string) eqn:Ep; cbn [andb].
    2:{ destruct (Hsel (rnd 0)) as [d [t [Hd [Ht Hin]]]]. exists d, t. tauto. }
    destruct (truthy_opt (selfId options)) eqn:Es.
    2:{ destruct (Hsel (rnd 0)) as [d [t [Hd [Ht Hin]]]]. exists d, t. tauto. }
    destruct (selfChance (difficulty options)) as [p q].
    destruct (draw_lt (rnd 0) p q).
    + destruct (selfId options) as [me|]; [|discriminate].
      eexists. exists me. split; [reflexivity|]. split; [reflexivity|]. right.
      apply String.eqb_eq in Er, Ep. simpl in Es. apply truthy_true in Es. tauto.
    + destruct (Hsel (rnd 1)) as [d [t [Hd [Ht Hin]]]]. exists d, t. tauto.
Qed.

(** X26. A werewolf's fallback never points at a known ally while a candidate
    who is no ally exists: whatever the phase, difficulty and draws, the
    target is then a candidate outside the known werewolves. *)
Theorem X26_werewolf_fallback_spares_allies (phase : string)
        (candidates : list Candidate) (options : FallbackOptions)
        (rnd : nat -> Draw) :
  (exists c0, In c0 candidates
              /\ ~ In (c_id c0) (opt_list (knownWerewolves options))) ->
  exists d t,
    fallbackDecision "werewolf" phase candidates options rnd = Ok d
    /\ targetId d = Some t
    /\ In t (map c_id candidates)
    /\ ~ In t (opt_list (knownWerewolves options)).
Proof.
  intros Hfree.
  assert (Hne : candidates <> []).
  { destruct Hfree as [c0 [Hc0 _]]. intros E. rewrite E in Hc0. contradiction. }
  destruct (fallbackDecision_cases "werewolf" phase candidates options rnd Hne)
    as [d [t [Hd [Ht Hsrc]]]].
  exists d, t. split; [exact Hd|]. split; [exact Ht|].
  destruct Hsrc as [Hin|[Hdoc _]]; [|discriminate].
  apply in_map_iff in Hin. destruct Hin as [c [<- Hc]]. split.
  - apply in_map. now apply (targetsOf_sub "werewolf" _ options).
  - now apply (targetsOf_no_ally candidates options).
Qed.

Lemma X26_witness_one_ally :
  exists d t,
    fallbackDecision "werewolf" "night"
      [mkCandidate "w2" "Wolf two"; mkCandidate "a" "Ann"]
      (mkOptions hard (Some ["w2"]) None (Some "w")) always_zero = Ok d
    /\ targetId d = Some t
    /\ In t (map c_id [mkCandidate "w2" "Wolf two"; mkCandidate "a" "Ann"])
    /\ ~ In t (opt_list (knownWerewolves (mkOptions hard (Some ["w2"]) None (Some "w")))).
Proof.
  apply (X26_werewolf_fallback_spares_allies "night"
           [mkCandidate "w2" "Wolf two"; mkCandidate "a" "Ann"]
           (mkOptions hard (Some ["w2"]) None (Some "w")) always_zero).
  exists (mkCandidate "a" "Ann"). split; [simpl; tauto|].
  simpl. intros [H|[]]. discriminate.
Defined.

Lemma hd_filter_find {A} (p : A -> bool) (l : list A) :
  hd_error (filter p l) = find p l.
Proof.
  induction l as [|x l IH]; simpl; [reflexivity|].
  destruct (p x); [reflexivity | exact IH].
Qed.

(** X27. The two non-trivial tiers of [selectByDifficulty] on a non-empty
    target list: [medium] always picks among the first max(floor(n/2), 1)
    targets; [hard] uses no randomness and picks the first target, in list
    order, that no investigation result mentions, or the first target when
    all are mentioned. *)
Theorem X27_selectByDifficulty_tiers (targets : list Candidate)
        (options : FallbackOptions) (r : Draw) (c0 : Candidate) :
  hd_error targets = Some c0 ->
  (difficulty options = medium ->
   exists d t,
     selectByDifficulty targets options r = Ok d /\ targetId d = Some t
     /\ In t (map c_id (firstn (Nat.max (length targets / 2) 1) targets)))
  /\ (difficulty options = hard ->
      exists d,
        selectByDifficulty targets options r = Ok d
        /\ targetId d
           = Some (c_id (match find (uninvestigated options) targets with
                         | Some u => u
                         | None => c0
                         end))).
Proof.
  intros Hhd. destruct targets as [|c1 rest]; [discriminate|].
  injection Hhd as ->. set (targets := c0 :: rest). split.
  - intros Hm. unfold selectByDifficulty. rewrite Hm.
    set (pool := firstn (Nat.max (length targets / 2) 1) targets).
    assert (Hpool : 0 < length pool).
    { unfold pool. rewrite length_firstn. simpl. lia. }
    destruct (id_at_in pool (floor_mul r (length pool))) as [t [Ht Hin]];
      [now apply floor_mul_lt|].
    rewrite Ht. eexists. exists t. repeat split. exact Hin.
  - intros Hh. unfold selectByDifficulty. rewrite Hh.
    destruct (has_length (investigationResults options)) eqn:Hl.
    + change (fun t => negb (existsb (fun r0 => (ir_playerId r0 =? c_id t)%string)
                                     (opt_list (investigationResults options))))
        with (uninvestigated options).
      rewrite <- (hd_filter_find (uninvestigated options) targets).
      destruct (filter (uninvestigated options) targets) as [|u us];
        eexists; split; reflexivity.
    + assert (E : opt_list (investigationResults options) = []).
      { unfold has_length in Hl.
        destruct (investigationResults options) as [[|x l]|]; try reflexivity.
        discriminate. }
      eexists. split; [reflexivity|]. simpl.
      unfold uninvestigated at 1. rewrite E. reflexivity.
Qed.

Lemma X27_witness_three_targets :
  let targets := [mkCandidate "a" "Ann"; mkCandidate "b" "Bob"; mkCandidate "c" "Cy"] in
  let options := mkOptions hard None
                           (Some [mkInvestigationResult "a" false]) None in
  exists d,
    selectByDifficulty targets options (0, 0) = Ok d /\ targetId d = Some "b".
Proof.
  apply (proj2 (X27_selectByDifficulty_tiers
                  [mkCandidate "a" "Ann"; mkCandidate "b" "Bob"; mkCandidate "c" "Cy"]
                  (mkOptions hard None (Some [mkInvestigationResult "a" false]) None)
                  (0, 0) (mkCandidate "a" "Ann") eq_refl)).
  reflexivity.
Defined.

Lemma makeFallback_cases role phase alive playerId difficulty allies results rnd :
  exists d,
    AiEngine.makeFallback role phase alive playerId difficulty allies results rnd = Ok d
    /\ forall t, targetId d = Some t ->
         (exists p, In p alive /\ Convex.p_id p = t
                    /\ AiEngine.is_other playerId p = true
                    /\ (role = "werewolf" ->
                        (exists q, In q alive /\ AiEngine.is_other playerId q = true
                                   /\ ~ In (Convex.p_id q)
                                           (map Convex.p_id (opt_list allies))) ->
                        ~ In t (map Convex.p_id (opt_list allies))))
         \/ (role = "doctor" /\ phase = "night" /\ playerId = Some t /\ t <> "").
Proof.
  unfold AiEngine.makeFallback.
  set (candidates := map (fun p => mkCandidate (Convex.p_id p) (Convex.p_name p))
                         (filter (AiEngine.is_other playerId) alive)).
  set (options := mkOptions difficulty (option_map (map Convex.p_id) allies) _ playerId).
  assert (Hallies : opt_list (knownWerewolves options)
                    = map Convex.p_id (opt_list allies)).
  { unfold options. simpl. now destruct allies. }
  destruct candidates as [|c cs] eqn:Ec.
  - eexists. split; [reflexivity|]. simpl. discriminate.
  - rewrite <- Ec.
    assert (Hne : candidates <> []) by (rewrite Ec; discriminate).
    destruct (fallbackDecision_cases role phase candidates options rnd Hne)
      as [d [t [Hd [Ht Hsrc]]]].
    exists d. split; [exact Hd|]. intros t' Ht'. rewrite Ht in Ht'.
    injection Ht' as <-. destruct Hsrc as [Hin|Hdoc]; [left | right; exact Hdoc].
    apply in_map_iff in Hin. destruct Hin as [c' [Hid Hc']].
    pose proof (targetsOf_sub role candidates options c' Hc') as Hcand.
    unfold candidates in Hcand. apply in_map_iff in Hcand.
    destruct Hcand as [p [Hp Hpin]]. apply filter_In in Hpin.
    destruct Hpin as [Hpin Hother].
    exists p. split; [exact Hpin|]. split; [subst c'; simpl in Hid; exact Hid|].
    split; [exact Hother|].
    intros Hrole [q [Hq [Hqo Hqfree]]]. subst role. rewrite <- Hid, <- Hallies.
    apply (targetsOf_no_ally candidates options); [|exact Hc'].
    exists (mkCandidate (Convex.p_id q) (Convex.p_name q)). split.
    + unfold candidates. apply in_map_iff. exists q. split; [reflexivity|].
      apply filter_In. tauto.
    + cbn [c_id]. rewrite Hallies. exact Hqfree.
Qed.

Lemma getGameContext_alive db msgs gid playerId ctx p :
  AiEngine.getGameContext db msgs gid playerId = Some ctx ->
  (In p (AiEngine.gc_alivePlayers ctx)
   <-> In p (Convex.players db) /\ Convex.p_gameId p = gid
       /\ Convex.p_isAlive p = true)
  /\ Convex.get_game db gid = Some (AiEngine.gc_game ctx).
Proof.
  unfold AiEngine.getGameContext.
  destruct (Convex.get_game db gid) as [game|]; [|discriminate].
  intros H. injection H as <-. cbn [AiEngine.gc_alivePlayers AiEngine.gc_game].
  split; [|reflexivity]. rewrite !filter_In, String.eqb_eq. tauto.
Qed.

Lemma role_name_inj r r' : AiEngine.role_name r = AiEngine.role_name r' -> r = r'.
Proof. destruct r, r'; simpl; intros H; try reflexivity; discriminate. Qed.

Lemma phase_name_inj p p' : AiEngine.phase_name p = AiEngine.phase_name p' -> p = p'.
Proof. destruct p, p'; simpl; intros H; try reflexivity; discriminate. Qed.

(** X28. With the reasoning provider out of the way, a player-decision task
    always completes: the fallback branch returns a result marked "fallback"
    whose target, if any, is the id of a living player of the game other than
    the deciding player, or the deciding player's own id when the game is at
    [night] (the doctor's self-protection). *)
Theorem X28_fallbackPlayerDecision_legal
        (aiDifficultyOf : Convex.PlayerDoc -> option Difficulty) (db : Convex.Db)
        (msgs : list AiEngine.MessageDoc) (model : string) (gid pid : Convex.Id)
        (rnd : nat -> Draw) :
  exists res,
    AiEngine.fallbackPlayerDecision aiDifficultyOf db msgs model gid (Some pid) rnd
    = Ok res
    /\ AiEngine.tr_source res = "fallback"
    /\ forall t, AiEngine.tr_targetId res = Some t ->
         (t <> pid /\ exists p, living_player_of db gid t p)
         \/ (t = pid /\ exists game, Convex.get_game db gid = Some game
                                     /\ Convex.g_phase game = night).
Proof.
  unfold AiEngine.fallbackPlayerDecision.
  destruct (AiEngine.getGameContext db msgs gid (Some pid)) as [ctx|] eqn:Hctx.
  2:{ eexists. split; [reflexivity|]. split; [reflexivity|]. simpl. discriminate. }
  match goal with
  | |- context [AiEngine.makeFallback ?role ?phase ?alive ?pl ?diff ?allies ?results ?r] =>
      destruct (makeFallback_cases role phase alive pl diff allies results r)
        as [fb [Hfb Hsrc]]
  end.
  rewrite Hfb. cbn [bind]. eexists. split; [reflexivity|]. split; [reflexivity|].
  cbn [AiEngine.tr_targetId]. intros t Ht.
  destruct (Hsrc t Ht) as [[p [Hp [Hid [Hother _]]]]|[_ [Hphase [Hself _]]]].
  - left. unfold AiEngine.is_other in Hother. simpl in Hother.
    apply negb_true_iff in Hother. apply String.eqb_neq in Hother.
    split; [congruence|]. exists p.
    destruct (getGameContext_alive db msgs gid (Some pid) ctx p Hctx) as [Hal _].
    apply Hal in Hp. unfold living_player_of. tauto.
  - right. injection Hself as <-. split; [reflexivity|].
    destruct (getGameContext_alive db msgs gid (Some pid) ctx
                (Convex.mkPlayerDoc "" "" "" None true false false) Hctx) as [_ Hg].
    exists (AiEngine.gc_game ctx). split; [exact Hg|].
    apply phase_name_inj. exact Hphase.
Qed.

Lemma makeFallback_some role phase alive playerId difficulty allies results rnd :
  filter (AiEngine.is_other playerId) alive <> [] ->
  exists d t,
    AiEngine.makeFallback role phase alive playerId difficulty allies results rnd = Ok d
    /\ targetId d = Some t.
Proof.
  intros Hne. unfold AiEngine.makeFallback.
  match goal with
  | |- context [fallbackDecision role phase ?cands ?opts rnd] =>
      destruct (fallbackDecision_cases role phase cands opts rnd)
        as [d [t [Hd [Ht _]]]]
  end.
  - intros E. apply map_eq_nil in E. contradiction.
  - exists d, t. split; assumption.
Qed.

Lemma NoDup_map_same {A B} (f : A -> B) (l : list A) (x y : A) :
  NoDup (map f l) -> In x l -> In y l -> f x = f y -> x = y.
Proof.
  induction l as [|a l IH]; simpl; [tauto|].
  intros Hnd Hx Hy E. apply NoDup_cons_iff in Hnd. destruct Hnd as [Hfresh Hnd].
  destruct Hx as [->|Hx], Hy as [->|Hy].
  - reflexivity.
  - exfalso. apply Hfresh. rewrite E. now apply in_map.
  - exfalso. apply Hfresh. rewrite <- E. now apply in_map.
  - now apply IH.
Qed.

Lemma docs_role_true r p : AiEngine.docs_role r p = true <-> Convex.p_role p = Some r.
Proof.
  unfold AiEngine.docs_role. destruct (Convex.p_role p) as [r'|].
  - split.
    + intros H. f_equal. now apply internal_WerewolfRole_dec_bl.
    + intros H. injection H as ->. now apply internal_WerewolfRole_dec_lb.
  - split; discriminate.
Qed.

Lemma ai_werewolf_fallback aiDifficultyOf db msgs model gid pid rnd game pl q :
  NoDup (map Convex.p_id (Convex.players db)) ->
  Convex.get_game db gid = Some game ->
  pid <> "" ->
  living_player_of db gid pid pl ->
  Convex.p_role pl = Some werewolf ->
  living_player_of db gid (Convex.p_id q) q ->
  Convex.p_role q <> Some werewolf ->
  exists res t p,
    AiEngine.fallbackPlayerDecision aiDifficultyOf db msgs model gid (Some pid) rnd
    = Ok res
    /\ AiEngine.tr_targetId res = Some t
    /\ living_player_of db gid t p
    /\ Convex.p_role p <> Some werewolf.
Proof.
  intros Hnd Hgame Hpid [Hpl [Hplid [Hplg _]]] Hwolf [Hq [_ [Hqg Hqa]]] Hqrole.
  set (allPlayers := filter (fun p => (Convex.p_gameId p =? gid)%string)
                            (Convex.players db)).
  assert (Hall : forall p, In p allPlayers
                           <-> In p (Convex.players db) /\ Convex.p_gameId p = gid).
  { intros p. unfold allPlayers. rewrite filter_In, String.eqb_eq. tauto. }
  assert (Hfind : find (fun p => (Convex.p_id p =? pid)%string) allPlayers = Some pl).
  { destruct (find (fun p => (Convex.p_id p =? pid)%string) allPlayers) as [pl'|] eqn:E.
    - apply find_some in E. destruct E as [Hin E]. apply String.eqb_eq in E.
      f_equal. apply (NoDup_map_same Convex.p_id (Convex.players db)); try assumption.
      + now apply Hall in Hin.
      + congruence.
    - exfalso.
      pose proof (find_none _ _ E pl (proj2 (Hall pl) (conj Hpl Hplg))) as Hno.
      cbn beta in Hno. rewrite Hplid, String.eqb_refl in Hno. discriminate. }
  assert (Hqpl : Convex.p_id q <> pid).
  { intros E. apply Hqrole. rewrite <- Hwolf. f_equal.
    apply (NoDup_map_same Convex.p_id (Convex.players db)); try assumption.
    congruence. }
  unfold AiEngine.fallbackPlayerDecision, AiEngine.getGameContext.
  rewrite Hgame. fold allPlayers.
  destruct (truthy_true pid) as [_ Htr]. rewrite (Htr Hpid). rewrite Hfind.
  rewrite (proj2 (docs_role_true werewolf pl) Hwolf).
  cbn [AiEngine.gc_player AiEngine.gc_game AiEngine.gc_alivePlayers
       AiEngine.gc_knownWerewolves AiEngine.gc_investigationResults].
  rewrite Hwolf. cbn [AiEngine.role_name].
  set (alive := filter Convex.p_isAlive allPlayers).
  assert (Halive : forall p, In p alive <-> In p allPlayers /\ Convex.p_isAlive p = true).
  { intros p. unfold alive. now rewrite filter_In. }
  assert (Hother : forall p, AiEngine.is_other (Some pid) p = true
                             <-> Convex.p_id p <> pid).
  { intros p. unfold AiEngine.is_other. simpl.
    rewrite negb_true_iff. apply String.eqb_neq. }
  assert (Hqin : In q (filter (AiEngine.is_other (Some pid)) alive)).
  { apply filter_In. split; [|now apply Hother].
    apply Halive. split; [|assumption]. apply Hall. tauto. }
  match goal with
  | |- context [AiEngine.makeFallback ?role ?phase alive ?who ?diff ?allies ?results rnd] =>
      destruct (makeFallback_some role phase alive who diff allies results rnd)
        as [fb [t [Hfb Ht]]];
      [intros E; rewrite E in Hqin; contradiction|];
      destruct (makeFallback_cases role phase alive who diff allies results rnd)
        as [fb' [Hfb' Hsrc]]
  end.
  rewrite Hfb in Hfb'. injection Hfb' as <-. rewrite Hfb. cbn [bind].
  destruct (Hsrc t Ht) as [[p [Hp [Hid [Hpo Hfree]]]]|[Hdoc _]]; [|discriminate].
  eexists. exists t, p. split; [reflexivity|]. split; [exact Ht|].
  apply Halive in Hp. destruct Hp as [Hpall Hpa]. apply Hall in Hpall.
  split; [unfold living_player_of; tauto|].
  intros Hprole. apply (Hfree eq_refl).
  - exists q. split; [apply filter_In in Hqin; tauto|].
    split; [now apply Hother|]. cbn [opt_list]. intros Hin.
    apply in_map_iff in Hin. destruct Hin as [w [Hwid Hw]].
    apply filter_In in Hw. destruct Hw as [Hwall Hw].
    apply andb_true_iff in Hw. destruct Hw as [Hw _].
    apply andb_true_iff in Hw. destruct Hw as [Hw _].
    apply docs_role_true in Hw. apply Hqrole. rewrite <- Hw. f_equal.
    apply (NoDup_map_same Convex.p_id (Convex.players db)); try assumption.
    + now apply Hall in Hwall.
    + congruence.
  - cbn [opt_list]. rewrite <- Hid. apply in_map. apply filter_In.
    split; [now apply Hall|].
    rewrite (proj2 (docs_role_true werewolf p) Hprole), Hpa.
    apply Hother in Hpo. apply String.eqb_neq in Hpo.
    rewrite Hplid, Hpo. reflexivity.
Qed.

(** X29. The fallback of an AI werewolf, end to end.  In a store with unique
    player ids, for a living werewolf of an existing game, as soon as the game
    has one living player who is not a werewolf, the fallback branch returns a
    target, and that target is a living player of the game who is not a
    werewolf: the pack and the werewolf itself are never chosen, whatever the
    difficulty and the random draws. *)
Theorem X29_ai_werewolf_targets_outsider
        (aiDifficultyOf : Convex.PlayerDoc -> option Difficulty) (db : Convex.Db)
        (msgs : list AiEngine.MessageDoc) (model : string) (gid pid : Convex.Id)
        (rnd : nat -> Draw) (game : Convex.GameDoc) (pl q : Convex.PlayerDoc) :
  NoDup (map Convex.p_id (Convex.players db)) ->
  Convex.get_game db gid = Some game ->
  pid <> "" ->
  living_player_of db gid pid pl ->
  Convex.p_role pl = Some werewolf ->
  living_player_of db gid (Convex.p_id q) q ->
  Convex.p_role q <> Some werewolf ->
  exists res t p,
    AiEngine.fallbackPlayerDecision aiDifficultyOf db msgs model gid (Some pid) rnd
    = Ok res
    /\ AiEngine.tr_targetId res = Some t
    /\ living_player_of db gid t p
    /\ Convex.p_role p <> Some werewolf.
Proof. apply ai_werewolf_fallback. Qed.

Lemma X29_witness_wolf_pack :
  exists res t p,
    AiEngine.fallbackPlayerDecision no_difficulty wolf_pack_store [] "model" "g1"
                                    (Some "w") (fun _ => (0, 0))
    = Ok res
    /\ AiEngine.tr_targetId res = Some t
    /\ living_player_of wolf_pack_store "g1" t p
    /\ Convex.p_role p <> Some werewolf.
Proof.
  apply (X29_ai_werewolf_targets_outsider
           no_difficulty wolf_pack_store [] "model" "g1" "w" (fun _ => (0, 0))
           (Convex.mkGame "g1" night 1%Z None 0%Z)
           (Convex.mkPlayerDoc "w" "g1" "Wolf" (Some werewolf) true false false)
           (Convex.mkPlayerDoc "a" "g1" "Ann" (Some villager) true false false)).
  - simpl. repeat constructor; simpl; intuition discriminate.
  - reflexivity.
  - discriminate.
  - unfold living_player_of. simpl. tauto.
  - reflexivity.
  - unfold living_player_of. simpl. tauto.
  - discriminate.
Defined.

Lemma settleDecision_cases parsed role phase alive playerId difficulty allies results rnd :
  let validTargetIds := map Convex.p_id (filter (AiEngine.is_other playerId) alive) in
  exists d,
    AiEngine.settleDecision parsed role phase alive playerId difficulty allies
                            results rnd = Ok d
    /\ (forall pd x, parsed = Some pd -> targetId pd = Some x ->
                     In x validTargetIds ->
                     d = mkDecision (Some x) (reasoning pd))
    /\ (forall pd, parsed = Some pd -> targetId pd = None ->
                   d = mkDecision None (reasoning pd))
    /\ (parsed = None ->
        exists fb,
          AiEngine.makeFallback role phase alive playerId difficulty allies results rnd
          = Ok fb
          /\ d = mkDecision (targetId fb) ("Fallback: " ++ reasoning fb))
    /\ (forall t, targetId d = Some t ->
                  In t validTargetIds
                  \/ (role = "doctor" /\ phase = "night" /\ playerId = Some t
                      /\ t <> "")).
Proof.
  intros validTargetIds.
  destruct (makeFallback_cases role phase alive playerId difficulty allies results rnd)
    as [fb [Hfb Hsrc]].
  assert (Hsafe : forall t, targetId fb = Some t ->
                    In t validTargetIds
                    \/ (role = "doctor" /\ phase = "night" /\ playerId = Some t
                        /\ t <> "")).
  { intros t Ht. destruct (Hsrc t Ht) as [[p [Hp [Hid [Ho _]]]]|Hd]; [left | now right].
    unfold validTargetIds. rewrite <- Hid. apply in_map. apply filter_In. tauto. }
  unfold AiEngine.settleDecision. fold validTargetIds. rewrite Hfb. cbn [bind].
  destruct parsed as [pd|].
  - assert (Hval : forall x, targetId pd = Some x ->
               (In x validTargetIds ->
                validateTargetId (targetId pd) validTargetIds = Some x)
               /\ (~ In x validTargetIds ->
                   validateTargetId (targetId pd) validTargetIds = None)).
    { intros x Hx. rewrite Hx. unfold validateTargetId.
      destruct (existsb (fun y => (y =? x)%string) validTargetIds) eqn:E.
      - apply existsb_string_in in E. tauto.
      - split; [|reflexivity]. intros Hin. exfalso.
        assert (E' : existsb (fun y => (y =? x)%string) validTargetIds = true).
        { apply existsb_exists. exists x. split; [assumption|apply String.eqb_refl]. }
        congruence. }
    destruct (targetId pd) as [x|] eqn:Hx.
    + destruct (in_dec string_dec x validTargetIds) as [Hin|Hout].
      * rewrite (proj1 (Hval x eq_refl) Hin).
        replace (truthy_opt (Some x) && negb (truthy_opt (Some x))) with false
          by (destruct (truthy_opt (Some x)); reflexivity).
        eexists. split; [reflexivity|]. split.
        { intros pd' x' Hpd Hx' _. injection Hpd as <-. rewrite Hx in Hx'.
          now injection Hx' as <-. }
        split; [intros pd' Hpd Hn; injection Hpd as <-; congruence|].
        split; [discriminate|].
        cbn [targetId]. intros t Ht. injection Ht as <-. now left.
      * rewrite (proj2 (Hval x eq_refl) Hout). cbn [truthy_opt negb].
        rewrite andb_true_r.
        destruct (truthy x) eqn:Htr.
        { eexists. split; [reflexivity|]. split.
          { intros pd' x' Hpd Hx' Hin'. injection Hpd as <-. rewrite Hx in Hx'.
            injection Hx' as <-. contradiction. }
          split; [intros pd' Hpd Hn; injection Hpd as <-; congruence|].
          split; [discriminate|]. cbn [targetId]. exact Hsafe. }
        { eexists. split; [reflexivity|]. split.
          { intros pd' x' Hpd Hx' Hin'. injection Hpd as <-. rewrite Hx in Hx'.
            injection Hx' as <-. contradiction. }
          split; [intros pd' Hpd Hn; injection Hpd as <-; congruence|].
          split; [discriminate|]. cbn [targetId]. discriminate. }
    + cbn [truthy_opt andb validateTargetId].
      eexists. split; [reflexivity|]. split.
      { intros pd' x' Hpd Hx'. injection Hpd as <-. congruence. }
      split; [intros pd' Hpd _; now injection Hpd as <-|].
      split; [discriminate|]. cbn [targetId]. discriminate.
  - eexists. split; [reflexivity|]. split; [discriminate|]. split; [discriminate|].
    split; [intros _; exists fb; split; reflexivity|]. cbn [targetId]. exact Hsafe.
Qed.

(** X30. How [processPlayerDecision] settles the answer of the model.  It
    always returns a decision; a parsed target that is the id of a living
    player other than the deciding one is kept with the model's reasoning; a
    parsed null target stays null (no fallback is consulted); an unparsable
    answer is replaced by the fallback, its reasoning prefixed by
    "Fallback: "; and in every case the returned target, if any, is the id of
    a living player other than the deciding one, or the deciding doctor's own
    id at night. *)
Theorem X30_settleDecision_spec
        (parsed : option ParsedDecision) (role phase : string)
        (alive : list Convex.PlayerDoc) (playerId : option Convex.Id)
        (difficulty : Difficulty) (allies : option (list Convex.PlayerDoc))
        (results : option (list AiEngine.InvestigationInfo)) (rnd : nat -> Draw) :
  let validTargetIds := map Convex.p_id (filter (AiEngine.is_other playerId) alive) in
  exists d,
    AiEngine.settleDecision parsed role phase alive playerId difficulty allies
                            results rnd = Ok d
    /\ (forall pd x, parsed = Some pd -> targetId pd = Some x ->
                     In x validTargetIds ->
                     d = mkDecision (Some x) (reasoning pd))
    /\ (forall pd, parsed = Some pd -> targetId pd = None ->
                   d = mkDecision None (reasoning pd))
    /\ (parsed = None ->
        exists fb,
          AiEngine.makeFallback role phase alive playerId difficulty allies results rnd
          = Ok fb
          /\ d = mkDecision (targetId fb) ("Fallback: " ++ reasoning fb))
    /\ (forall t, targetId d = Some t ->
                  In t validTargetIds
                  \/ (role = "doctor" /\ phase = "night" /\ playerId = Some t
                      /\ t <> "")).
Proof. apply settleDecision_cases. Qed.
